(** * Request optimizer and connection prober of mindy-3

    A shallow embedding of [src/utils/requestManager.js] (cache,
    in-flight deduplication, burst throttling, retry) and of
    [checkSupabaseConnection] in [src/utils/supabase.js], with the
    properties stated about them in the specification.

    JavaScript's event loop is modelled by explicit state passing: every
    synchronous run of code between two suspension points ([await]) is one
    Rocq function from state to state, and the environment (clock, transport,
    timers, backend) drives the machine through events. *)

From stdpp Require Import base option list gmap strings pretty.
From Stdlib Require Import ZArith Ascii Lia.

Local Open Scope Z_scope.
Local Open Scope string_scope.

(** ** JSON values and [JSON.stringify] *)

Module Json.

(** A JavaScript value as far as [JSON.stringify] distinguishes it. The
    property list of an object is in enumeration order, which for ordinary
    (non-index) keys is insertion order. Numbers are restricted to integers. *)
#[local] Unset Elimination Schemes.
Inductive json : Type :=
| JUndefined
| JNull
| JBool (b : bool)
| JNum (n : Z)
| JStr (s : string)
| JArr (items : list json)
| JObj (props : list (string * json)).
#[local] Set Elimination Schemes.

Definition dquote : ascii := Ascii.ascii_of_nat 34.
Definition backslash : ascii := Ascii.ascii_of_nat 92.

Definition hexDigit (n : N) : ascii :=
  if (n <? 10)%N then Ascii.ascii_of_N (48 + n) else Ascii.ascii_of_N (87 + n).

(** One code unit of [QuoteJSONString]. *)
Definition escapeChar (c : ascii) : string :=
  let n := Ascii.N_of_ascii c in
  if (n =? 34)%N then String backslash (String dquote EmptyString)
  else if (n =? 92)%N then String backslash (String backslash EmptyString)
  else if (n =? 8)%N then String backslash "b"
  else if (n =? 12)%N then String backslash "f"
  else if (n =? 10)%N then String backslash "n"
  else if (n =? 13)%N then String backslash "r"
  else if (n =? 9)%N then String backslash "t"
  else if (n <? 32)%N then
    String backslash
      (String "u" (String "0" (String "0"
        (String (hexDigit (n / 16)) (String (hexDigit (n mod 16)) EmptyString)))))
  else String c EmptyString.

Fixpoint escape (s : string) : string :=
  match s with
  | EmptyString => EmptyString
  | String c r => escapeChar c ++ escape r
  end.

Definition quote (s : string) : string :=
  String dquote (escape s ++ String dquote EmptyString).

(** [JSON.stringify]: a property whose value is [undefined] is left out of an
    object, and [undefined] inside an array is written as [null]. *)
Fixpoint stringify (j : json) : string :=
  match j with
  | JUndefined => "null"
  | JNull => "null"
  | JBool true => "true"
  | JBool false => "false"
  | JNum n => pretty n
  | JStr s => quote s
  | JArr items => "[" ++ String.concat "," (map stringify items) ++ "]"
  | JObj props =>
      "{" ++ String.concat ","
        ((fix members (ps : list (string * json)) : list string :=
            match ps with
            | [] => []
            | (k, v) :: r =>
                match v with
                | JUndefined => members r
                | _ => (quote k ++ ":" ++ stringify v) :: members r
                end
            end) props) ++ "}"
  end.

(** Induction over [json] that reaches into arrays and objects. *)
Section JsonInd.
Variable P : json → Prop.
Hypothesis Hundef : P JUndefined.
Hypothesis Hnull : P JNull.
Hypothesis Hbool : ∀ b, P (JBool b).
Hypothesis Hnum : ∀ n, P (JNum n).
Hypothesis Hstr : ∀ s, P (JStr s).
Hypothesis Harr : ∀ items, Forall P items → P (JArr items).
Hypothesis Hobj : ∀ props, Forall (λ kv, P kv.2) props → P (JObj props).

Fixpoint json_nested_ind (j : json) : P j :=
  match j with
  | JUndefined => Hundef
  | JNull => Hnull
  | JBool b => Hbool b
  | JNum n => Hnum n
  | JStr s => Hstr s
  | JArr items =>
      Harr items
        ((fix go (l : list json) : Forall P l :=
            match l with
            | [] => Forall_nil_2 P
            | x :: r => Forall_cons_2 P x r (json_nested_ind x) (go r)
            end) items)
  | JObj props =>
      Hobj props
        ((fix go (l : list (string * json)) : Forall (λ kv, P kv.2) l :=
            match l with
            | [] => Forall_nil_2 _
            | (k, v) :: r =>
                Forall_cons_2 (λ kv, P kv.2) (k, v) r (json_nested_ind v) (go r)
            end) props)
  end.
End JsonInd.

(** Structural equality of two values as maps: arrays agree element by
    element, objects hold the same properties whatever their order. *)
#[local] Unset Elimination Schemes.
Inductive json_equiv : json → json → Prop :=
| equiv_undefined : json_equiv JUndefined JUndefined
| equiv_null : json_equiv JNull JNull
| equiv_bool b : json_equiv (JBool b) (JBool b)
| equiv_num n : json_equiv (JNum n) (JNum n)
| equiv_str s : json_equiv (JStr s) (JStr s)
| equiv_arr l1 l2 :
    Forall2 json_equiv l1 l2 → json_equiv (JArr l1) (JArr l2)
| equiv_obj ps1 ps2 qs :
    NoDup ps1.*1 →
    ps2 ≡ₚ qs →
    Forall2 (λ p q, p.1 = q.1 ∧ json_equiv p.2 q.2) ps1 qs →
    json_equiv (JObj ps1) (JObj ps2).

(** Two values list the properties of their objects in the same order. *)
Inductive same_order : json → json → Prop :=
| order_arr l1 l2 :
    Forall2 same_order l1 l2 → same_order (JArr l1) (JArr l2)
| order_obj ps1 ps2 :
    Forall2 (λ p q, p.1 = q.1 ∧ same_order p.2 q.2) ps1 ps2 →
    same_order (JObj ps1) (JObj ps2)
| order_undefined : same_order JUndefined JUndefined
| order_null : same_order JNull JNull
| order_bool b1 b2 : same_order (JBool b1) (JBool b2)
| order_num n1 n2 : same_order (JNum n1) (JNum n2)
| order_str s1 s2 : same_order (JStr s1) (JStr s2).
#[local] Set Elimination Schemes.

End Json.

(** ** The request manager: [src/utils/requestManager.js] *)

Module RequestManager.
Import Json.

Definition DEFAULT_CACHE_TTL : Z := 5 * 60 * 1000.
Definition HEALTH_CHECK_TTL : Z := 5 * 60 * 1000.

(** [s.includes(sub)] and [s.startsWith(sub)]. *)
Fixpoint includes (s sub : string) : bool :=
  String.prefix sub s ||
  match s with
  | EmptyString => false
  | String _ r => includes r sub
  end.

Definition startsWith (s sub : string) : bool := String.prefix sub s.

(** The names that a plain object inherits from [Object.prototype]: read on
    an object that has no such property of its own, each of them gives a
    function or, for [__proto__], the prototype itself. *)
Definition objectPrototypeNames : list string :=
  ["constructor"; "__proto__"; "hasOwnProperty"; "isPrototypeOf";
   "propertyIsEnumerable"; "toLocaleString"; "toString"; "valueOf";
   "__defineGetter__"; "__defineSetter__"; "__lookupGetter__"; "__lookupSetter__"].

Definition inherited (name : string) : bool :=
  bool_decide (name ∈ objectPrototypeNames).

(** The conversion of an integer to a signed 32-bit integer. *)
Definition toInt32 (d : Z) : Z :=
  (d + 2147483648) `mod` 4294967296 - 2147483648.

(** The delay that [setTimeout] of a browser honours. Its parameter is a
    32-bit signed integer ([long timeout]), so the delay is taken modulo
    [2^32], and a negative one counts as zero: a delay from [2^31] to
    [2^32 - 1] makes the timer due at once. *)
Definition setTimeoutDelay (d : Z) : Z := Z.max 0 (toInt32 d).

(** *** Data *)

(** A value of [requestCache]. *)
Record CacheEntry := { data : json; timestamp : Z }.

(** A value of [requestTracker.endpoints]. *)
Record EndpointRecord := {
  count : Z;
  timestamps : list Z;
  isThrottled : bool;
  lastWarning : Z
}.

(** [requestTracker], together with the callbacks that [track] has handed to
    [setTimeout] and that have not run yet: (due time, endpoint).
    [endpoints] holds the own properties of the object of that name; an
    [inherited] name never becomes one of them (see [trackInherited]). *)
Record Tracker := {
  endpoints : gmap string EndpointRecord;
  lastCleanup : Z;
  resetTimers : list (Z * string)
}.

(** The [options] argument of [optimizedRequest] after its defaults have
    been applied. *)
Record Options := {
  method : string;
  body : json;
  params : list (string * json);
  headers : list (string * string);
  cacheTTL : Z;
  bypassCache : bool;
  retryCount : Z;
  retryDelay : Z;
  priority : string
}.

Definition defaultOptions : Options := {|
  method := "GET";
  body := JNull;
  params := [];
  headers := [];
  cacheTTL := DEFAULT_CACHE_TTL;
  bypassCache := false;
  retryCount := 2;
  retryDelay := 1000;
  priority := "normal"
|}.

(** What the transport ([fetch] and the decoding of its response) hands back
    to one attempt: the decoded body of an OK response, or the message of the
    error that the attempt throws (network failure, non-OK status, body that
    does not parse). *)
Inductive Response :=
| ROk (d : json)
| RFail (message : string).

(** How a promise settles; an [Error] is identified by its message. *)
Inductive Settlement :=
| Resolved (v : json)
| Rejected (message : string).

(** Where a run of [makeRequest] is suspended. *)
Inductive Awaiting :=
| AwaitFetch
| AwaitRetry (due : Z).

(** One logical request: the closure of [makeRequest] (endpoint, options and
    cache key of the call that started it), the attempt that is running and
    the point where it waits. The request is named by its promise. *)
Record Task := {
  taskEndpoint : string;
  taskOptions : Options;
  taskKey : string;
  retryAttempt : Z;
  awaiting : Awaiting
}.

(** One invocation of [fetch]. *)
Record FetchCall := {
  fetchRequest : nat;
  fetchAttempt : Z;
  fetchEndpoint : string;
  fetchMethod : string
}.

(** The module state and the part of the JavaScript run time it depends on. *)
Record State := {
  requestCache : gmap string CacheEntry;
  pendingRequests : gmap string nat;
  tracker : Tracker;
  tasks : gmap nat Task;
  settled : gmap nat Settlement;
  nextPromise : nat;
  paused : gmap nat (Z * string * Options);
  nextPaused : nat;
  fetchLog : list FetchCall
}.

(** The state when the module is loaded at time [t0]. *)
Definition initialState (t0 : Z) : State := {|
  requestCache := ∅;
  pendingRequests := ∅;
  tracker := {| endpoints := ∅; lastCleanup := t0; resetTimers := [] |};
  tasks := ∅;
  settled := ∅;
  nextPromise := 0;
  paused := ∅;
  nextPaused := 0;
  fetchLog := []
|}.

(** *** [requestTracker] *)

Module requestTracker.

Definition newRecord : EndpointRecord :=
  {| count := 0; timestamps := []; isThrottled := false; lastWarning := 0 |}.

(** [cleanup()]: keep the timestamps of the last minute. *)
Definition cleanup (now : Z) (tr : Tracker) : Tracker :=
  {| endpoints :=
       (λ r, {| count := count r;
                timestamps := filter (λ time, now - time < 60000) (timestamps r);
                isThrottled := isThrottled r;
                lastWarning := lastWarning r |}) <$> endpoints tr;
     lastCleanup := now;
     resetTimers := resetTimers tr |}.

(** [track(endpoint)] at time [now], for an endpoint that is not an
    [inherited] name: the new tracker and the returned throttle status. *)
Definition track (endpoint : string) (now : Z) (tr : Tracker) : Tracker * bool :=
  let tr1 := if decide (now - lastCleanup tr > 60000) then cleanup now tr else tr in
  let r0 := default newRecord (endpoints tr1 !! endpoint) in
  let r1 := {| count := count r0 + 1;
               timestamps := timestamps r0 ++ [now];
               isThrottled := isThrottled r0;
               lastWarning := lastWarning r0 |} in
  let recentRequests := filter (λ time, now - time < 1000) (timestamps r1) in
  if decide (Z.of_nat (length recentRequests) > 10 ∧ now - lastWarning r1 > 5000) then
    ({| endpoints :=
          <[endpoint := {| count := count r1;
                           timestamps := timestamps r1;
                           isThrottled := true;
                           lastWarning := now |}]> (endpoints tr1);
        lastCleanup := lastCleanup tr1;
        resetTimers := resetTimers tr1 ++ [(now + 10000, endpoint)] |}, true)
  else
    ({| endpoints := <[endpoint := r1]> (endpoints tr1);
        lastCleanup := lastCleanup tr1;
        resetTimers := resetTimers tr1 |}, isThrottled r1).

(** [track(endpoint)] at time [now] for an [inherited] name. The cleanup runs
    when it is due. [this.endpoints[endpoint]] then gives the inherited
    member, which is truthy, so no record is made; the member has no
    [timestamps], and [this.endpoints[endpoint].timestamps.push(now)] throws
    a [TypeError] ([typeErrorOfTrack] below). The tracker is left as the
    cleanup has made it. *)
Definition trackInherited (now : Z) (tr : Tracker) : Tracker :=
  if decide (now - lastCleanup tr > 60000) then cleanup now tr else tr.

(** The callback of [track]'s [setTimeout]. *)
Definition resetThrottle (endpoint : string) (tr : Tracker) : Tracker :=
  {| endpoints :=
       alter (λ r, {| count := count r;
                      timestamps := timestamps r;
                      isThrottled := false;
                      lastWarning := lastWarning r |}) endpoint (endpoints tr);
     lastCleanup := lastCleanup tr;
     resetTimers := resetTimers tr |}.

(** [isThrottled(endpoint)]. *)
Definition isThrottled (endpoint : string) (tr : Tracker) : bool :=
  match endpoints tr !! endpoint with
  | Some r => isThrottled r
  | None => false
  end.

End requestTracker.

(** *** Cache keys *)

(** [generateCacheKey(endpoint, params)]. *)
Definition generateCacheKey (endpoint : string) (params : json) : string :=
  endpoint ++ ":" ++ stringify params.

(** The object [{ method, params, body }] that [optimizedRequest] passes to
    [generateCacheKey]. *)
Definition keyObject (o : Options) : json :=
  JObj [("method", JStr (method o)); ("params", JObj (params o)); ("body", body o)].

Definition cacheKeyOf (endpoint : string) (o : Options) : string :=
  generateCacheKey endpoint (keyObject o).

(** The [effectiveCacheTTL] computed at the head of [optimizedRequest]. *)
Definition effectiveCacheTTL (endpoint : string) (o : Options) : Z :=
  if includes endpoint "/health" then HEALTH_CHECK_TTL
  else if includes endpoint "/resources" then 10 * 60 * 1000
  else if decide (cacheTTL o ≠ 0) then cacheTTL o
  else DEFAULT_CACHE_TTL.

(** *** [optimizedRequest] *)

(** What a call of [optimizedRequest] hands to its caller. The function is
    [async], so the caller always holds a promise; the outcome says how that
    promise settles. *)
Inductive Outcome :=
| Returned (v : json)        (* [return cachedData.data]: resolved with [v] *)
| Threw (message : string)   (* [throw new Error(...)]: rejected *)
| Follows (p : nat)          (* [return promise]: settles as request [p] does *)
| Paused (w : nat).          (* still inside the 2 s pause of a throttled call *)

Definition throttledMessage (endpoint : string) : string :=
  "Request throttled: Too many requests to " ++ endpoint.

Definition set_requestCache (f : gmap string CacheEntry → gmap string CacheEntry)
    (s : State) : State :=
  {| requestCache := f (requestCache s);
     pendingRequests := pendingRequests s;
     tracker := tracker s;
     tasks := tasks s;
     settled := settled s;
     nextPromise := nextPromise s;
     paused := paused s;
     nextPaused := nextPaused s;
     fetchLog := fetchLog s |}.

Definition set_pendingRequests (f : gmap string nat → gmap string nat)
    (s : State) : State :=
  {| requestCache := requestCache s;
     pendingRequests := f (pendingRequests s);
     tracker := tracker s;
     tasks := tasks s;
     settled := settled s;
     nextPromise := nextPromise s;
     paused := paused s;
     nextPaused := nextPaused s;
     fetchLog := fetchLog s |}.

Definition set_tracker (f : Tracker → Tracker) (s : State) : State :=
  {| requestCache := requestCache s;
     pendingRequests := pendingRequests s;
     tracker := f (tracker s);
     tasks := tasks s;
     settled := settled s;
     nextPromise := nextPromise s;
     paused := paused s;
     nextPaused := nextPaused s;
     fetchLog := fetchLog s |}.

Definition set_tasks (f : gmap nat Task → gmap nat Task) (s : State) : State :=
  {| requestCache := requestCache s;
     pendingRequests := pendingRequests s;
     tracker := tracker s;
     tasks := f (tasks s);
     settled := settled s;
     nextPromise := nextPromise s;
     paused := paused s;
     nextPaused := nextPaused s;
     fetchLog := fetchLog s |}.

Definition set_paused (f : gmap nat (Z * string * Options) → gmap nat (Z * string * Options))
    (s : State) : State :=
  {| requestCache := requestCache s;
     pendingRequests := pendingRequests s;
     tracker := tracker s;
     tasks := tasks s;
     settled := settled s;
     nextPromise := nextPromise s;
     paused := f (paused s);
     nextPaused := nextPaused s;
     fetchLog := fetchLog s |}.

(** The promise of request [p] settles. *)
Definition settle (p : nat) (r : Settlement) (s : State) : State :=
  {| requestCache := requestCache s;
     pendingRequests := pendingRequests s;
     tracker := tracker s;
     tasks := delete p (tasks s);
     settled := <[p := r]> (settled s);
     nextPromise := nextPromise s;
     paused := paused s;
     nextPaused := nextPaused s;
     fetchLog := fetchLog s |}.

(** The body of [makeRequest(retryAttempt)] up to [await fetch(url, ...)]:
    the transport is invoked and the attempt is suspended. The URL that is
    built from [endpoint] and [params] is not part of the model. *)
Definition beginAttempt (p : nat) (endpoint : string) (o : Options) (key : string)
    (attempt : Z) (s : State) : State :=
  {| requestCache := requestCache s;
     pendingRequests := pendingRequests s;
     tracker := tracker s;
     tasks := <[p := {| taskEndpoint := endpoint; taskOptions := o; taskKey := key;
                        retryAttempt := attempt; awaiting := AwaitFetch |}]> (tasks s);
     settled := settled s;
     nextPromise := nextPromise s;
     paused := paused s;
     nextPaused := nextPaused s;
     fetchLog := fetchLog s ++ [{| fetchRequest := p; fetchAttempt := attempt;
                                   fetchEndpoint := endpoint; fetchMethod := method o |}] |}.

(** The [finally] block of [makeRequest(retryAttempt)]. *)
Definition finallyBlock (t : Task) (s : State) : State :=
  if decide (retryAttempt t = retryCount (taskOptions t) ∨ retryAttempt t = 0)
  then set_pendingRequests (delete (taskKey t)) s
  else s.

(** The cache lookup of [optimizedRequest]: either the function returns the
    cached value ([inr]) or it goes on ([inl]), an expired entry deleted. *)
Definition checkCache (endpoint : string) (o : Options) (now : Z) (s : State)
    : State + json :=
  let cacheKey := cacheKeyOf endpoint o in
  if negb (bypassCache o) && bool_decide (method o = "GET") then
    match requestCache s !! cacheKey with
    | Some cachedData =>
        if decide (now - timestamp cachedData < effectiveCacheTTL endpoint o)
        then inr (data cachedData)
        else inl (set_requestCache (delete cacheKey) s)
    | None => inl s
    end
  else inl s.

(** [const requestPromise = makeRequest(); pendingRequests.set(cacheKey,
    requestPromise)]: the first attempt runs up to its [fetch], then the
    promise is registered. *)
Definition startRequest (endpoint : string) (o : Options) (s : State) : State * nat :=
  let cacheKey := cacheKeyOf endpoint o in
  let p := nextPromise s in
  let s1 := beginAttempt p endpoint o cacheKey 0 s in
  ({| requestCache := requestCache s1;
      pendingRequests := <[cacheKey := p]> (pendingRequests s1);
      tracker := tracker s1;
      tasks := tasks s1;
      settled := settled s1;
      nextPromise := S p;
      paused := paused s1;
      nextPaused := nextPaused s1;
      fetchLog := fetchLog s1 |}, p).

(** The deduplication check and what follows it. *)
Definition joinOrStart (endpoint : string) (o : Options) (s : State) : State * Outcome :=
  match pendingRequests s !! cacheKeyOf endpoint o with
  | Some p => (s, Follows p)
  | None => let '(s', p) := startRequest endpoint o s in (s', Follows p)
  end.

(** [optimizedRequest] from [requestTracker.track(endpoint)] to its end. *)
Definition proceed (endpoint : string) (o : Options) (now : Z) (s : State)
    : State * Outcome :=
  let s1 := set_tracker (λ tr, (requestTracker.track endpoint now tr).1) s in
  match checkCache endpoint o now s1 with
  | inr v => (s1, Returned v)
  | inl s2 => joinOrStart endpoint o s2
  end.

(** [optimizedRequest(endpoint, options)] called at time [now], up to its
    return or to the 2 s pause of a throttled call of normal priority, for an
    endpoint that is not an [inherited] name. *)
Definition optimizedRequest (endpoint : string) (o : Options) (now : Z) (s : State)
    : State * Outcome :=
  let cacheKey := cacheKeyOf endpoint o in
  if requestTracker.isThrottled endpoint (tracker s)
     && negb (bool_decide (priority o = "high")) then
    match requestCache s !! cacheKey with
    | Some cachedData => (s, Returned (data cachedData))
    | None =>
        if bool_decide (priority o = "low") then (s, Threw (throttledMessage endpoint))
        else
          let w := nextPaused s in
          ({| requestCache := requestCache s;
              pendingRequests := pendingRequests s;
              tracker := tracker s;
              tasks := tasks s;
              settled := settled s;
              nextPromise := nextPromise s;
              paused := <[w := (now + 2000, endpoint, o)]> (paused s);
              nextPaused := S w;
              fetchLog := fetchLog s |}, Paused w)
    end
  else proceed endpoint o now s.

(** The message of the [TypeError] that [track] throws for an [inherited]
    name, as V8 words it. *)
Definition typeErrorOfTrack : string :=
  "Cannot read properties of undefined (reading 'push')".

(** A call [optimizedRequest(endpoint, options)] at time [now] for any
    endpoint. For an [inherited] name, [requestTracker.isThrottled] reads
    [isThrottled] of the inherited member, which is [undefined], so the
    throttle block is skipped whatever the priority; [track] then throws, and
    the promise of the call rejects with that error before the cache and the
    pending requests are looked at. *)
Definition callOptimizedRequest (endpoint : string) (o : Options) (now : Z) (s : State)
    : State * Outcome :=
  if inherited endpoint
  then (set_tracker (requestTracker.trackInherited now) s, Threw typeErrorOfTrack)
  else optimizedRequest endpoint o now s.

(** The 2 s pause of call [w] is over: the call goes on after the throttle
    block. *)
Definition resumeRequest (w : nat) (now : Z) (s : State) : State * option Outcome :=
  match paused s !! w with
  | Some (due, endpoint, o) =>
      if decide (due ≤ now)%Z then
        let '(s', out) := proceed endpoint o now (set_paused (delete w) s) in
        (s', Some out)
      else (s, None)
  | None => (s, None)
  end.

(** *** [makeRequest] after its first suspension *)

(** The transport answers the running attempt of request [p] at time [now].
    On success a GET response is cached, [finally] runs and the promise
    resolves. On failure the attempt either hands its retry delay to
    [setTimeout], which makes the timer due after [setTimeoutDelay] of it,
    or, with no retry left, runs [finally] and rejects. *)
Definition fetchDone (p : nat) (r : Response) (now : Z) (s : State) : State :=
  match tasks s !! p with
  | Some t =>
      match awaiting t, r with
      | AwaitFetch, ROk d =>
          let s1 :=
            if bool_decide (method (taskOptions t) = "GET")
            then set_requestCache
                   (<[taskKey t := {| data := d; timestamp := now |}]>) s
            else s in
          settle p (Resolved d) (finallyBlock t s1)
      | AwaitFetch, RFail message =>
          if decide (retryAttempt t < retryCount (taskOptions t)) then
            set_tasks
              (<[p := {| taskEndpoint := taskEndpoint t;
                         taskOptions := taskOptions t;
                         taskKey := taskKey t;
                         retryAttempt := retryAttempt t;
                         awaiting :=
                           AwaitRetry
                             (now + setTimeoutDelay
                                      (retryDelay (taskOptions t)
                                       * (retryAttempt t + 1))) |}]>) s
          else settle p (Rejected message) (finallyBlock t s)
      | AwaitRetry _, _ => s
      end
  | None => s
  end.

(** The timer of the retry delay of request [p] fires, which it does no
    earlier than it is due: [return makeRequest(retryAttempt + 1)]. The call
    on the right runs up to its [fetch] and returns a promise; the [return]
    is not an [await], so the [finally] block of the attempt that retried
    runs now, while the new attempt is in flight. *)
Definition retryTimer (p : nat) (now : Z) (s : State) : State :=
  match tasks s !! p with
  | Some t =>
      match awaiting t with
      | AwaitRetry due =>
          if decide (due ≤ now)%Z then
            finallyBlock t
              (beginAttempt p (taskEndpoint t) (taskOptions t) (taskKey t)
                 (retryAttempt t + 1) s)
          else s
      | AwaitFetch => s
      end
  | None => s
  end.

(** A callback of [track]'s [setTimeout] runs. *)
Definition unthrottle (endpoint : string) (now : Z) (s : State) : State :=
  match list_find (λ d, (d.1 ≤ now)%Z ∧ d.2 = endpoint) (resetTimers (tracker s)) with
  | Some (i, _) =>
      set_tracker
        (λ tr, requestTracker.resetThrottle endpoint
                 {| endpoints := endpoints tr;
                    lastCleanup := lastCleanup tr;
                    resetTimers := delete i (resetTimers tr) |}) s
  | None => s
  end.

(** The loop of [clearRequestCache]: every key of the cache is visited and
    deleted when it starts with [prefix]. *)
Definition deleteKeysWithPrefix (prefix : string) (cache : gmap string CacheEntry)
    : gmap string CacheEntry :=
  foldl (λ m key, if startsWith key prefix then delete key m else m)
    cache (map_to_list cache).*1.

(** [clearRequestCache(endpoint)]; [None] stands for a call without argument
    or with [null]. An empty string is falsy and clears everything too. *)
Definition clearRequestCache (endpoint : option string) (s : State) : State :=
  match endpoint with
  | Some e =>
      if decide (e = EmptyString) then set_requestCache (λ _, ∅) s
      else set_requestCache (deleteKeysWithPrefix (e ++ ":")) s
  | None => set_requestCache (λ _, ∅) s
  end.

(** *** The event loop *)

Inductive Event :=
| Call (endpoint : string) (o : Options)
| Resume (w : nat)
| FetchDone (p : nat) (r : Response)
| RetryTimer (p : nat)
| Unthrottle (endpoint : string)
| ClearCache (endpoint : option string).

(** One task of the event loop at time [now]; a call (or a resumed call)
    yields its outcome. *)
Definition step (now : Z) (e : Event) (s : State) : State * option Outcome :=
  match e with
  | Call endpoint o =>
      let '(s', out) := callOptimizedRequest endpoint o now s in (s', Some out)
  | Resume w => resumeRequest w now s
  | FetchDone p r => (fetchDone p r now s, None)
  | RetryTimer p => (retryTimer p now s, None)
  | Unthrottle endpoint => (unthrottle endpoint now s, None)
  | ClearCache endpoint => (clearRequestCache endpoint s, None)
  end.

(** A schedule of timed events, run from [s]; the outcomes of its calls in
    order. *)
Fixpoint run (evs : list (Z * Event)) (s : State) : State * list Outcome :=
  match evs with
  | [] => (s, [])
  | (now, e) :: rest =>
      let '(s1, out) := step now e s in
      let '(s2, outs) := run rest s1 in
      (s2, match out with Some o => o :: outs | None => outs end)
  end.

(** How the promise held by a caller has settled, if it has. *)
Definition settlement (out : Outcome) (s : State) : option Settlement :=
  match out with
  | Returned v => Some (Resolved v)
  | Threw message => Some (Rejected message)
  | Follows p => settled s !! p
  | Paused _ => None
  end.

End RequestManager.

(** ** [checkConnectionStatus] of [src/utils/requestManager.js] and the local-mode flag *)

Module HealthCheck.
Import Json.

(** The response to the health request, as far as the function reads it;
    [jsonBody] is [None] when [response.json()] throws. *)
Record HealthResponse := {
  responseOk : bool;
  responseStatus : Z;
  contentType : option string;
  jsonBody : option json
}.

Inductive FetchOutcome :=
| FetchRejected
| FetchResponded (r : HealthResponse).

(** Truthiness of a value. *)
Definition truthy (j : json) : bool :=
  match j with
  | JUndefined | JNull => false
  | JBool b => b
  | JNum n => negb (n =? 0)%Z
  | JStr s => negb (bool_decide (s = EmptyString))
  | JArr _ | JObj _ => true
  end.

(** [j.status === 'ok']; only an object has a [status], and of two
    properties with one key the later one counts. *)
Definition statusIsOk (j : json) : bool :=
  match j with
  | JObj props =>
      match list_find (λ kv, kv.1 = "status") (reverse props) with
      | Some (_, (_, JStr s)) => bool_decide (s = "ok")
      | _ => false
      end
  | _ => false
  end.

(** What [checkConnectionStatus] has done when it returns: the value it
    returns, the local storage, and the URL it has fetched, if any. *)
Record HealthRun := {
  returned : json;
  storage : gmap string string;
  fetched : option string
}.

(** [checkConnectionStatus()] with [VITE_SUPABASE_URL] being [supabaseUrl]
    ([None] when unset), the network answering with [net]. *)
Definition checkConnectionStatus (supabaseUrl : option string) (net : FetchOutcome)
    (localStorage : gmap string string) : HealthRun :=
  match supabaseUrl with
  | None => {| returned := JBool false; storage := localStorage; fetched := None |}
  | Some url =>
      if decide (url = EmptyString)
      then {| returned := JBool false; storage := localStorage; fetched := None |}
      else
        let healthCheckUrl := url ++ "/auth/v1/health" in
        match net with
        | FetchRejected =>
            {| returned := JBool false; storage := localStorage;
               fetched := Some healthCheckUrl |}
        | FetchResponded r =>
            if negb (responseOk r) then
              {| returned := JBool false;
                 storage :=
                   if decide (responseStatus r = 401)
                   then <["forceSupabaseConnection" := "false"]> localStorage
                   else localStorage;
                 fetched := Some healthCheckUrl |}
            else
              match contentType r with
              | Some ct =>
                  if RequestManager.includes ct "application/json" then
                    match jsonBody r with
                    | Some result =>
                        {| returned :=
                             if truthy result then JBool (statusIsOk result) else result;
                           storage := localStorage;
                           fetched := Some healthCheckUrl |}
                    | None =>
                        {| returned := JBool false; storage := localStorage;
                           fetched := Some healthCheckUrl |}
                    end
                  else
                    {| returned := JBool false; storage := localStorage;
                       fetched := Some healthCheckUrl |}
              | None =>
                  {| returned := JBool false; storage := localStorage;
                     fetched := Some healthCheckUrl |}
              end
        end
  end.

(** [checkLocalMode()] of [src/utils/resourceUtils.js]. *)
Definition checkLocalMode (localStorage : gmap string string) : bool :=
  bool_decide (localStorage !! "forceSupabaseConnection" = Some "false").

End HealthCheck.

(** ** The health branch of the client's [fetch] in [src/utils/supabase.js] *)

Module ClientHealth.
Import Json HealthCheck.

(** [connectionStatus] as the client's [fetch] uses it: [isConnected] holds
    whatever [checkConnectionStatus] has returned, [null] at first. *)
Record Status := {
  lastChecked : Z;
  isConnected : json;
  checkInProgress : bool
}.

(** The mock [Response]: its status and its body. *)
Record MockResponse := {
  mockStatus : Z;
  mockBody : string
}.

(** [new Response(JSON.stringify({ status: v ? 'ok' : 'error' }),
    { status: v ? 200 : 503, ... })]. *)
Definition mockResponse (v : json) : MockResponse :=
  {| mockStatus := if truthy v then 200 else 503;
     mockBody := stringify (JObj [("status", JStr (if truthy v then "ok" else "error"))]) |}.

(** [v !== null]. *)
Definition notNull (v : json) : bool :=
  match v with
  | JNull => false
  | _ => true
  end.

(** How a health request goes on: it is answered from [connectionStatus], it
    waits 100 ms for the check in progress, or it runs
    [checkConnectionStatus]. *)
Inductive HealthPath :=
| Answered (r : MockResponse)
| Waiting
| Checking.

(** The health branch at time [now], up to its return or its first [await]. *)
Definition healthRequest (now : Z) (st : Status) : Status * HealthPath :=
  if bool_decide (now - lastChecked st < 5 * 60 * 1000) && notNull (isConnected st)
  then (st, Answered (mockResponse (isConnected st)))
  else if checkInProgress st then (st, Waiting)
  else ({| lastChecked := lastChecked st; isConnected := isConnected st;
           checkInProgress := true |}, Checking).

(** The 100 ms of a waiting request are over. *)
Definition afterWait (st : Status) : MockResponse :=
  mockResponse (isConnected st).

(** [checkConnectionStatus()] has returned [verdict] at time [now]: the
    status is recorded, the response is built, and the [finally] block
    clears [checkInProgress]. *)
Definition afterCheck (verdict : json) (now : Z) (st : Status) : Status * MockResponse :=
  ({| lastChecked := now; isConnected := verdict; checkInProgress := false |},
   mockResponse verdict).

End ClientHealth.

(** ** The connection prober: [checkSupabaseConnection] in [src/utils/supabase.js] *)

Module Supabase.
Import Json HealthCheck.
Export ClientHealth.

(** The module variable [connectionStatus], which [checkSupabaseConnection]
    shares with the health branch of the client's [fetch]; [isConnected]
    starts as [null]. *)
Definition ConnectionStatus : Type := Status.

(** The [error] object of a backend answer, as far as the probe reads it. *)
Record BackendError := {
  code : option string;
  status : option Z;
  message : string
}.

(** What awaiting a query gives: an exception, or an answer [{ data, error }]
    whose [error] is [null] on success. *)
Inductive QueryResult :=
| QueryThrew
| QueryReturned (error : option BackendError).

(** The requests the probe sends to the backend. *)
Inductive Request :=
| SelectResources    (* [from('resources').select('count').limit(1).single()] *)
| SelectDummy        (* [from('_dummy_query_for_connection_test_')...] *)
| GetSession.        (* [supabase.auth.getSession()] *)

#[global] Instance Request_eq_dec : EqDecision Request.
Proof. solve_decision. Defined.

(** Where a call of [checkSupabaseConnection] is suspended. A probing call
    keeps the [now] it read before the probe. *)
Inductive Phase :=
| Polling
| AwaitResources (now : Z)
| AwaitDummy (now : Z)
| AwaitAuth (now : Z).

(** The calls of [checkSupabaseConnection] that are suspended, what the
    calls that have returned have returned, the requests sent to the backend,
    and whether the health branch of the client's [fetch] is awaiting
    [checkConnectionStatus()]. *)
Record State := {
  connectionStatus : ConnectionStatus;
  callers : gmap nat Phase;
  nextCaller : nat;
  results : gmap nat json;
  requestLog : list (nat * Request);
  healthCheck : bool
}.

Definition initialState : State := {|
  connectionStatus := {| lastChecked := 0; isConnected := JNull; checkInProgress := false |};
  callers := ∅;
  nextCaller := 0;
  results := ∅;
  requestLog := [];
  healthCheck := false
|}.

Definition isRelationMissing (e : BackendError) : bool :=
  bool_decide (code e = Some "42P01").

Definition isNotFound (e : BackendError) : bool :=
  bool_decide (status e = Some 404) || bool_decide (code e = Some "404").

(** Call [c] returns [v]. *)
Definition resolve (c : nat) (v : json) (s : State) : State :=
  {| connectionStatus := connectionStatus s;
     callers := delete c (callers s);
     nextCaller := nextCaller s;
     results := <[c := v]> (results s);
     requestLog := requestLog s;
     healthCheck := healthCheck s |}.

(** Call [c] is suspended in phase [ph], having sent the requests [sent]. *)
Definition suspend (c : nat) (ph : Phase) (sent : list Request) (s : State) : State :=
  {| connectionStatus := connectionStatus s;
     callers := <[c := ph]> (callers s);
     nextCaller := nextCaller s;
     results := results s;
     requestLog := requestLog s ++ ((λ r, (c, r)) <$> sent);
     healthCheck := healthCheck s |}.

(** A terminal branch of the probe of call [c]: [isConnected] and
    [lastChecked] are recorded, the function returns [b], and the [finally]
    block clears [checkInProgress]. *)
Definition conclude (c : nat) (now : Z) (b : bool) (s : State) : State :=
  resolve c (JBool b)
    {| connectionStatus :=
         {| lastChecked := now; isConnected := JBool b; checkInProgress := false |};
       callers := callers s;
       nextCaller := nextCaller s;
       results := results s;
       requestLog := requestLog s;
       healthCheck := healthCheck s |}.

(** [checkSupabaseConnection(forceCheck)] called at time [now], up to its
    first suspension or its return. The new call is numbered [nextCaller]. *)
Definition checkSupabaseConnection (isBrowser forceCheck : bool) (now : Z) (s : State)
    : State :=
  let c := nextCaller s in
  let s0 := {| connectionStatus := connectionStatus s;
               callers := callers s;
               nextCaller := S c;
               results := results s;
               requestLog := requestLog s;
               healthCheck := healthCheck s |} in
  let st := connectionStatus s in
  if negb isBrowser then resolve c (JBool false) s0
  else if checkInProgress st then suspend c Polling [] s0
  else if negb forceCheck
          && bool_decide (now - lastChecked st < 5 * 60 * 1000)
          && notNull (isConnected st)
  then resolve c (isConnected st) s0
  else
    suspend c (AwaitResources now) [SelectResources]
      {| connectionStatus :=
           {| lastChecked := lastChecked st;
              isConnected := isConnected st;
              checkInProgress := true |};
         callers := callers s0;
         nextCaller := nextCaller s0;
         results := results s0;
         requestLog := requestLog s0;
         healthCheck := healthCheck s0 |}.

(** The interval callback of the waiting call [c] runs: once no check is in
    progress the wait ends and the call returns [connectionStatus.isConnected]. *)
Definition tick (c : nat) (s : State) : State :=
  match callers s !! c with
  | Some Polling =>
      if checkInProgress (connectionStatus s) then s
      else resolve c (isConnected (connectionStatus s)) s
  | _ => s
  end.

(** The query on [resources] of call [c] comes back. *)
Definition resourcesResult (c : nat) (r : QueryResult) (s : State) : State :=
  match callers s !! c with
  | Some (AwaitResources now) =>
      match r with
      | QueryReturned (Some e) =>
          if isRelationMissing e then conclude c now true s
          else suspend c (AwaitDummy now) [SelectDummy] s
      | QueryReturned None => conclude c now true s
      | QueryThrew => suspend c (AwaitDummy now) [SelectDummy] s
      end
  | _ => s
  end.

(** The fallback query of call [c] comes back. *)
Definition dummyResult (c : nat) (r : QueryResult) (s : State) : State :=
  match callers s !! c with
  | Some (AwaitDummy now) =>
      match r with
      | QueryThrew => conclude c now false s
      | QueryReturned (Some e) =>
          if isRelationMissing e then conclude c now true s
          else if isNotFound e then suspend c (AwaitAuth now) [GetSession] s
          else conclude c now false s
      | QueryReturned None => conclude c now true s
      end
  | _ => s
  end.

(** [supabase.auth.getSession()] of call [c] comes back ([ok]) or throws. In
    the second case the inner [catch] logs, and the test [if (error)] on the
    404 error that led here makes the probe fail. *)
Definition authResult (c : nat) (ok : bool) (s : State) : State :=
  match callers s !! c with
  | Some (AwaitAuth now) => conclude c now ok s
  | _ => s
  end.

(** A health request reaches the client's [fetch] at time [now]: the health
    branch runs up to its return or its first [await]. Only a request that
    goes on to [checkConnectionStatus()] writes [connectionStatus]. *)
Definition healthRequestArrives (now : Z) (s : State) : State :=
  let '(st, path) := healthRequest now (connectionStatus s) in
  {| connectionStatus := st;
     callers := callers s;
     nextCaller := nextCaller s;
     results := results s;
     requestLog := requestLog s;
     healthCheck := match path with Checking => true | _ => healthCheck s end |}.

(** [checkConnectionStatus()] of the running health check returns at time
    [now], the environment variable being [supabaseUrl] and the network
    having answered with [net]: what it returns is stored in
    [connectionStatus.isConnected], and the [finally] block clears
    [checkInProgress]. *)
Definition healthCheckReturns (supabaseUrl : option string) (net : FetchOutcome)
    (now : Z) (s : State) : State :=
  if healthCheck s then
    {| connectionStatus :=
         (afterCheck (returned (checkConnectionStatus supabaseUrl net ∅)) now
            (connectionStatus s)).1;
       callers := callers s;
       nextCaller := nextCaller s;
       results := results s;
       requestLog := requestLog s;
       healthCheck := false |}
  else s.

Inductive Event :=
| CallCheck (isBrowser forceCheck : bool) (now : Z)
| Tick (c : nat)
| ResourcesResult (c : nat) (r : QueryResult)
| DummyResult (c : nat) (r : QueryResult)
| AuthResult (c : nat) (ok : bool)
| HealthRequest (now : Z)
| HealthChecked (supabaseUrl : option string) (net : FetchOutcome) (now : Z).

Definition step (e : Event) (s : State) : State :=
  match e with
  | CallCheck isBrowser forceCheck now => checkSupabaseConnection isBrowser forceCheck now s
  | Tick c => tick c s
  | ResourcesResult c r => resourcesResult c r s
  | DummyResult c r => dummyResult c r s
  | AuthResult c ok => authResult c ok s
  | HealthRequest now => healthRequestArrives now s
  | HealthChecked supabaseUrl net now => healthCheckReturns supabaseUrl net now s
  end.

Definition run (evs : list Event) (s : State) : State := foldl (flip step) s evs.

(** The states the module can be in: calls of [checkSupabaseConnection], the
    answers of the backend, and health requests through the client. *)
Inductive reachable : State → Prop :=
| reachable_initial : reachable initialState
| reachable_step e s : reachable s → reachable (step e s).

Definition isCall (e : Event) : bool :=
  match e with CallCheck _ _ _ => true | _ => false end.


End Supabase.

(** ** Notions used to state the properties of the request manager *)

Module RequestNotions.
Import Json RequestManager.

(** The options [o] with other [params]. *)
Definition withParams (ps : list (string * json)) (o : Options) : Options :=
  {| method := method o; body := body o; params := ps; headers := headers o;
     cacheTTL := cacheTTL o; bypassCache := bypassCache o;
     retryCount := retryCount o; retryDelay := retryDelay o;
     priority := priority o |}.

(** The traffic record of an endpoint, the fresh one if it has none yet. *)
Definition recordOf (endpoint : string) (tr : Tracker) : EndpointRecord :=
  default requestTracker.newRecord (endpoints tr !! endpoint).

(** The number of tracked requests of a record at or after [t0]. *)
Definition since (t0 : Z) (r : EndpointRecord) : nat :=
  length (filter (λ t, t0 ≤ t)%Z (timestamps r)).

(** A burst: calls to one endpoint, each with its time and options. *)
Definition burst (endpoint : string) (calls : list (Z * Options)) : list (Z * Event) :=
  (λ c, (c.1, Call endpoint c.2)) <$> calls.

(** The event is a call of [optimizedRequest] for [endpoint]. *)
Definition isCallTo (endpoint : string) (e : Event) : bool :=
  match e with
  | Call endpoint' _ => bool_decide (endpoint' = endpoint)
  | _ => false
  end.

(** The calls for [endpoint] in a schedule. *)
Definition callsTo (endpoint : string) (evs : list (Z * Event)) : nat :=
  length (filter (λ te, isCallTo endpoint te.2 = true) evs).

(** The event is the un-throttle callback of [endpoint]. *)
Definition isResetOf (endpoint : string) (e : Event) : bool :=
  match e with
  | Unthrottle endpoint' => bool_decide (endpoint' = endpoint)
  | _ => false
  end.

(** During a burst that began at [t0]: the endpoint is throttled, or its last
    warning is more than 5 s older than the burst and the record has counted
    at least [k] requests of the burst, at most ten if [k] is positive. *)
Definition burstInv (endpoint : string) (t0 : Z) (k : nat) (tr : Tracker) : Prop :=
  requestTracker.isThrottled endpoint tr = true ∨
  (lastWarning (recordOf endpoint tr) + 5000 < t0 ∧
   (k ≤ since t0 (recordOf endpoint tr))%nat ∧
   (k = 0%nat ∨ (since t0 (recordOf endpoint tr) ≤ 10)%nat)).

(** The options [o] with another [priority]. *)
Definition withPriority (p : string) (o : Options) : Options :=
  {| method := method o; body := body o; params := params o; headers := headers o;
     cacheTTL := cacheTTL o; bypassCache := bypassCache o;
     retryCount := retryCount o; retryDelay := retryDelay o;
     priority := p |}.

(** Ten more calls, one millisecond apart, after a first one at [t0]. *)
Definition tenMore (t0 : Z) (o : Options) : list (Z * Options) :=
  (λ i, (t0 + Z.of_nat i, o)) <$> seq 1 10.

(** No record is kept and no call is paused for an [inherited] name. *)
Definition ownRecords (s : State) : Prop :=
  (∀ endpoint, inherited endpoint = true → endpoints (tracker s) !! endpoint = None) ∧
  (∀ w due endpoint o, paused s !! w = Some (due, endpoint, o) →
                       inherited endpoint = false).

(** The cache lookup lets the call go on: the lookup is bypassed, the method
    is not GET, there is no entry, or the entry has expired. *)
Definition noFreshEntry (endpoint : string) (o : Options) (now : Z) (s : State) : Prop :=
  ∀ entry,
    bypassCache o = false → method o = "GET" →
    requestCache s !! cacheKeyOf endpoint o = Some entry →
    (effectiveCacheTTL endpoint o ≤ now - timestamp entry)%Z.

End RequestNotions.

(** ** Concrete requests and states *)

Module RequestScenarios.
Import Json RequestManager RequestNotions.

(** The objects [{a: 1, b: 2}] and [{b: 2, a: 1}]. *)
Definition paramsAB : list (string * json) := [("a", JNum 1); ("b", JNum 2)].

Definition paramsBA : list (string * json) := [("b", JNum 2); ("a", JNum 1)].

(** An answer for [/resources/1] cached at 1040. *)
Definition cachedDetail : State :=
  (run [(1000, Call "/resources/1" defaultOptions);
        (1040, FetchDone 0 (ROk (JStr "detail")))] (initialState 0)).1.

(** The state after eleven calls for [/items] between 10000 and 10010: the
    first call has started a request that is still in flight, the others
    have joined it. *)
Definition afterBurst : State :=
  (run (burst "/items" ((10000, defaultOptions) :: tenMore 10000 defaultOptions))
     (initialState 9000)).1.

(** A first call for [/items] at 10000 whose request is in flight. *)
Definition oneInFlight : State :=
  (optimizedRequest "/items" defaultOptions 10000 (initialState 9000)).1.

(** A POST with a body and otherwise default options. *)
Definition postOptions : Options :=
  {| method := "POST"; body := JObj [("title", JStr "note")]; params := [];
     headers := []; cacheTTL := DEFAULT_CACHE_TTL; bypassCache := false;
     retryCount := 2; retryDelay := 1000; priority := "normal" |}.

(** A first POST to [/notes] at 10000 whose request is in flight. *)
Definition postInFlight : State :=
  (optimizedRequest "/notes" postOptions 10000 (initialState 9000)).1.

(** The state after eleven POST calls with one key between 10000 and 10010. *)
Definition afterPostBurst : State :=
  (run (burst "/notes" ((10000, postOptions) :: tenMore 10000 postOptions))
     (initialState 9000)).1.

(** The cache key of a default GET of [/items]. *)
Definition itemsKey : string := cacheKeyOf "/items" defaultOptions.

(** A request for [/items] with the default options (two retries) whose
    first attempt has failed and whose retry delay has just ended. *)
Definition afterFirstRetry : State :=
  (run [(10000, Call "/items" defaultOptions);
        (10050, FetchDone 0 (RFail "Failed to fetch"));
        (11050, RetryTimer 0)] (initialState 9000)).1.

(** A GET with a TTL of one second. *)
Definition shortLived : Options :=
  {| method := "GET"; body := JNull; params := []; headers := [];
     cacheTTL := 1000; bypassCache := false; retryCount := 2; retryDelay := 1000;
     priority := "normal" |}.

(** The same request, told to bypass the cache. *)
Definition bypassing : Options :=
  {| method := "GET"; body := JNull; params := []; headers := [];
     cacheTTL := 1000; bypassCache := true; retryCount := 2; retryDelay := 1000;
     priority := "normal" |}.

Definition shortKey : string := cacheKeyOf "/items" shortLived.

(** An answer for [/items] cached at 10001 with a TTL of one second. *)
Definition cachedItems : State :=
  (run [(10000, Call "/items" shortLived);
        (10001, FetchDone 0 (ROk (JStr "v1")))] (initialState 9000)).1.

(** The cached answer of [cachedItems], then eleven calls between 10500 and
    10510 that are served from the cache and throttle the endpoint. *)
Definition cachedAndThrottled : State :=
  (run (burst "/items" ((10500, shortLived) :: tenMore 10500 shortLived)) cachedItems).1.




End RequestScenarios.

(** ** Notions used to state the properties of the prober *)

Module ProbeNotions.
Import Json HealthCheck Supabase.

(** The call runs a probe (it does not wait for another call's probe). *)
Definition probing (ph : Phase) : Prop := ph ≠ Polling.

(** The value is [true] or falsy, as everything is that
    [checkConnectionStatus] returns. *)
Definition trueOrFalsy (v : json) : Prop := v = JBool true ∨ truthy v = false.

(** What holds in every state that calls of [checkSupabaseConnection], the
    backend and health requests through the client can lead to. *)
Record wellFormed (s : State) : Prop := {
  wf_callers : ∀ c ph, callers s !! c = Some ph → (c < nextCaller s)%nat;
  wf_results : ∀ c v, results s !! c = Some v → (c < nextCaller s)%nat;
  wf_log : ∀ c r, (c, r) ∈ requestLog s → (c < nextCaller s)%nat;
  wf_flag : ∀ c ph, callers s !! c = Some ph → probing ph →
            checkInProgress (connectionStatus s) = true;
  wf_single : ∀ c c' ph ph', callers s !! c = Some ph → probing ph →
              callers s !! c' = Some ph' → probing ph' → c = c';
  wf_health : healthCheck s = true →
              checkInProgress (connectionStatus s) = true ∧
              ∀ c ph, callers s !! c = Some ph → ph = Polling;
  wf_status : trueOrFalsy (isConnected (connectionStatus s));
  wf_value : ∀ c v, results s !! c = Some v → trueOrFalsy v
}.

(** The event is a health request through the client. *)
Definition isHealthRequest (e : Event) : bool :=
  match e with HealthRequest _ => true | _ => false end.

(** What holds in addition as long as no health request has gone through the
    client: only probes have written [connectionStatus]. *)
Record proberOnly (s : State) : Prop := {
  po_health : healthCheck s = false;
  po_status : isConnected (connectionStatus s) = JNull ∨
              ∃ b : bool, isConnected (connectionStatus s) = JBool b;
  po_results : ∀ c v, results s !! c = Some v → ∃ b : bool, v = JBool b;
  po_waiting : ∀ c, callers s !! c = Some Polling →
               checkInProgress (connectionStatus s) = true ∨
               isConnected (connectionStatus s) ≠ JNull
}.

(** The answer to a query shows that the backend was reached: the query
    succeeded, or it failed with the code of a missing relation. *)
Definition connects (r : QueryResult) : bool :=
  match r with
  | QueryReturned None => true
  | QueryReturned (Some e) => isRelationMissing e
  | QueryThrew => false
  end.

Definition notFound (r : QueryResult) : bool :=
  match r with
  | QueryReturned (Some e) => isNotFound e
  | _ => false
  end.

(** What a probe concludes from the answers to the query on [resources]
    ([r1]), to the fallback query ([r2]) and to the session request
    ([auth]). *)
Definition verdict (r1 r2 : QueryResult) (auth : bool) : bool :=
  connects r1 || connects r2 || (notFound r2 && auth).









End ProbeNotions.

(** ** Concrete backend errors and health answers *)

Module ProbeScenarios.
Import Json HealthCheck Supabase.

Definition permissionDenied : BackendError :=
  {| code := Some "42501"; status := Some 403;
     message := "permission denied for table resources" |}.

Definition missingRoute : BackendError :=
  {| code := Some "PGRST125"; status := Some 404; message := "Not Found" |}.

Definition relationMissing : BackendError :=
  {| code := Some "42P01"; status := Some 404;
     message := "relation does not exist" |}.

(** An ok answer to the health request whose JSON body is [null]. *)
Definition answersNull : HealthResponse :=
  {| responseOk := true; responseStatus := 200;
     contentType := Some "application/json"; jsonBody := Some JNull |}.

End ProbeScenarios.

(** ** More of the request manager: reachable states, retry schedules, batches *)

Module RequestMore.
Import Json RequestManager RequestNotions.

(** The states the request manager can be in: the module is loaded at some
    time and then the event loop runs tasks. *)
Inductive reachable : State → Prop :=
| reachable_loaded t0 : reachable (initialState t0)
| reachable_task now e s : reachable s → reachable (step now e s).1.

(** Request [p] fails at its running attempt [attempt] and at each of the
    following ones, with the messages and at the times of [fails]; every
    retry delay ends exactly when it is due. *)
Fixpoint retrySchedule (p : nat) (delay attempt : Z) (fails : list (string * Z))
    : list (Z * Event) :=
  match fails with
  | [] => []
  | (message, t) :: rest =>
      (t, FetchDone p (RFail message))
        :: (t + setTimeoutDelay (delay * (attempt + 1)), RetryTimer p)
        :: retrySchedule p delay (attempt + 1) rest
  end.

(** The invocations of [fetch] that the attempts [attempt + 1], ...,
    [attempt + n] of request [p] make. *)
Fixpoint retryFetches (p : nat) (endpoint : string) (o : Options) (attempt : Z) (n : nat)
    : list FetchCall :=
  match n with
  | O => []
  | S n' =>
      {| fetchRequest := p; fetchAttempt := attempt + 1;
         fetchEndpoint := endpoint; fetchMethod := method o |}
        :: retryFetches p endpoint o (attempt + 1) n'
  end.

(** [batchRequests(requests)] at time [now]: [requests.map] calls
    [optimizedRequest] for each request in turn, each call running up to its
    first suspension; the outcomes are the promises handed to
    [Promise.all], in the order of the requests. *)
Definition batchRequests (requests : list (string * Options)) (now : Z) (s : State)
    : State * list Outcome :=
  run ((λ req, (now, Call req.1 req.2)) <$> requests) s.

(** The outcome is a promise of a request on the network (started or
    joined). *)
Definition onNetwork (out : Outcome) : bool :=
  match out with
  | Follows _ => true
  | _ => false
  end.

(** Every character, for checks that run over all of them. *)
Definition allAscii : list ascii := Ascii.ascii_of_nat <$> seq 0 256.

(** One string is a prefix of the other. *)
Definition comparable (s1 s2 : string) : bool :=
  String.prefix s1 s2 || String.prefix s2 s1.

(** The escapes of two different characters are never comparable, and every
    escape begins with a character other than the double quote: checked over
    all pairs. *)
Definition escapesArePrefixFree : bool :=
  forallb (λ c1,
    match escapeChar c1 with
    | String x _ => negb (Ascii.eqb x dquote)
    | EmptyString => false
    end &&
    forallb (λ c2, implb (comparable (escapeChar c1) (escapeChar c2))
                         (Ascii.eqb c1 c2)) allAscii) allAscii.

End RequestMore.

(** ** Helpers of [src/utils/supabase.js]: [executeWithRetry], [handleSupabaseError] *)

Module SupabaseHelpers.
Import RequestManager.

(** An error thrown by a query, as far as the helpers read it; a field is
    [None] when the property is [undefined]. *)
Record QueryError := {
  errorCode : option string;
  errorMessage : option string;
  errorDetails : option string
}.

(** What one invocation of [queryFn] does. *)
Inductive Attempt (A : Type) :=
| Returns (v : A)
| Throws (e : QueryError).
Arguments Returns {A} v.
Arguments Throws {A} e.

(** The test [shouldRetry] of [executeWithRetry]. *)
Definition shouldRetry (e : QueryError) : bool :=
  bool_decide (errorMessage e = Some "Failed to fetch")
  || bool_decide (errorCode e = Some "NETWORK_ERROR")
  || bool_decide (errorCode e = Some "42P01")
  || bool_decide (errorCode e = Some "PGRST116")
  || match errorMessage e with Some m => includes m "connection" | None => false end
  || match errorMessage e with Some m => includes m "timeout" | None => false end.

(** How [executeWithRetry] ends: with the value of a query or with a thrown
    value ([None] is [null], the initial [lastError]); how often it has
    invoked [queryFn]; and the delays it has waited, in order. *)
Record RetryRun (A : Type) := {
  ended : A + option QueryError;
  invocations : nat;
  waited : list Z
}.
Arguments ended {A} _.
Arguments invocations {A} _.
Arguments waited {A} _.

(** The [for] loop of [executeWithRetry] with [fuel] iterations left, at
    iteration [attempt]; [queryFn i] is what the invocation number [i] of the
    query does. *)
Fixpoint retryLoop {A} (queryFn : nat → Attempt A) (delay : Z) (fuel attempt : nat)
    (lastError : option QueryError) (waits : list Z) : RetryRun A :=
  match fuel with
  | O => {| ended := inr lastError; invocations := attempt; waited := waits |}
  | S fuel' =>
      match queryFn attempt with
      | Returns v => {| ended := inl v; invocations := S attempt; waited := waits |}
      | Throws e =>
          if shouldRetry e then
            retryLoop queryFn delay fuel' (S attempt) (Some e)
              (waits ++ [delay * (Z.of_nat attempt + 1)])
          else {| ended := inr (Some e); invocations := S attempt; waited := waits |}
      end
  end.

(** [executeWithRetry(queryFn, maxRetries, delay)]. *)
Definition executeWithRetry {A} (queryFn : nat → Attempt A) (maxRetries delay : Z)
    : RetryRun A :=
  retryLoop queryFn delay (Z.to_nat maxRetries) 0 None [].

(** [x || d] for an optional string [x]: the empty string is falsy. *)
Definition orDefault (x : option string) (d : string) : string :=
  match x with
  | Some s => if decide (s = EmptyString) then d else s
  | None => d
  end.

(** The object [handleSupabaseError] returns; [infoTimestamp] stands for the
    ISO string of the clock. *)
Record ErrorInfo := {
  infoCode : string;
  infoMessage : string;
  infoDetails : option string;
  infoContext : string;
  infoTimestamp : Z
}.

Definition isNetworkError (e : QueryError) : bool :=
  bool_decide (errorMessage e = Some "Failed to fetch")
  || bool_decide (errorCode e = Some "NETWORK_ERROR").

(** [handleSupabaseError(error, context)] at time [now]. *)
Definition handleSupabaseError (e : QueryError) (context : string) (now : Z) : ErrorInfo :=
  {| infoCode := orDefault (errorCode e) "UNKNOWN_ERROR";
     infoMessage :=
       if isNetworkError e
       then "Network connection error. Please check your internet connection."
       else orDefault (errorMessage e) "An unknown error occurred";
     infoDetails :=
       match errorDetails e with
       | Some d => if decide (d = EmptyString) then None else Some d
       | None => None
       end;
     infoContext := context;
     infoTimestamp := now |}.

End SupabaseHelpers.

(** ** [resourceCache] and [invalidateResourceCache] of [src/utils/resourceUtils.js] *)

Module ResourceCache.
Import Json HealthCheck.

(** The object [resourceCache]. Resource ids are taken not to be names of
    properties of [Object.prototype]. *)
Record Cache := {
  cacheData : gmap string json;
  cacheTimestamp : gmap string Z;
  cacheTtl : Z
}.

Definition emptyCache : Cache :=
  {| cacheData := ∅; cacheTimestamp := ∅; cacheTtl := 5 * 60 * 1000 |}.

(** [get(resourceId)] at time [now]; a miss is [null]. *)
Definition get (resourceId : string) (now : Z) (c : Cache) : json :=
  match cacheData c !! resourceId with
  | Some resource =>
      if truthy resource then
        match cacheTimestamp c !! resourceId with
        | Some t => if decide (now - t < cacheTtl c) then resource else JNull
        | None => JNull
        end
      else JNull
  | None => JNull
  end.

(** [set(resourceId, resource)] at time [now]. *)
Definition set (resourceId : string) (resource : json) (now : Z) (c : Cache) : Cache :=
  {| cacheData := <[resourceId := resource]> (cacheData c);
     cacheTimestamp := <[resourceId := now]> (cacheTimestamp c);
     cacheTtl := cacheTtl c |}.

(** [clear(resourceId)]. *)
Definition clear (resourceId : string) (c : Cache) : Cache :=
  {| cacheData := delete resourceId (cacheData c);
     cacheTimestamp := delete resourceId (cacheTimestamp c);
     cacheTtl := cacheTtl c |}.

(** [clearAll()]. *)
Definition clearAll (c : Cache) : Cache :=
  {| cacheData := ∅; cacheTimestamp := ∅; cacheTtl := cacheTtl c |}.

(** [invalidateResourceCache(resourceId)] on [resourceCache] and
    [resourceListCache]; [None] is a call without argument or with [null],
    and the empty string is falsy as well. *)
Definition invalidateResourceCache (resourceId : option string)
    (caches : Cache * gmap string json) : Cache * gmap string json :=
  match resourceId with
  | Some id =>
      if decide (id = EmptyString) then (clearAll caches.1, ∅)
      else (clear id caches.1, caches.2)
  | None => (clearAll caches.1, ∅)
  end.

End ResourceCache.

(** ** Notions for the further properties of the request manager *)

Module RequestMoreNotions.
Import Json RequestManager RequestNotions RequestMore.

(** The task [t] at attempt [attempt], waiting for its [fetch]. *)
Definition atAttempt (t : Task) (attempt : Z) : Task :=
  {| taskEndpoint := taskEndpoint t;
     taskOptions := taskOptions t;
     taskKey := taskKey t;
     retryAttempt := attempt;
     awaiting := AwaitFetch |}.

(** The requests of the last second, as [track] counts them at [now]. *)
Definition recent (now : Z) (r : EndpointRecord) : nat :=
  length (filter (λ time, now - time < 1000) (timestamps r)).


(** Every throttled endpoint has its un-throttle callback pending, due 10 s
    after the endpoint's last warning. *)
Definition resetPending (tr : Tracker) : Prop :=
  ∀ endpoint r,
    endpoints tr !! endpoint = Some r → isThrottled r = true →
    (lastWarning r + 10000, endpoint) ∈ resetTimers tr.

(** The cache lookup of the call is a miss that leaves the state alone. *)
Definition missesCache (endpoint : string) (o : Options) (s : State) : Prop :=
  bypassCache o = true ∨ method o ≠ "GET" ∨
  requestCache s !! cacheKeyOf endpoint o = None.

(** The call is settled in [s]: another call with the same endpoint and
    options at the same time gets [out] again. *)
Definition repeats (endpoint : string) (o : Options) (now : Z) (out : Outcome)
    (s : State) : Prop :=
  (∃ v, out = Returned v ∧ ∀ f, checkCache endpoint o now (set_tracker f s) = inr v) ∨
  (∃ p, out = Follows p ∧ missesCache endpoint o s ∧
        pendingRequests s !! cacheKeyOf endpoint o = Some p).

End RequestMoreNotions.

(** ** Notions for the helpers of [src/utils/supabase.js] *)

Module HelperNotions.
Import RequestManager SupabaseHelpers.

(** The waits of [n] retries in a row: [delay], [2 * delay], ..., [n * delay]. *)
Definition backoff (delay : Z) (n : nat) : list Z :=
  (λ i, delay * (Z.of_nat i + 1)) <$> seq 0 n.

(** The invocations [first], ..., [first + n - 1] of the query throw errors
    that [executeWithRetry] retries. *)
Definition retriable {A} (queryFn : nat → Attempt A) (first n : nat) : Prop :=
  ∀ i, (i < n)%nat → ∃ e, queryFn (first + i)%nat = Throws e ∧ shouldRetry e = true.

(** The value thrown when the loop ends after [n] failures: the error of the
    last invocation, or [lastError] as it was when there was none. *)
Definition lastThrown {A} (queryFn : nat → Attempt A) (first n : nat)
    (lastError : option QueryError) : option QueryError :=
  match n with
  | O => lastError
  | S m => match queryFn (first + m)%nat with
           | Throws e => Some e
           | Returns _ => lastError
           end
  end.

Definition networkMessage : string :=
  "Network connection error. Please check your internet connection.".

(** The error of a [fetch] that could not reach the server. *)
Definition lostConnection : QueryError :=
  {| errorCode := None; errorMessage := Some "Failed to fetch"; errorDetails := None |}.

(** A query that fails with a lost connection until invocation [k] returns. *)
Definition flaky (k : nat) (i : nat) : Attempt Z :=
  if decide (i < k)%nat then Throws lostConnection else Returns 42.

(** A query that is refused by a row-level security policy. *)
Definition refused (i : nat) : Attempt Z :=
  Throws {| errorCode := Some "42501"; errorMessage := Some "permission denied";
            errorDetails := None |}.

End HelperNotions.

(** ** Concrete answers to the health request *)

Module HealthScenarios.
Import Json HealthCheck.

Definition projectUrl : string := "https://project.supabase.co".

Definition healthy : HealthResponse :=
  {| responseOk := true; responseStatus := 200;
     contentType := Some "application/json; charset=utf-8";
     jsonBody := Some (JObj [("status", JStr "ok")]) |}.

Definition unauthorized : HealthResponse :=
  {| responseOk := false; responseStatus := 401;
     contentType := Some "application/json";
     jsonBody := Some (JObj [("message", JStr "Invalid API key")]) |}.

End HealthScenarios.

(** ** Notions for the further invariants *)

Module InvariantNotions.
Import Json RequestManager RequestNotions.

(** What holds of the bookkeeping of requests in every state: a pending
    entry belongs to a request whose first attempt has not ended yet;
    requests are numbered below [nextPromise]; a settled request has no
    attempt left. *)
Record pendingInv (s : State) : Prop := {
  pi_pending : ∀ key p, pendingRequests s !! key = Some p →
               ∃ t, tasks s !! p = Some t ∧ taskKey t = key ∧ retryAttempt t = 0;
  pi_tasks : ∀ p t, tasks s !! p = Some t → (p < nextPromise s)%nat;
  pi_settled : ∀ p r, settled s !! p = Some r →
               (p < nextPromise s)%nat ∧ tasks s !! p = None
}.

(** Two states with the same bookkeeping of requests. *)
Definition sameRequests (s s' : State) : Prop :=
  pendingRequests s' = pendingRequests s ∧ tasks s' = tasks s ∧
  settled s' = settled s ∧ nextPromise s' = nextPromise s.

(** A call of [checkSupabaseConnection] is probing. *)
Definition probeRunning (s : Supabase.State) : Prop :=
  ∃ c ph, Supabase.callers s !! c = Some ph ∧ ph ≠ Supabase.Polling.

(** The tracker [tr] with another time of the last cleanup. *)
Definition withLastCleanup (t : Z) (tr : Tracker) : Tracker :=
  {| endpoints := endpoints tr; lastCleanup := t; resetTimers := resetTimers tr |}.

(** What the throttling of [track] and of [optimizedRequest] reads of a
    record: the flag, the last warning and the requests of the last second
    before [now]. *)
Definition throttleView (now : Z) (r : EndpointRecord) : bool * Z * list Z :=
  (isThrottled r, lastWarning r, filter (λ time, now - time < 1000) (timestamps r)).

End InvariantNotions.

(** ** Notions for the accounting of fetches and for the TTL option *)

Module FetchNotions.
Import Json RequestManager RequestNotions.

(** The attempts of request [p] that have invoked [fetch], in order. *)
Definition fetchesOf (p : nat) (log : list FetchCall) : list Z :=
  fetchAttempt <$> filter (λ f, fetchRequest f = p) log.

(** The attempts [0], ..., [a]. *)
Definition attemptsUpTo (a : Z) : list Z :=
  Z.of_nat <$> seq 0 (S (Z.to_nat a)).

(** What holds of the attempts in every state: a running request is at an
    attempt between zero and its [retryCount], has invoked [fetch] once for
    each attempt so far, and waits for a retry only if one is left; every
    request is numbered below [nextPromise]. *)
Record fetchInv (s : State) : Prop := {
  fi_attempt : ∀ p t, tasks s !! p = Some t →
               (0 ≤ retryAttempt t ≤ Z.max 0 (retryCount (taskOptions t)))%Z;
  fi_fetches : ∀ p t, tasks s !! p = Some t →
               fetchesOf p (fetchLog s) = attemptsUpTo (retryAttempt t);
  fi_retry : ∀ p t due, tasks s !! p = Some t → awaiting t = AwaitRetry due →
             retryAttempt t < retryCount (taskOptions t);
  fi_task : ∀ p t, tasks s !! p = Some t → (p < nextPromise s)%nat;
  fi_log : ∀ f, f ∈ fetchLog s → (fetchRequest f < nextPromise s)%nat
}.

(** The options [o] with another [cacheTTL]. *)
Definition withCacheTTL (ttl : Z) (o : Options) : Options :=
  {| method := method o; body := body o; params := params o; headers := headers o;
     cacheTTL := ttl; bypassCache := bypassCache o;
     retryCount := retryCount o; retryDelay := retryDelay o;
     priority := priority o |}.

(** What a caller and the network see of a call: its outcome, the cache, the
    pending requests, the tracker and the invocations of [fetch]. *)
Definition observed (r : State * Outcome)
    : Outcome * gmap string CacheEntry * gmap string nat * Tracker * list FetchCall :=
  (r.2, requestCache r.1, pendingRequests r.1, tracker r.1, fetchLog r.1).

(** The options with which the [fetch] of the Supabase client calls
    [optimizedRequest] for a GET of a common endpoint: the method, the
    headers and the body of the request (the default [null] for a body that
    is [undefined]), and a [cacheTTL] of one minute. *)
Definition clientOptions (requestHeaders : list (string * string)) (requestBody : json)
    : Options :=
  {| method := "GET";
     body := match requestBody with JUndefined => JNull | b => b end;
     params := []; headers := requestHeaders;
     cacheTTL := 60 * 1000; bypassCache := false; retryCount := 2; retryDelay := 1000;
     priority := "normal" |}.

End FetchNotions.


(** * Properties *)

(** ** Cache keys *)

Module CacheKeyFacts.
Import Json RequestManager RequestNotions RequestScenarios.

Lemma same_keys_perm_eq {A} (l l' : list (string * A)) :
  NoDup l.*1 → l ≡ₚ l' → l.*1 = l'.*1 → l = l'.
Proof.
  intros Hnd Hperm Hkeys.
  apply list_eq. intros i.
  destruct (l' !! i) as [[k v']|] eqn:Hi'.
  - assert (Hk : l.*1 !! i = Some k).
    { rewrite Hkeys, list_lookup_fmap, Hi'. done. }
    assert (Hin : (k, v') ∈ l).
    { rewrite Hperm. eapply list_elem_of_lookup_2; eauto. }
    apply list_elem_of_lookup in Hin as [j Hj].
    assert (Hkj : l.*1 !! j = Some k).
    { rewrite list_lookup_fmap, Hj. done. }
    rewrite (NoDup_lookup _ _ _ _ Hnd Hk Hkj). done.
  - apply lookup_ge_None. apply lookup_ge_None in Hi'.
    rewrite (Permutation_length Hperm). done.
Qed.

Lemma Forall2_keys {A B} (R : A → B → Prop) (l : list (string * A)) (l' : list (string * B)) :
  Forall2 (λ p q, p.1 = q.1 ∧ R p.2 q.2) l l' → l.*1 = l'.*1.
Proof.
  induction 1 as [|[k v] [k' v'] ? ? [Hk _] _ IH]; [done|].
  simpl in Hk. rewrite !fmap_cons, IH. simpl. by rewrite Hk.
Qed.

(** Two values that are equal as maps and list their properties in the same
    order are the same value. *)
Lemma equiv_same_order_eq (j1 j2 : json) :
  json_equiv j1 j2 → same_order j1 j2 → j1 = j2.
Proof.
  revert j2. induction j1 as [| | | | |items IH|props IH] using json_nested_ind;
    intros j2 Heq Hord; inversion Heq; subst; try done.
  - inversion Hord as [? ? Hso| | | | | |]; subst. f_equal.
    match goal with H : Forall2 json_equiv _ _ |- _ => rename H into Hall end.
    clear Heq Hord. revert Hso IH.
    induction Hall as [|x y l l' Hxy Hall IHl]; intros Hso IH; [done|].
    inversion Hso; subst. inversion IH; subst. f_equal; eauto.
  - inversion Hord as [|? ? Hso| | | | |]; subst.
    match goal with H : _ ≡ₚ _ |- _ => rename H into Hperm end.
    match goal with H : NoDup _ |- _ => rename H into Hnd end.
    match goal with H : Forall2 _ props qs |- _ => rename H into Hall end.
    assert (qs = ps2) as ->.
    { symmetry. apply same_keys_perm_eq; [|done|].
      - rewrite <- (Forall2_keys _ _ _ Hso). done.
      - rewrite <- (Forall2_keys _ _ _ Hso), <- (Forall2_keys _ _ _ Hall). done. }
    f_equal. clear Heq Hord Hperm Hnd. revert Hso IH.
    induction Hall as [|[k v] [k' v'] l l' [Hk Hv] Hall IHl]; intros Hso IH; [done|].
    inversion Hso as [|? ? ? ? [_ Hv'] Hso']; subst.
    inversion IH as [|? ? IHv IH']; subst. simpl in *. subst.
    f_equal; [f_equal; eauto|eauto].
Qed.

(** C6, as the code has it. [generateCacheKey] gives two calls the same key
    when their endpoints and methods are equal and their [params] and [body]
    are equal as maps and, in addition, list their properties in the same
    order; the other options of the calls play no part. *)
Theorem cacheKey_equal_when_same_order (endpoint : string) (o1 o2 : Options) :
  method o1 = method o2 →
  json_equiv (JObj (params o1)) (JObj (params o2)) →
  same_order (JObj (params o1)) (JObj (params o2)) →
  json_equiv (body o1) (body o2) →
  same_order (body o1) (body o2) →
  generateCacheKey endpoint (keyObject o1) = generateCacheKey endpoint (keyObject o2).
Proof.
  intros Hm Hp Hpo Hb Hbo. unfold keyObject.
  pose proof (equiv_same_order_eq _ _ Hp Hpo) as Hparams.
  pose proof (equiv_same_order_eq _ _ Hb Hbo) as Hbody.
  injection Hparams as Hparams. rewrite Hm, Hparams, Hbody. reflexivity.
Qed.

Lemma paramsAB_equiv_BA : json_equiv (JObj paramsAB) (JObj paramsBA).
Proof.
  apply (equiv_obj paramsAB paramsBA paramsAB).
  - apply (bool_decide_unpack _). vm_compute. reflexivity.
  - unfold paramsAB, paramsBA. apply perm_swap.
  - unfold paramsAB. repeat constructor.
Qed.

Lemma json_equiv_refl_AB : json_equiv (JObj paramsAB) (JObj paramsAB).
Proof.
  apply (equiv_obj paramsAB paramsAB paramsAB); [|done|].
  - apply (bool_decide_unpack _). vm_compute. reflexivity.
  - unfold paramsAB. repeat constructor.
Qed.

Lemma cacheKey_equal_when_same_order_witness :
  generateCacheKey "/items" (keyObject (withParams paramsAB defaultOptions)) =
  generateCacheKey "/items"
    (keyObject (withParams paramsAB
       {| method := "GET"; body := JNull; params := []; headers := [("x", "y")];
          cacheTTL := 1000; bypassCache := true; retryCount := 0;
          retryDelay := 5; priority := "low" |})).
Proof.
  apply cacheKey_equal_when_same_order; simpl.
  - reflexivity.
  - exact json_equiv_refl_AB.
  - unfold paramsAB. repeat constructor.
  - constructor.
  - constructor.
Defined.

(** C6, as stated, fails: two [params] objects that are equal as maps but
    were filled in a different order give different keys. *)
Lemma cacheKey_depends_on_property_order :
  json_equiv (JObj paramsAB) (JObj paramsBA) ∧
  generateCacheKey "/items" (keyObject (withParams paramsAB defaultOptions)) ≠
  generateCacheKey "/items" (keyObject (withParams paramsBA defaultOptions)).
Proof.
  split; [exact paramsAB_equiv_BA|].
  vm_compute. discriminate.
Qed.

End CacheKeyFacts.

(** ** Cache invalidation *)

Module ClearCacheFacts.
Import Json RequestManager RequestNotions RequestScenarios.

(** What the deletion loop leaves under a key, whatever keys it visits. *)
Lemma deleteKeys_lookup prefix (keys : list string) (m : gmap string CacheEntry) key :
  foldl (λ m key, if startsWith key prefix then delete key m else m) m keys !! key
    = if startsWith key prefix
      then (if decide (key ∈ keys) then None else m !! key)
      else m !! key.
Proof.
  revert m. induction keys as [|k keys IH]; intros m; simpl.
  { destruct (startsWith key prefix); [|done].
    destruct (decide (key ∈ [])) as [Hin|]; [|done]. by apply elem_of_nil in Hin. }
  rewrite IH. destruct (startsWith key prefix) eqn:Hpre.
  - destruct (decide (key ∈ keys)) as [Hin|Hnin].
    + rewrite decide_True by (by right). done.
    + destruct (decide (key = k)) as [->|Hne].
      * rewrite decide_True by (by left). rewrite Hpre. apply lookup_delete_eq.
      * rewrite decide_False by (by intros [?|?]%elem_of_cons).
        destruct (startsWith k prefix); [by rewrite lookup_delete_ne|done].
  - destruct (startsWith k prefix) eqn:Hk; [|done].
    rewrite lookup_delete_ne; [done|]. intros ->. congruence.
Qed.

(** C7, as the code has it. [clearRequestCache(endpoint)] with a non-empty
    endpoint removes exactly the cache entries whose key begins with the
    endpoint followed by a colon and leaves every other entry as it was;
    without an argument it removes every entry. *)
Theorem clearRequestCache_scope (s : State) (endpoint key : string) :
  endpoint ≠ EmptyString →
  requestCache (clearRequestCache (Some endpoint) s) !! key
    = (if startsWith key (endpoint ++ ":") then None else requestCache s !! key)
  ∧ requestCache (clearRequestCache None s) = ∅.
Proof.
  intros Hne. split; [|reflexivity].
  unfold clearRequestCache. destruct (decide (endpoint = EmptyString)); [done|].
  simpl. unfold deleteKeysWithPrefix. rewrite deleteKeys_lookup.
  destruct (startsWith key (endpoint ++ ":")) eqn:Hpre; [|done].
  destruct (decide (key ∈ (map_to_list (requestCache s)).*1)) as [|Hnot]; [done|].
  destruct (requestCache s !! key) as [x|] eqn:Hk; [|done].
  destruct Hnot. apply list_elem_of_fmap. exists (key, x).
  split; [done|]. by apply elem_of_map_to_list.
Qed.

Lemma clearRequestCache_scope_witness :
  requestCache (clearRequestCache (Some "/resources/1") cachedDetail)
    !! cacheKeyOf "/resources/1" defaultOptions = None.
Proof.
  pose proof (clearRequestCache_scope cachedDetail "/resources/1"
                (cacheKeyOf "/resources/1" defaultOptions)) as H.
  destruct H as [H _]; [discriminate|].
  rewrite H. vm_compute. reflexivity.
Defined.

(** C7, as stated, fails: the key of an entry cached for [/resources/1]
    begins with [/resources], and [clearRequestCache('/resources')] keeps
    the entry. *)
Lemma clearRequestCache_keeps_longer_endpoint :
  let key := cacheKeyOf "/resources/1" defaultOptions in
  startsWith key "/resources" = true ∧
  requestCache cachedDetail !! key
    = Some {| data := JStr "detail"; timestamp := 1040 |} ∧
  requestCache (clearRequestCache (Some "/resources") cachedDetail) !! key
    = Some {| data := JStr "detail"; timestamp := 1040 |}.
Proof. vm_compute. repeat split. Qed.

End ClearCacheFacts.

(** ** Traffic tracking and throttling *)

Module ThrottleFacts.
Import Json RequestManager RequestNotions RequestScenarios RequestMore.

Lemma filter_filter_weaker (P Q : Z → Prop) `{∀ x, Decision (P x)} `{∀ x, Decision (Q x)}
    (l : list Z) :
  (∀ x, P x → Q x) → filter P (filter Q l) = filter P l.
Proof.
  intros HPQ. induction l as [|x l IH]; [done|].
  rewrite !filter_cons. destruct (decide (Q x)) as [HQ|HQ].
  - rewrite filter_cons. destruct (decide (P x)); by rewrite IH.
  - destruct (decide (P x)) as [HP|HP]; [by apply HPQ in HP|done].
Qed.

Lemma filter_length_weaker (P Q : Z → Prop) `{∀ x, Decision (P x)} `{∀ x, Decision (Q x)}
    (l : list Z) :
  (∀ x, P x → Q x) → (length (filter P l) ≤ length (filter Q l))%nat.
Proof.
  intros HPQ. induction l as [|x l IH]; [done|].
  rewrite !filter_cons. destruct (decide (P x)) as [HP|HP].
  - destruct (decide (Q x)) as [HQ|HQ]; [simpl; lia|by apply HPQ in HP].
  - destruct (decide (Q x)); simpl; lia.
Qed.

Lemma isThrottled_recordOf endpoint tr :
  requestTracker.isThrottled endpoint tr = isThrottled (recordOf endpoint tr).
Proof.
  unfold requestTracker.isThrottled, recordOf.
  destruct (endpoints tr !! endpoint); reflexivity.
Qed.

Lemma recordOf_cleanup endpoint now tr :
  let r := recordOf endpoint tr in
  recordOf endpoint (requestTracker.cleanup now tr) =
    {| count := count r;
       timestamps := filter (λ time, now - time < 60000) (timestamps r);
       isThrottled := isThrottled r;
       lastWarning := lastWarning r |}.
Proof.
  unfold recordOf, requestTracker.cleanup. simpl.
  rewrite lookup_fmap. destruct (endpoints tr !! endpoint); reflexivity.
Qed.

(** [track] never clears a throttle flag. *)
Lemma track_keeps_throttled endpoint endpoint' now tr :
  requestTracker.isThrottled endpoint tr = true →
  requestTracker.isThrottled endpoint (requestTracker.track endpoint' now tr).1 = true.
Proof.
  rewrite !isThrottled_recordOf. intros Hthr.
  unfold requestTracker.track.
  set (tr1 := if decide (now - lastCleanup tr > 60000)
              then requestTracker.cleanup now tr else tr).
  assert (H1 : isThrottled (recordOf endpoint tr1) = true).
  { unfold tr1. destruct (decide (now - lastCleanup tr > 60000)); [|done].
    rewrite recordOf_cleanup. done. }
  fold (recordOf endpoint' tr1).
  destruct (decide (endpoint = endpoint')) as [<-|Hne];
    match goal with |- context [decide ?P] => destruct (decide P) end;
    unfold recordOf in *; simpl.
  - by rewrite lookup_insert_eq.
  - by rewrite lookup_insert_eq.
  - by rewrite lookup_insert_ne.
  - by rewrite lookup_insert_ne.
Qed.

(** What [track] appends: the record of the endpoint ends with [now]. *)
Lemma track_appends endpoint now tr :
  last (timestamps (recordOf endpoint (requestTracker.track endpoint now tr).1))
    = Some now.
Proof.
  unfold requestTracker.track.
  match goal with |- context [decide (_ ∧ _)] => destruct (decide (_ ∧ _)) end;
    unfold recordOf at 1; simpl; rewrite lookup_insert_eq; simpl;
    apply last_snoc.
Qed.

(** One tracked request inside a burst that began at [t0]. *)
Lemma track_in_burst endpoint now t0 tr :
  (t0 ≤ now < t0 + 1000)%Z →
  lastWarning (recordOf endpoint tr) + 5000 < now →
  let tr' := (requestTracker.track endpoint now tr).1 in
  requestTracker.isThrottled endpoint tr' = true ∨
  (lastWarning (recordOf endpoint tr') = lastWarning (recordOf endpoint tr) ∧
   since t0 (recordOf endpoint tr') = S (since t0 (recordOf endpoint tr)) ∧
   (since t0 (recordOf endpoint tr') ≤ 10)%nat).
Proof.
  intros Hwin Hlw. unfold requestTracker.track.
  set (tr1 := if decide (now - lastCleanup tr > 60000)
              then requestTracker.cleanup now tr else tr).
  assert (Hlw1 : lastWarning (recordOf endpoint tr1) = lastWarning (recordOf endpoint tr)).
  { unfold tr1. destruct (decide (now - lastCleanup tr > 60000)); [|done].
    rewrite recordOf_cleanup. done. }
  assert (Hs1 : since t0 (recordOf endpoint tr1) = since t0 (recordOf endpoint tr)).
  { unfold tr1. destruct (decide (now - lastCleanup tr > 60000)); [|done].
    rewrite recordOf_cleanup. unfold since. simpl.
    rewrite filter_filter_weaker; [done|]. intros x Hx. simpl. lia. }
  fold (recordOf endpoint tr1). simpl.
  set (r0 := recordOf endpoint tr1) in *.
  match goal with |- context [decide (?A > 10 ∧ ?B)] =>
    destruct (decide (A > 10 ∧ B)) as [Hyes|Hno] end.
  - left. rewrite isThrottled_recordOf. unfold recordOf. simpl.
    rewrite lookup_insert_eq. done.
  - right. unfold recordOf at 1 3 5. simpl. rewrite lookup_insert_eq. simpl.
    fold (recordOf endpoint tr).
    assert (Hs : since t0
              {| count := count r0 + 1; timestamps := timestamps r0 ++ [now];
                 isThrottled := isThrottled r0; lastWarning := lastWarning r0 |}
            = S (since t0 (recordOf endpoint tr))).
    { unfold since. simpl. rewrite filter_app, length_app, filter_cons.
      destruct (decide (t0 ≤ now)%Z); [|lia]. simpl.
      fold (since t0 r0). rewrite Hs1. unfold since. lia. }
    split; [done|]. split; [exact Hs|].
    rewrite Hs. rewrite <- Hs.
    assert (Hle : Nat.le (length (filter (λ t, t0 ≤ t)%Z (timestamps r0 ++ [now])%list))
                         (length (filter (λ time, now - time < 1000)
                                    (timestamps r0 ++ [now])%list))).
    { apply filter_length_weaker. intros x Hx. simpl. lia. }
    unfold since. simpl.
    destruct (decide (Z.of_nat (length (filter (λ time, now - time < 1000)
                                           (timestamps r0 ++ [now])%list)) > 10))
      as [Hgt|Hngt].
    + exfalso. apply Hno. split; [exact Hgt|]. simpl. lia.
    + lia.
Qed.

(** After [track], [optimizedRequest] does not touch the tracker again. *)
Lemma proceed_tracker endpoint o now s :
  tracker (proceed endpoint o now s).1
    = (requestTracker.track endpoint now (tracker s)).1.
Proof.
  unfold proceed, checkCache, joinOrStart, startRequest.
  repeat (match goal with
          | |- context [if ?b then _ else _] => destruct b
          | |- context [match ?x with Some _ => _ | None => _ end] => destruct x
          end; simpl); reflexivity.
Qed.

(** The throttle block is skipped for an endpoint that is not throttled and
    for a call of high priority. *)
Lemma optimizedRequest_past_gate endpoint o now s :
  requestTracker.isThrottled endpoint (tracker s) = false ∨ priority o = "high" →
  optimizedRequest endpoint o now s = proceed endpoint o now s.
Proof.
  intros [Hthr|Hhigh]; unfold optimizedRequest.
  - rewrite Hthr. reflexivity.
  - rewrite (bool_decide_eq_true_2 _ Hhigh), andb_false_r. reflexivity.
Qed.

(** Inside the throttle block a call leaves the tracker as it is. *)
Lemma optimizedRequest_in_gate endpoint o now s :
  requestTracker.isThrottled endpoint (tracker s) = true →
  priority o ≠ "high" →
  tracker (optimizedRequest endpoint o now s).1 = tracker s.
Proof.
  intros Hthr Hprio. unfold optimizedRequest.
  rewrite Hthr, (bool_decide_eq_false_2 _ Hprio). simpl.
  destruct (requestCache s !! cacheKeyOf endpoint o); [done|].
  destruct (bool_decide (priority o = "low")); done.
Qed.

Lemma optimizedRequest_keeps_throttled endpoint endpoint' o now s :
  requestTracker.isThrottled endpoint (tracker s) = true →
  requestTracker.isThrottled endpoint (tracker (optimizedRequest endpoint' o now s).1)
    = true.
Proof.
  intros Hthr.
  destruct (requestTracker.isThrottled endpoint' (tracker s)) eqn:Hthr';
    [destruct (decide (priority o = "high")) as [Hhigh|Hlow]|].
  - rewrite optimizedRequest_past_gate by (by right).
    rewrite proceed_tracker. by apply track_keeps_throttled.
  - rewrite optimizedRequest_in_gate; done.
  - rewrite optimizedRequest_past_gate by (by left).
    rewrite proceed_tracker. by apply track_keeps_throttled.
Qed.

(** A call for an endpoint that is not an inherited name. *)
Lemma callOptimizedRequest_own endpoint o now s :
  inherited endpoint = false →
  callOptimizedRequest endpoint o now s = optimizedRequest endpoint o now s.
Proof. intros H. unfold callOptimizedRequest. by rewrite H. Qed.

Lemma callOptimizedRequest_inherited endpoint o now s :
  inherited endpoint = true →
  callOptimizedRequest endpoint o now s
  = (set_tracker (requestTracker.trackInherited now) s, Threw typeErrorOfTrack).
Proof. intros H. unfold callOptimizedRequest. by rewrite H. Qed.

Lemma step_call now endpoint o s :
  (step now (Call endpoint o) s).1 = (callOptimizedRequest endpoint o now s).1.
Proof. simpl. by destruct (callOptimizedRequest endpoint o now s). Qed.

Lemma run_event_cons now e evs s :
  (run ((now, e) :: evs) s).1 = (run evs (step now e s).1).1.
Proof.
  simpl. destruct (step now e s) as [s1 out]. simpl.
  destruct (run evs s1) as [s2 outs]. reflexivity.
Qed.

(** [track] for another endpoint leaves the record of [endpoint] as it is,
    up to the pruning of timestamps older than a minute. *)
Lemma track_other endpoint endpoint' now t0 tr :
  endpoint' ≠ endpoint → now < t0 + 1000 →
  let tr' := (requestTracker.track endpoint' now tr).1 in
  requestTracker.isThrottled endpoint tr' = requestTracker.isThrottled endpoint tr ∧
  lastWarning (recordOf endpoint tr') = lastWarning (recordOf endpoint tr) ∧
  since t0 (recordOf endpoint tr') = since t0 (recordOf endpoint tr).
Proof.
  intros Hne Hwin. cbv zeta. rewrite !isThrottled_recordOf.
  unfold requestTracker.track.
  set (tr1 := if decide (now - lastCleanup tr > 60000)
              then requestTracker.cleanup now tr else tr).
  assert (H1 : isThrottled (recordOf endpoint tr1) = isThrottled (recordOf endpoint tr) ∧
               lastWarning (recordOf endpoint tr1) = lastWarning (recordOf endpoint tr) ∧
               since t0 (recordOf endpoint tr1) = since t0 (recordOf endpoint tr)).
  { unfold tr1. destruct (decide (now - lastCleanup tr > 60000)); [|done].
    rewrite recordOf_cleanup. split; [done|]. split; [done|].
    unfold since. simpl. rewrite filter_filter_weaker; [done|].
    intros x Hx. simpl. lia. }
  match goal with |- context [decide (_ ∧ _)] => destruct (decide (_ ∧ _)) end;
    unfold recordOf in *; simpl; rewrite !lookup_insert_ne by done;
    exact H1.
Qed.

Lemma burstInv_weaken endpoint t0 k tr :
  burstInv endpoint t0 (S k) tr → burstInv endpoint t0 k tr.
Proof.
  intros [Hthr|(Hlw & Hk & Hle)]; [by left|right].
  split; [done|]. split; [lia|]. destruct Hle as [|Hle]; [lia|by right].
Qed.

(** A tracked request for [endpoint] inside the burst counts. *)
Lemma burstInv_track endpoint t0 k now tr :
  (t0 ≤ now < t0 + 1000)%Z →
  burstInv endpoint t0 k tr →
  burstInv endpoint t0 (S k) (requestTracker.track endpoint now tr).1.
Proof.
  intros Hwin [Hthr|(Hlw & Hk & _)].
  - left. by apply track_keeps_throttled.
  - destruct (track_in_burst endpoint now t0 tr Hwin) as [Hthr|(Hlw' & Hs & Hle)];
      [lia|by left|].
    right. rewrite Hlw'. split; [done|]. split; [lia|by right].
Qed.

(** A tracked request for another endpoint does not disturb the burst. *)
Lemma burstInv_track_other endpoint endpoint' t0 k now tr :
  endpoint' ≠ endpoint → now < t0 + 1000 →
  burstInv endpoint t0 k tr →
  burstInv endpoint t0 k (requestTracker.track endpoint' now tr).1.
Proof.
  intros Hne Hwin Hinv.
  destruct (track_other endpoint endpoint' now t0 tr Hne Hwin) as (Hthr & Hlw & Hs).
  unfold burstInv. rewrite Hthr, Hlw, Hs. exact Hinv.
Qed.

Lemma burstInv_track_any endpoint endpoint' t0 k now tr :
  (t0 ≤ now < t0 + 1000)%Z →
  burstInv endpoint t0 k tr →
  burstInv endpoint t0 k (requestTracker.track endpoint' now tr).1.
Proof.
  intros Hwin Hinv. destruct (decide (endpoint' = endpoint)) as [->|Hne].
  - apply burstInv_weaken. by apply burstInv_track.
  - apply burstInv_track_other; [done|lia|done].
Qed.

Lemma burstInv_reset_other endpoint endpoint' t0 k tr i :
  endpoint' ≠ endpoint →
  burstInv endpoint t0 k tr →
  burstInv endpoint t0 k
    (requestTracker.resetThrottle endpoint'
       {| endpoints := endpoints tr; lastCleanup := lastCleanup tr;
          resetTimers := delete i (resetTimers tr) |}).
Proof.
  intros Hne Hinv. unfold burstInv, requestTracker.isThrottled, recordOf in *.
  simpl. rewrite lookup_alter_ne by done. exact Hinv.
Qed.

(** The call for an inherited name, which only runs the cleanup, does not
    disturb the burst. *)
Lemma burstInv_trackInherited endpoint t0 k now tr :
  now < t0 + 1000 →
  burstInv endpoint t0 k tr →
  burstInv endpoint t0 k (requestTracker.trackInherited now tr).
Proof.
  intros Hwin Hinv. unfold requestTracker.trackInherited.
  destruct (decide (now - lastCleanup tr > 60000)); [|done].
  unfold burstInv in *. rewrite !isThrottled_recordOf in *.
  rewrite recordOf_cleanup. simpl.
  assert (Hs : since t0
            {| count := count (recordOf endpoint tr);
               timestamps := filter (λ time, now - time < 60000)
                               (timestamps (recordOf endpoint tr));
               isThrottled := isThrottled (recordOf endpoint tr);
               lastWarning := lastWarning (recordOf endpoint tr) |}
          = since t0 (recordOf endpoint tr)).
  { unfold since. simpl. rewrite filter_filter_weaker; [done|].
    intros x Hx. simpl. lia. }
  rewrite Hs. exact Hinv.
Qed.

(** One event of a burst: a call for the endpoint counts, and nothing but
    the endpoint's own un-throttle callback undoes the count. *)
Lemma burstInv_step endpoint t0 k now e s :
  inherited endpoint = false →
  (t0 ≤ now < t0 + 1000)%Z →
  isResetOf endpoint e = false →
  burstInv endpoint t0 k (tracker s) →
  burstInv endpoint t0 (if isCallTo endpoint e then S k else k) (tracker (step now e s).1).
Proof.
  intros Hown Hwin Hreset Hinv. destruct e as [e' o|w|p r|p|e'|e']; simpl.
  - destruct (callOptimizedRequest e' o now s) as [s' out] eqn:Hcall. simpl.
    assert (Htr : tracker s' = tracker (callOptimizedRequest e' o now s).1)
      by (by rewrite Hcall).
    rewrite Htr. clear Htr Hcall s' out.
    destruct (inherited e') eqn:Hinh.
    { rewrite callOptimizedRequest_inherited by done. simpl.
      rewrite bool_decide_eq_false_2 by congruence.
      apply burstInv_trackInherited; [lia|done]. }
    rewrite callOptimizedRequest_own by done.
    destruct (decide (e' = endpoint)) as [->|Hne].
    + rewrite bool_decide_eq_true_2 by done.
      destruct (requestTracker.isThrottled endpoint (tracker s)) eqn:Hthr.
      * left. by apply optimizedRequest_keeps_throttled.
      * rewrite optimizedRequest_past_gate by (by left).
        rewrite proceed_tracker. by apply burstInv_track.
    + rewrite bool_decide_eq_false_2 by done.
      destruct (requestTracker.isThrottled e' (tracker s)) eqn:Hthr;
        [destruct (decide (priority o = "high")) as [Hhigh|Hlow]|].
      * rewrite optimizedRequest_past_gate by (by right).
        rewrite proceed_tracker. by apply burstInv_track_any.
      * rewrite optimizedRequest_in_gate; done.
      * rewrite optimizedRequest_past_gate by (by left).
        rewrite proceed_tracker. by apply burstInv_track_any.
  - unfold resumeRequest. destruct (paused s !! w) as [[[due e'] o]|]; [|done].
    destruct (decide (due ≤ now)%Z); [|done].
    pose proof (proceed_tracker e' o now (set_paused (delete w) s)) as Htr.
    destruct (proceed e' o now (set_paused (delete w) s)) as [s' out].
    simpl in *. rewrite Htr. by apply burstInv_track_any.
  - unfold fetchDone. destruct (tasks s !! p) as [t|]; [|done].
    destruct (awaiting t); [|done].
    destruct r; [destruct (bool_decide _)|destruct (decide _)];
      unfold finallyBlock; try destruct (decide _); done.
  - unfold retryTimer. destruct (tasks s !! p) as [t|]; [|done].
    destruct (awaiting t); [done|]. destruct (decide _); [|done].
    unfold finallyBlock. destruct (decide _); done.
  - simpl in Hreset. apply bool_decide_eq_false in Hreset.
    unfold unthrottle. destruct (list_find _ _) as [[i ?]|]; [|done].
    simpl. by apply burstInv_reset_other.
  - unfold clearRequestCache. destruct e' as [e'|]; [|done].
    destruct (decide _); done.
Qed.

Lemma burstInv_run endpoint t0 evs k s :
  inherited endpoint = false →
  Forall (λ te, (t0 ≤ te.1 < t0 + 1000)%Z ∧ isResetOf endpoint te.2 = false) evs →
  burstInv endpoint t0 k (tracker s) →
  burstInv endpoint t0 (k + callsTo endpoint evs) (tracker (run evs s).1).
Proof.
  intros Hown Hevs. revert k s. induction Hevs as [|[now e] evs [Hwin Hreset] _ IH];
    intros k s Hinv.
  { unfold callsTo. simpl. by rewrite Nat.add_0_r. }
  rewrite run_event_cons. simpl in Hwin, Hreset.
  pose proof (burstInv_step endpoint t0 k now e s Hown Hwin Hreset Hinv) as Hstep.
  apply IH in Hstep. unfold callsTo in *. rewrite filter_cons. simpl.
  destruct (isCallTo endpoint e); simpl.
  - destruct (decide (true = true)); [|done]. simpl.
    replace (k + S (length (filter (λ te, isCallTo endpoint te.2 = true) evs)))%nat
      with (S k + length (filter (λ te, isCallTo endpoint te.2 = true) evs))%nat by lia.
    exact Hstep.
  - destruct (decide (false = true)); [done|]. exact Hstep.
Qed.


(** *** Inherited names *)

Lemma proceed_paused endpoint o now s :
  paused (proceed endpoint o now s).1 = paused s.
Proof.
  unfold proceed, checkCache, joinOrStart, startRequest.
  repeat (match goal with
          | |- context [if ?b then _ else _] => destruct b
          | |- context [match ?x with Some _ => _ | None => _ end] => destruct x
          end; simpl); reflexivity.
Qed.

Lemma track_keeps_out endpoint name now tr :
  inherited endpoint = false → inherited name = true →
  endpoints tr !! name = None →
  endpoints (requestTracker.track endpoint now tr).1 !! name = None.
Proof.
  intros Hown Hinh Hnone. unfold requestTracker.track.
  assert (Hne : endpoint ≠ name) by congruence.
  set (tr1 := if decide (now - lastCleanup tr > 60000)
              then requestTracker.cleanup now tr else tr).
  assert (H1 : endpoints tr1 !! name = None).
  { unfold tr1. destruct (decide (now - lastCleanup tr > 60000)); [|done].
    simpl. by rewrite lookup_fmap, Hnone. }
  match goal with |- context [decide (_ ∧ _)] => destruct (decide (_ ∧ _)) end;
    simpl; by rewrite lookup_insert_ne.
Qed.

Lemma ownRecords_proceed endpoint o now s :
  inherited endpoint = false → ownRecords s →
  ownRecords (proceed endpoint o now s).1.
Proof.
  intros Hown [Hrec Hpaused]. split.
  - intros name Hinh. rewrite proceed_tracker. apply track_keeps_out; auto.
  - intros w due e' o'. rewrite proceed_paused. apply Hpaused.
Qed.

Lemma ownRecords_same s s' :
  tracker s' = tracker s → paused s' = paused s → ownRecords s → ownRecords s'.
Proof. intros Ht Hp [H1 H2]. split; rewrite ?Ht, ?Hp; done. Qed.

Lemma ownRecords_step now e s : ownRecords s → ownRecords (step now e s).1.
Proof.
  intros Hinv. destruct e as [endpoint o|w|p r|p|endpoint|endpoint];
    [rewrite step_call|simpl..].
  - destruct (inherited endpoint) eqn:Hinh.
    + rewrite callOptimizedRequest_inherited by done. simpl.
      destruct Hinv as [Hrec Hpaused]. split; simpl; [|done].
      intros name Hname. unfold requestTracker.trackInherited.
      destruct (decide _); [|by apply Hrec].
      simpl. by rewrite lookup_fmap, Hrec.
    + rewrite callOptimizedRequest_own by done. unfold optimizedRequest.
      destruct (_ && _); [|by apply ownRecords_proceed].
      destruct (requestCache s !! _); [done|].
      destruct (bool_decide _); [done|].
      destruct Hinv as [Hrec Hpaused]. split; simpl; [done|].
      intros w due e' o' [[_ [= _ <- _]]|[_ Hw]]%lookup_insert_Some; [done|].
      by eapply Hpaused.
  - unfold resumeRequest.
    destruct (paused s !! w) as [[[due endpoint] o]|] eqn:Hw; [|done].
    destruct (decide _); [|done].
    pose proof (ownRecords_proceed endpoint o now (set_paused (delete w) s)) as H.
    destruct (proceed endpoint o now _). simpl in *. apply H.
    + destruct Hinv as [_ Hpaused]. by eapply Hpaused.
    + destruct Hinv as [Hrec Hpaused]. split; simpl; [done|].
      intros w' due' e' o' [_ Hw']%lookup_delete_Some. by eapply Hpaused.
  - apply (ownRecords_same s); [| |done]; unfold fetchDone;
      (destruct (tasks s !! p) as [t|]; [|done]);
      (destruct (awaiting t); [|done]);
      (destruct r; [destruct (bool_decide _)|destruct (decide _)]);
      unfold finallyBlock; try destruct (decide _); done.
  - apply (ownRecords_same s); [| |done]; unfold retryTimer;
      (destruct (tasks s !! p) as [t|]; [|done]);
      (destruct (awaiting t); [done|]); (destruct (decide _); [|done]);
      unfold finallyBlock; destruct (decide _); done.
  - unfold unthrottle. destruct (list_find _ _) as [[i x]|]; [|done].
    destruct Hinv as [Hrec Hpaused]. split; simpl; [|done].
    intros name Hname. destruct (decide (endpoint = name)) as [->|Hne].
    + by rewrite lookup_alter_eq, Hrec.
    + rewrite lookup_alter_ne by done. by apply Hrec.
  - apply (ownRecords_same s); [| |done]; unfold clearRequestCache;
      (destruct endpoint as [e0|]; [|done]); by destruct (decide _).
Qed.

Lemma reachable_ownRecords s : reachable s → ownRecords s.
Proof.
  induction 1 as [t0|now e s Hs IH].
  - split; simpl; intros *; rewrite ?lookup_empty; done.
  - by apply ownRecords_step.
Qed.

(** *** The claims on throttling *)




(** C5, as the code has it. Take an endpoint that is not named like a member
    of [Object.prototype]. A call that is not answered inside the throttle
    block (the endpoint is not throttled, or the priority is high) runs the
    tracking step before anything else, so also when it is then served from
    the cache or joins a pending request. A call for a throttled endpoint
    with another priority leaves the tracker as it is, whether it returns the
    stale entry, rejects with the throttled error or starts its pause; the
    paused call runs the tracking step when the pause is over. For an
    endpoint that is named like a member of [Object.prototype] the tracking
    step throws: in every state the request manager can reach, the call
    rejects with that [TypeError], and there is no record for the endpoint
    before or after it, so the endpoint is never throttled. *)
Theorem track_runs_past_throttle_block (s : State) (endpoint : string)
    (o : Options) (now : Z) :
  let call := callOptimizedRequest endpoint o now s in
  (inherited endpoint = false →
     (requestTracker.isThrottled endpoint (tracker s) = false ∨ priority o = "high" →
      tracker call.1 = (requestTracker.track endpoint now (tracker s)).1
      ∧ last (timestamps (recordOf endpoint (tracker call.1))) = Some now)
     ∧ (requestTracker.isThrottled endpoint (tracker s) = true → priority o ≠ "high" →
        tracker call.1 = tracker s)
     ∧ ∀ w due,
         paused s !! w = Some (due, endpoint, o) → (due ≤ now)%Z →
         tracker (resumeRequest w now s).1
           = (requestTracker.track endpoint now (tracker s)).1
         ∧ last (timestamps (recordOf endpoint (tracker (resumeRequest w now s).1)))
           = Some now)
  ∧ (inherited endpoint = true → reachable s →
       call.2 = Threw typeErrorOfTrack
       ∧ endpoints (tracker s) !! endpoint = None
       ∧ endpoints (tracker call.1) !! endpoint = None
       ∧ requestTracker.isThrottled endpoint (tracker call.1) = false).
Proof.
  cbv zeta. split.
  - intros Hown. rewrite callOptimizedRequest_own by done. split; [|split].
    + intros Hgate. rewrite optimizedRequest_past_gate by exact Hgate.
      rewrite proceed_tracker. split; [reflexivity|apply track_appends].
    + apply optimizedRequest_in_gate.
    + intros w due Hw Hdue. unfold resumeRequest. rewrite Hw.
      destruct (decide (due ≤ now)%Z); [|done].
      pose proof (proceed_tracker endpoint o now (set_paused (delete w) s)) as Htr.
      destruct (proceed endpoint o now (set_paused (delete w) s)) as [s' out].
      simpl in *. rewrite Htr. split; [reflexivity|apply track_appends].
  - intros Hinh Hreach.
    pose proof (reachable_ownRecords s Hreach) as [Hrec _].
    pose proof (reachable_ownRecords _ (reachable_task now (Call endpoint o) s Hreach))
      as [Hrec' _].
    rewrite step_call in Hrec'.
    split; [by rewrite callOptimizedRequest_inherited|].
    split; [by apply Hrec|]. split; [by apply Hrec'|].
    unfold requestTracker.isThrottled. by rewrite Hrec'.
Qed.

Lemma track_runs_past_throttle_block_witness :
  last (timestamps (recordOf "/items"
          (tracker (callOptimizedRequest "/items" defaultOptions 10000
                      (initialState 9000)).1)))
    = Some 10000.
Proof.
  destruct (track_runs_past_throttle_block (initialState 9000) "/items"
              defaultOptions 10000) as [H _].
  destruct H as [H _]; [vm_compute; reflexivity|].
  apply H. left. reflexivity.
Defined.

(** C5, as stated, fails. A call of low priority for the throttled endpoint
    rejects with the throttled error, and a call of normal priority whose key
    has a cache entry returns the stale entry; the tracker has recorded
    neither call. *)
Lemma throttled_call_is_not_tracked :
  let rejected :=
    optimizedRequest "/items" (withPriority "low" defaultOptions) 10020 afterBurst in
  let stale := optimizedRequest "/items" shortLived 12000 cachedAndThrottled in
  (rejected.2 = Threw (throttledMessage "/items") ∧
   tracker rejected.1 = tracker afterBurst ∧
   10020 ∉ timestamps (recordOf "/items" (tracker rejected.1)))
  ∧ (stale.2 = Returned (JStr "v1") ∧
     tracker stale.1 = tracker cachedAndThrottled ∧
     12000 ∉ timestamps (recordOf "/items" (tracker stale.1))).
Proof.
  split; (split; [vm_compute; reflexivity|]);
    (split; [vm_compute; reflexivity|]);
    apply (bool_decide_unpack _); vm_compute; reflexivity.
Qed.

End ThrottleFacts.

(** ** Deduplication of requests in flight *)

Module DedupFacts.
Import Json RequestManager RequestNotions RequestScenarios ThrottleFacts.

Lemma checkCache_goes_on endpoint o now s :
  noFreshEntry endpoint o now s →
  ∃ s', checkCache endpoint o now s = inl s' ∧
        pendingRequests s' = pendingRequests s ∧ tracker s' = tracker s ∧
        tasks s' = tasks s ∧ nextPromise s' = nextPromise s ∧
        fetchLog s' = fetchLog s ∧ settled s' = settled s.
Proof.
  intros Hno. unfold checkCache.
  destruct (bypassCache o) eqn:Hb; simpl; [by eexists|].
  destruct (decide (method o = "GET")) as [Hm|Hm].
  - rewrite (bool_decide_eq_true_2 _ Hm).
    destruct (requestCache s !! cacheKeyOf endpoint o) as [entry|] eqn:He;
      [|by eexists].
    specialize (Hno entry Hb Hm He).
    destruct (decide (now - timestamp entry < effectiveCacheTTL endpoint o)); [lia|].
    by eexists.
  - rewrite (bool_decide_eq_false_2 _ Hm). by eexists.
Qed.

(** A call that reaches the deduplication check while a request is
    registered for its key returns the promise of that request and starts
    nothing. *)
Lemma joins_registered endpoint o now s p :
  pendingRequests s !! cacheKeyOf endpoint o = Some p →
  requestTracker.isThrottled endpoint (tracker s) = false ∨ priority o = "high" →
  noFreshEntry endpoint o now s →
  (optimizedRequest endpoint o now s).2 = Follows p ∧
  fetchLog (optimizedRequest endpoint o now s).1 = fetchLog s ∧
  pendingRequests (optimizedRequest endpoint o now s).1 = pendingRequests s ∧
  tasks (optimizedRequest endpoint o now s).1 = tasks s ∧
  nextPromise (optimizedRequest endpoint o now s).1 = nextPromise s.
Proof.
  intros Hp Hgate Hno. rewrite optimizedRequest_past_gate by exact Hgate.
  unfold proceed.
  set (s1 := set_tracker _ s).
  destruct (checkCache_goes_on endpoint o now s1) as (s2 & -> & Hpend & _ & Ht & Hn & Hf & _).
  { exact Hno. }
  unfold joinOrStart. rewrite Hpend. simpl. rewrite Hp. simpl.
  rewrite Hf, Hpend, Ht, Hn. done.
Qed.

(** C1, as the code has it. When a call reaches the deduplication check (it
    is not answered by the throttle block or by a fresh cache entry) while a
    request with its cache key is registered as pending, the call invokes no
    transport, leaves the registration as it is, and returns the registered
    promise, the one the first caller holds; so at every later moment both
    callers have settled alike: both not yet, both with the same value, or
    both with the same rejection. *)
Theorem concurrent_call_joins_pending (s : State) (endpoint : string)
    (o : Options) (now : Z) (p : nat) :
  pendingRequests s !! cacheKeyOf endpoint o = Some p →
  requestTracker.isThrottled endpoint (tracker s) = false ∨ priority o = "high" →
  noFreshEntry endpoint o now s →
  (optimizedRequest endpoint o now s).2 = Follows p ∧
  fetchLog (optimizedRequest endpoint o now s).1 = fetchLog s ∧
  pendingRequests (optimizedRequest endpoint o now s).1 = pendingRequests s ∧
  ∀ later : State,
    settlement (optimizedRequest endpoint o now s).2 later
      = settlement (Follows p) later.
Proof.
  intros Hp Hgate Hno.
  destruct (joins_registered endpoint o now s p Hp Hgate Hno) as (Hout & Hf & Hpend & _).
  rewrite Hout. done.
Qed.

Lemma concurrent_call_joins_pending_witness :
  (optimizedRequest "/items" defaultOptions 10005 oneInFlight).2 = Follows 0 ∧
  length (fetchLog (optimizedRequest "/items" defaultOptions 10005 oneInFlight).1) = 1%nat.
Proof.
  destruct (concurrent_call_joins_pending oneInFlight "/items" defaultOptions 10005 0)
    as (Hout & Hlog & _).
  - vm_compute. reflexivity.
  - left. vm_compute. reflexivity.
  - intros entry _ _ He. vm_compute in He. discriminate.
  - split; [exact Hout|]. rewrite Hlog. vm_compute. reflexivity.
Defined.

(** C1, as stated, fails. First, the request of the first of eleven quick
    calls is registered as pending and the endpoint has become throttled; a
    further call with the same key and low priority rejects with the
    throttled error, and when the transport answers, the first caller's
    promise resolves. Second, a call that bypasses the cache has its request
    registered as pending while the cache holds a fresh entry for the key; a
    call with the same key that does not bypass the cache gets the cached
    value, and the first caller gets the new answer. *)
Lemma throttled_caller_does_not_join :
  (let second :=
     optimizedRequest "/items" (withPriority "low" defaultOptions) 10020 afterBurst in
   let final := fetchDone 0 (ROk (JStr "items")) 10030 second.1 in
   cacheKeyOf "/items" (withPriority "low" defaultOptions)
     = cacheKeyOf "/items" defaultOptions ∧
   pendingRequests afterBurst !! cacheKeyOf "/items" defaultOptions = Some 0%nat ∧
   settlement (Follows 0) final = Some (Resolved (JStr "items")) ∧
   settlement second.2 final = Some (Rejected (throttledMessage "/items")))
  ∧
  (let first := optimizedRequest "/items" bypassing 10100 cachedItems in
   let second := optimizedRequest "/items" shortLived 10105 first.1 in
   let final := fetchDone 1 (ROk (JStr "v2")) 10150 second.1 in
   cacheKeyOf "/items" bypassing = cacheKeyOf "/items" shortLived ∧
   first.2 = Follows 1 ∧
   pendingRequests first.1 !! cacheKeyOf "/items" shortLived = Some 1%nat ∧
   settlement first.2 final = Some (Resolved (JStr "v2")) ∧
   settlement second.2 final = Some (Resolved (JStr "v1"))).
Proof. vm_compute. repeat split. Qed.

(** A successful answer to a request whose method is not GET leaves the
    cache as it is. *)
Lemma fetchDone_caches_GET_only p d now s t :
  tasks s !! p = Some t →
  method (taskOptions t) ≠ "GET" →
  requestCache (fetchDone p (ROk d) now s) = requestCache s.
Proof.
  intros Ht Hm. unfold fetchDone. rewrite Ht.
  destruct (awaiting t); [|done].
  rewrite (bool_decide_eq_false_2 _ Hm). unfold finallyBlock.
  destruct (decide _); reflexivity.
Qed.

(** C10, as the code has it. The deduplication check does not look at the
    method: a call with any method that reaches the check (for a method
    other than GET that means only that the throttle block does not answer
    it) while a request with its key is registered as pending returns the
    promise of that request and invokes no transport; and a successful
    answer to a request whose method is not GET is not written to the
    cache. *)
Theorem dedup_for_every_method (s : State) (endpoint : string) (o : Options)
    (now : Z) (p : nat) :
  pendingRequests s !! cacheKeyOf endpoint o = Some p →
  requestTracker.isThrottled endpoint (tracker s) = false ∨ priority o = "high" →
  (method o = "GET" → noFreshEntry endpoint o now s) →
  ((optimizedRequest endpoint o now s).2 = Follows p ∧
   fetchLog (optimizedRequest endpoint o now s).1 = fetchLog s ∧
   pendingRequests (optimizedRequest endpoint o now s).1 = pendingRequests s)
  ∧ (method o ≠ "GET" →
     ∀ (later : State) (t : Task) (d : json) (now' : Z),
       tasks later !! p = Some t → taskOptions t = o →
       requestCache (fetchDone p (ROk d) now' later) = requestCache later).
Proof.
  intros Hp Hgate Hget. split.
  - assert (Hno : noFreshEntry endpoint o now s).
    { intros entry Hb Hm. by apply Hget. }
    destruct (joins_registered endpoint o now s p Hp Hgate Hno) as (? & ? & ? & _).
    done.
  - intros Hm later t d now' Ht Ho. eapply fetchDone_caches_GET_only; [exact Ht|].
    rewrite Ho. exact Hm.
Qed.

Lemma dedup_for_every_method_witness :
  (optimizedRequest "/notes" postOptions 10005 postInFlight).2 = Follows 0 ∧
  requestCache (fetchDone 0 (ROk (JStr "created")) 10040 postInFlight) = ∅.
Proof.
  destruct (dedup_for_every_method postInFlight "/notes" postOptions 10005 0)
    as ((Hout & _) & Hcache).
  - vm_compute. reflexivity.
  - left. vm_compute. reflexivity.
  - intros Hm. vm_compute in Hm. discriminate.
  - split; [exact Hout|].
    rewrite (Hcache ltac:(discriminate) postInFlight
               {| taskEndpoint := "/notes"; taskOptions := postOptions;
                  taskKey := cacheKeyOf "/notes" postOptions;
                  retryAttempt := 0; awaiting := AwaitFetch |}).
    + vm_compute. reflexivity.
    + vm_compute. reflexivity.
    + reflexivity.
Defined.

(** C10, as stated, fails. The first of eleven quick POST calls is pending
    and the endpoint has become throttled. A further identical POST with the
    default (normal) priority arrives and is paused for 2 s; the first
    request resolves meanwhile; when the pause is over the call finds no
    pending request and no cache entry and sends the POST a second time, and
    the two callers get the two answers. The same POST with low priority is
    rejected at once with the throttled error. *)
Lemma throttled_POST_does_not_join :
  (let second := optimizedRequest "/notes" postOptions 10020 afterPostBurst in
   let answered := fetchDone 0 (ROk (JStr "created")) 10100 second.1 in
   let resumed := resumeRequest 0 12020 answered in
   let final := fetchDone 1 (ROk (JStr "created again")) 12100 resumed.1 in
   pendingRequests afterPostBurst !! cacheKeyOf "/notes" postOptions = Some 0%nat ∧
   second.2 = Paused 0 ∧
   resumed.2 = Some (Follows 1) ∧
   (fetchRequest <$> fetchLog final) = [0; 1]%nat ∧
   settlement (Follows 0) final = Some (Resolved (JStr "created")) ∧
   settlement (Follows 1) final = Some (Resolved (JStr "created again")))
  ∧
  (let second :=
     optimizedRequest "/notes" (withPriority "low" postOptions) 10020 afterPostBurst in
   let final := fetchDone 0 (ROk (JStr "created")) 10030 second.1 in
   cacheKeyOf "/notes" (withPriority "low" postOptions) = cacheKeyOf "/notes" postOptions ∧
   settlement (Follows 0) final = Some (Resolved (JStr "created")) ∧
   settlement second.2 final = Some (Rejected (throttledMessage "/notes"))).
Proof. vm_compute. repeat split. Qed.

(** *** The pending entry during retries *)

(** The start of the first retry, in general: the [finally] block of attempt 0
    deletes the pending entry of the key while the request goes on with
    attempt 1 and its promise stays as it was. *)
Lemma first_retry_deletes_pending_entry (s : State) (p : nat) (t : Task) (due now : Z) :
  tasks s !! p = Some t →
  awaiting t = AwaitRetry due →
  (due ≤ now)%Z →
  retryAttempt t = 0 →
  pendingRequests (retryTimer p now s) !! taskKey t = None ∧
  settled (retryTimer p now s) = settled s ∧
  (retryAttempt <$> tasks (retryTimer p now s) !! p) = Some 1.
Proof.
  intros Ht Hw Hdue H0. unfold retryTimer. rewrite Ht, Hw.
  destruct (decide (due ≤ now)%Z); [|done].
  unfold finallyBlock. rewrite decide_True by (by right). simpl.
  split; [apply lookup_delete_eq|]. split; [done|].
  rewrite lookup_insert_eq. simpl. by rewrite H0.
Qed.

(** C2 on the code. While the first attempt waits for its retry the pending
    entry is in place. When the retry starts, the [finally] block of the
    first attempt deletes the entry although the request has not reached its
    terminal outcome: its second attempt is in flight and its promise is
    unsettled. A caller with the same key that arrives now starts a second
    request with a transport invocation of its own, and the two callers end
    with different results. *)
Lemma pending_entry_deleted_at_first_retry :
  let waiting :=
    (run [(10000, Call "/items" defaultOptions);
          (10050, FetchDone 0 (RFail "Failed to fetch"))] (initialState 9000)).1 in
  let second := optimizedRequest "/items" defaultOptions 11060 afterFirstRetry in
  let final :=
    fetchDone 1 (ROk (JStr "new")) 11200
      (fetchDone 0 (ROk (JStr "old")) 11100 second.1) in
  pendingRequests waiting !! itemsKey = Some 0%nat ∧
  pendingRequests afterFirstRetry !! itemsKey = None ∧
  settled afterFirstRetry !! 0%nat = None ∧
  (retryAttempt <$> tasks afterFirstRetry !! 0%nat) = Some 1 ∧
  second.2 = Follows 1 ∧
  (fetchRequest <$> fetchLog second.1) = [0; 0; 1]%nat ∧
  settlement (Follows 0) final = Some (Resolved (JStr "old")) ∧
  settlement second.2 final = Some (Resolved (JStr "new")).
Proof. vm_compute. repeat split. Qed.

End DedupFacts.

(** ** The response cache *)

Module CacheFacts.
Import Json RequestManager RequestNotions RequestScenarios ThrottleFacts DedupFacts.

(** A successful answer to a running attempt of a GET request is stored
    under the key of the request, stamped with the time of the answer. *)
Lemma fetchDone_stores_GET p d now s t :
  tasks s !! p = Some t →
  awaiting t = AwaitFetch →
  method (taskOptions t) = "GET" →
  requestCache (fetchDone p (ROk d) now s) !! taskKey t
    = Some {| data := d; timestamp := now |}.
Proof.
  intros Ht Hw Hm. unfold fetchDone. rewrite Ht, Hw.
  rewrite (bool_decide_eq_true_2 _ Hm). unfold finallyBlock.
  destruct (decide _); simpl; apply lookup_insert_eq.
Qed.

(** C3, as the code has it. Take a GET call with [bypassCache] false whose
    key has a cache entry. If the entry is younger than the effective TTL the
    cached value is returned, the transport is not invoked and the cache is
    left as it is. If the entry is older, and the throttle block does not
    answer the call (the endpoint is not throttled, or the priority is high),
    the entry is deleted at that lookup; then the call joins a request that
    is pending for its key, or, there being none, invokes the transport for a
    new request, and a successful answer to a running attempt of that request
    is stored in the cache. *)
Theorem cache_lookup_of_GET (s : State) (endpoint : string) (o : Options)
    (now : Z) (entry : CacheEntry) :
  method o = "GET" →
  bypassCache o = false →
  requestCache s !! cacheKeyOf endpoint o = Some entry →
  let key := cacheKeyOf endpoint o in
  let call := optimizedRequest endpoint o now s in
  (now - timestamp entry < effectiveCacheTTL endpoint o →
     call.2 = Returned (data entry) ∧
     fetchLog call.1 = fetchLog s ∧
     requestCache call.1 = requestCache s)
  ∧ ((effectiveCacheTTL endpoint o ≤ now - timestamp entry)%Z →
     requestTracker.isThrottled endpoint (tracker s) = false ∨ priority o = "high" →
     requestCache call.1 !! key = None
     ∧ (∀ p, pendingRequests s !! key = Some p →
             call.2 = Follows p ∧ fetchLog call.1 = fetchLog s)
     ∧ (pendingRequests s !! key = None →
          call.2 = Follows (nextPromise s)
          ∧ fetchLog call.1 =
              (fetchLog s ++ [{| fetchRequest := nextPromise s; fetchAttempt := 0;
                                 fetchEndpoint := endpoint; fetchMethod := "GET" |}])%list
          ∧ ∀ (later : State) (t : Task) (d : json) (now' : Z),
              tasks later !! nextPromise s = Some t →
              taskOptions t = o → taskKey t = key → awaiting t = AwaitFetch →
              requestCache (fetchDone (nextPromise s) (ROk d) now' later) !! key
                = Some {| data := d; timestamp := now' |})).
Proof.
  intros Hm Hb He. cbv zeta. split.
  - intros Hfresh. unfold optimizedRequest.
    destruct (requestTracker.isThrottled endpoint (tracker s)
              && negb (bool_decide (priority o = "high"))).
    + rewrite He. done.
    + unfold proceed, checkCache. rewrite Hb, (bool_decide_eq_true_2 _ Hm). simpl.
      rewrite He.
      destruct (decide (now - timestamp entry < effectiveCacheTTL endpoint o)); [|lia].
      done.
  - intros Hold Hgate.
    rewrite optimizedRequest_past_gate by exact Hgate.
    unfold proceed, checkCache. rewrite Hb, (bool_decide_eq_true_2 _ Hm). simpl.
    rewrite He.
    destruct (decide (now - timestamp entry < effectiveCacheTTL endpoint o)); [lia|].
    unfold joinOrStart. simpl.
    destruct (pendingRequests s !! cacheKeyOf endpoint o) as [p|] eqn:Hp; simpl.
    + split; [apply lookup_delete_eq|]. split; [|done].
      intros p' [= <-]. done.
    + split; [apply lookup_delete_eq|]. split; [done|]. intros _.
      rewrite Hm. split; [done|]. split; [done|].
      intros later t d now' Ht Ho Hk Hw. rewrite <- Hk.
      apply fetchDone_stores_GET; [done|done|]. rewrite Ho. exact Hm.
Qed.

Lemma cache_lookup_of_GET_witness :
  (optimizedRequest "/items" shortLived 10500 cachedItems).2 = Returned (JStr "v1") ∧
  (optimizedRequest "/items" shortLived 12000 cachedItems).2 = Follows 1.
Proof.
  split.
  - apply (cache_lookup_of_GET cachedItems "/items" shortLived 10500
             {| data := JStr "v1"; timestamp := 10001 |});
      vm_compute; reflexivity.
  - pose proof (cache_lookup_of_GET cachedItems "/items" shortLived 12000
                  {| data := JStr "v1"; timestamp := 10001 |}) as H.
    destruct H as [_ H]; [reflexivity|reflexivity|vm_compute; reflexivity|].
    destruct H as (_ & _ & H).
    + vm_compute. discriminate.
    + left. vm_compute. reflexivity.
    + destruct H as [H _]; [vm_compute; reflexivity|exact H].
Defined.

(** C3, as stated, fails. At 12000 the entry stored at 10001 is older than
    its TTL of 1000. First, on the throttled endpoint a GET call of normal
    priority gets the stale value; the entry is not deleted and the
    transport is not invoked. Second, without throttling but with a request
    for the key in flight (started by a call that bypasses the cache), the
    call deletes the entry and joins that request; it does not invoke the
    transport. *)
Lemma stale_entry_served_when_throttled :
  effectiveCacheTTL "/items" shortLived = 1000 ∧
  (let call := optimizedRequest "/items" shortLived 12000 cachedAndThrottled in
   requestCache cachedAndThrottled !! shortKey
     = Some {| data := JStr "v1"; timestamp := 10001 |} ∧
   call.2 = Returned (JStr "v1") ∧
   requestCache call.1 !! shortKey = Some {| data := JStr "v1"; timestamp := 10001 |} ∧
   fetchLog call.1 = fetchLog cachedAndThrottled)
  ∧
  (let first := optimizedRequest "/items" bypassing 12000 cachedItems in
   let call := optimizedRequest "/items" shortLived 12005 first.1 in
   requestCache first.1 !! shortKey
     = Some {| data := JStr "v1"; timestamp := 10001 |} ∧
   requestTracker.isThrottled "/items" (tracker first.1) = false ∧
   call.2 = Follows 1 ∧
   requestCache call.1 !! shortKey = None ∧
   fetchLog call.1 = fetchLog first.1).
Proof. vm_compute. repeat split. Qed.

End CacheFacts.

(** ** [checkConnectionStatus] and the local-mode flag *)

Module HealthFacts.
Import Json RequestManager HealthCheck HealthScenarios.

Lemma statusIsOk_truthy (j : json) : statusIsOk j = true → truthy j = true.
Proof. by destruct j. Qed.

(** X14. [checkConnectionStatus] returns [true] exactly when the URL is
    configured, the health request is answered with an ok status and a
    content type that contains [application/json], and the body is an object
    whose [status] is the string [ok]. Whatever else it returns is falsy. *)
Theorem checkConnectionStatus_true_iff (supabaseUrl : option string)
    (net : FetchOutcome) (localStorage : gmap string string) :
  let result := returned (checkConnectionStatus supabaseUrl net localStorage) in
  (result = JBool true ↔
     ∃ url r ct body,
       supabaseUrl = Some url ∧ url ≠ EmptyString ∧
       net = FetchResponded r ∧ responseOk r = true ∧
       contentType r = Some ct ∧ includes ct "application/json" = true ∧
       jsonBody r = Some body ∧ statusIsOk body = true)
  ∧ (truthy result = true → result = JBool true).
Proof.
  cbv zeta. unfold checkConnectionStatus.
  destruct supabaseUrl as [url|]; simpl.
  2: { split; [|done]. split; [done|]. by intros (? & ? & ? & ? & ? & _). }
  destruct (decide (url = EmptyString)) as [->|Hurl]; simpl.
  { split; [|done]. split; [done|]. intros (? & ? & ? & ? & [= <-] & ? & _). done. }
  destruct net as [|r]; simpl.
  { split; [|done]. split; [done|]. intros (? & ? & ? & ? & _ & _ & ? & _). done. }
  destruct (responseOk r) eqn:Hok; simpl.
  2: { split; [|done]. split; [done|].
       intros (? & r' & ? & ? & _ & _ & [= <-] & Hok' & _). congruence. }
  destruct (contentType r) as [ct|] eqn:Hct; simpl.
  2: { split; [|done]. split; [done|].
       intros (? & r' & ? & ? & _ & _ & [= <-] & _ & Hct' & _). congruence. }
  destruct (includes ct "application/json") eqn:Hjson; simpl.
  2: { split; [|done]. split; [done|].
       intros (? & r' & ct' & ? & _ & _ & [= <-] & _ & Hct' & Hjson' & _). congruence. }
  destruct (jsonBody r) as [body|] eqn:Hbody; simpl.
  2: { split; [|done]. split; [done|].
       intros (? & r' & ? & ? & _ & _ & [= <-] & _ & _ & _ & Hbody' & _). congruence. }
  destruct (truthy body) eqn:Htruthy.
  - split.
    + split.
      * intros [= Hst]. exists url, r, ct, body. split_and!; done.
      * intros (? & r' & ? & body' & _ & _ & [= <-] & _ & _ & _ & Hbody' & Hst).
        assert (body' = body) as -> by congruence. by rewrite Hst.
    + simpl. by intros ->.
  - split.
    + split.
      * intros ->. done.
      * intros (? & r' & ? & body' & _ & _ & [= <-] & _ & _ & _ & Hbody' & Hst).
        assert (body' = body) as -> by congruence.
        apply statusIsOk_truthy in Hst. congruence.
    + congruence.
Qed.

Lemma checkConnectionStatus_true_iff_witness :
  returned (checkConnectionStatus (Some projectUrl) (FetchResponded healthy) ∅)
  = JBool true.
Proof.
  destruct (checkConnectionStatus_true_iff (Some projectUrl) (FetchResponded healthy) ∅)
    as [[_ H] _].
  apply H. exists projectUrl, healthy, "application/json; charset=utf-8",
    (JObj [("status", JStr "ok")]).
  split; [reflexivity|]. split; [discriminate|]. split; [reflexivity|].
  split; [reflexivity|]. split; [reflexivity|]. split; [vm_compute; reflexivity|].
  split; [reflexivity|vm_compute; reflexivity].
Defined.

(** X15. The only way [checkConnectionStatus] touches the local storage: an
    answer that is not ok and has status 401 stores [false] under
    [forceSupabaseConnection], so that [checkLocalMode] is true afterwards;
    every other outcome leaves the storage as it was. *)
Theorem unauthorized_switches_to_local_mode (supabaseUrl : option string)
    (net : FetchOutcome) (localStorage : gmap string string) :
  let after := storage (checkConnectionStatus supabaseUrl net localStorage) in
  let unauthorized :=
    ∃ url r, supabaseUrl = Some url ∧ url ≠ EmptyString ∧ net = FetchResponded r ∧
             responseOk r = false ∧ responseStatus r = 401 in
  (unauthorized →
     after = <["forceSupabaseConnection" := "false"]> localStorage ∧
     checkLocalMode after = true ∧
     returned (checkConnectionStatus supabaseUrl net localStorage) = JBool false)
  ∧ (¬ unauthorized → after = localStorage).
Proof.
  cbv zeta. split.
  - intros (url & r & -> & Hurl & -> & Hok & H401). unfold checkConnectionStatus.
    destruct (decide (url = EmptyString)); [done|]. rewrite Hok. simpl.
    destruct (decide (responseStatus r = 401)); [|done].
    split; [done|]. split; [|done].
    unfold checkLocalMode. by rewrite lookup_insert_eq.
  - intros Hno. unfold checkConnectionStatus.
    destruct supabaseUrl as [url|]; [|done].
    destruct (decide (url = EmptyString)); [done|].
    destruct net as [|r]; [done|].
    destruct (responseOk r) eqn:Hok; simpl.
    + destruct (contentType r); [|done].
      destruct (includes _ _); [|done]. by destruct (jsonBody r).
    + destruct (decide (responseStatus r = 401)); [|done].
      exfalso. apply Hno. by exists url, r.
Qed.

Lemma unauthorized_switches_to_local_mode_witness :
  checkLocalMode
    (storage (checkConnectionStatus (Some projectUrl) (FetchResponded unauthorized) ∅))
  = true.
Proof.
  destruct (unauthorized_switches_to_local_mode (Some projectUrl)
              (FetchResponded unauthorized) ∅) as [H _].
  apply H. exists projectUrl, unauthorized. split; [reflexivity|].
  split; [discriminate|]. split; [reflexivity|]. split; reflexivity.
Defined.

End HealthFacts.

(** ** Health requests through the client *)

Module ClientHealthFacts.
Import Json RequestManager HealthCheck HealthScenarios ClientHealth.

(** What [checkConnectionStatus] returns is [true] or falsy. *)
Lemma returned_true_or_falsy supabaseUrl net localStorage :
  let v := returned (checkConnectionStatus supabaseUrl net localStorage) in
  truthy v = true → v = JBool true.
Proof.
  cbv zeta. unfold checkConnectionStatus.
  destruct supabaseUrl as [url|]; [|done].
  destruct (decide (url = EmptyString)); [done|].
  destruct net as [|r]; [done|].
  destruct (responseOk r); [|done]. simpl.
  destruct (contentType r) as [ct|]; [|done].
  destruct (includes ct "application/json"); [|done].
  destruct (jsonBody r) as [body|]; [|done]. simpl.
  destruct (truthy body) eqn:Hb; [|congruence].
  simpl. by intros ->.
Qed.

(** X26. A health request through the client, when no check is in progress
    and [connectionStatus] holds no verdict younger than five minutes, runs
    [checkConnectionStatus]; a second health request made meanwhile waits
    instead of checking. The answer has status 200 when the check has
    returned [true] and 503 otherwise, and [checkInProgress] is cleared. A
    verdict other than [null] then answers the health requests of the next
    five minutes without a check; a verdict [null] is not served: the next
    health request checks again. *)
Theorem client_health_request (st : Status) (now done later : Z)
    (supabaseUrl : option string) (net : FetchOutcome)
    (localStorage : gmap string string) :
  checkInProgress st = false →
  (5 * 60 * 1000 ≤ now - lastChecked st)%Z ∨ isConnected st = JNull →
  let verdict := returned (checkConnectionStatus supabaseUrl net localStorage) in
  let started := healthRequest now st in
  let ended := afterCheck verdict done started.1 in
  started.2 = Checking
  ∧ (healthRequest now started.1).2 = Waiting
  ∧ checkInProgress ended.1 = false
  ∧ (verdict = JBool true → mockStatus ended.2 = 200)
  ∧ (verdict ≠ JBool true → mockStatus ended.2 = 503)
  ∧ (verdict ≠ JNull → later - done < 5 * 60 * 1000 →
     healthRequest later ended.1 = (ended.1, Answered ended.2))
  ∧ (verdict = JNull →
     healthRequest later ended.1
     = ({| lastChecked := done; isConnected := JNull; checkInProgress := true |},
        Checking)).
Proof.
  intros Hflag Hold. cbv zeta.
  assert (Hmiss : bool_decide (now - lastChecked st < 5 * 60 * 1000)
                  && notNull (isConnected st) = false).
  { destruct Hold as [Hold| ->]; [|by rewrite andb_false_r].
    by rewrite bool_decide_eq_false_2 by lia. }
  unfold healthRequest at 1 3. rewrite Hmiss, Hflag. simpl.
  split; [done|]. split.
  { unfold healthRequest. simpl. by rewrite Hmiss. }
  split; [done|]. split.
  { intros Heq. simpl. by rewrite Heq. }
  split.
  { intros Hne. simpl.
    pose proof (returned_true_or_falsy supabaseUrl net localStorage) as Htrue.
    cbv zeta in Htrue.
    destruct (truthy (returned _)); [|done]. destruct Hne. by apply Htrue. }
  split.
  - intros Hnotnull Hlater. unfold healthRequest, afterCheck. simpl.
    rewrite bool_decide_eq_true_2 by lia.
    by destruct (returned (checkConnectionStatus supabaseUrl net localStorage)).
  - intros ->. unfold healthRequest, afterCheck. simpl. by rewrite andb_false_r.
Qed.

Lemma client_health_request_witness :
  mockStatus
    (afterCheck (returned (checkConnectionStatus (Some projectUrl)
                             (FetchResponded healthy) ∅))
       2000 (healthRequest 1000 {| lastChecked := 0; isConnected := JNull;
                                   checkInProgress := false |}).1).2 = 200.
Proof.
  destruct (client_health_request
              {| lastChecked := 0; isConnected := JNull; checkInProgress := false |}
              1000 2000 3000 (Some projectUrl) (FetchResponded healthy) ∅)
    as (_ & _ & _ & H & _).
  - reflexivity.
  - right. reflexivity.
  - apply H. vm_compute. reflexivity.
Defined.

End ClientHealthFacts.

(** ** The connection prober *)

Module ProberFacts.
Import Json HealthCheck Supabase ProbeNotions ProbeScenarios.
Import ClientHealthFacts.

Lemma trueOrFalsy_bool (b : bool) : trueOrFalsy (JBool b).
Proof. destruct b; [by left|by right]. Qed.

Lemma trueOrFalsy_returned supabaseUrl net localStorage :
  trueOrFalsy (returned (checkConnectionStatus supabaseUrl net localStorage)).
Proof.
  pose proof (returned_true_or_falsy supabaseUrl net localStorage) as H.
  cbv zeta in H. unfold trueOrFalsy.
  destruct (truthy (returned _)); [left; by apply H|by right].
Qed.

Lemma wellFormed_initial : wellFormed initialState.
Proof.
  split; simpl; intros *; try (rewrite lookup_empty; discriminate);
    try done; try set_solver.
  by right.
Qed.

Lemma wellFormed_resolve c v s :
  wellFormed s → (c < nextCaller s)%nat → trueOrFalsy v →
  wellFormed (resolve c v s).
Proof.
  intros [] Hc Hv. split; simpl.
  - intros c0 ph [_ ?]%lookup_delete_Some. eauto.
  - intros c0 v0 [[-> _]|[_ ?]]%lookup_insert_Some; eauto.
  - eauto.
  - intros c0 ph [_ ?]%lookup_delete_Some. eauto.
  - intros c0 c' ph ph' [_ ?]%lookup_delete_Some ? [_ ?]%lookup_delete_Some ?. eauto.
  - intros Hh. destruct (wf_health0 Hh) as [? Hall]. split; [done|].
    intros c0 ph [_ ?]%lookup_delete_Some. eauto.
  - done.
  - intros c0 v0 [[_ <-]|[_ ?]]%lookup_insert_Some; eauto.
Qed.

Lemma wellFormed_conclude c now b s ph :
  wellFormed s → callers s !! c = Some ph → probing ph →
  wellFormed (conclude c now b s).
Proof.
  intros [] Hc Hph. split; simpl.
  - intros c0 ph0 [_ ?]%lookup_delete_Some. eauto.
  - intros c0 v0 [[-> _]|[_ ?]]%lookup_insert_Some; eauto.
  - eauto.
  - intros c0 ph0 [Hne ?]%lookup_delete_Some Hp. destruct Hne. eauto.
  - intros c0 c' ph0 ph' [_ ?]%lookup_delete_Some ? [_ ?]%lookup_delete_Some ?. eauto.
  - intros Hh. destruct (wf_health0 Hh) as [_ Hall]. destruct Hph. eauto.
  - apply trueOrFalsy_bool.
  - intros c0 v0 [[_ <-]|[_ ?]]%lookup_insert_Some; [apply trueOrFalsy_bool|eauto].
Qed.

Lemma wellFormed_suspend_next c ph ph' sent s :
  wellFormed s → callers s !! c = Some ph → probing ph → probing ph' →
  wellFormed (suspend c ph' sent s).
Proof.
  intros [] Hc Hph Hph'. split; simpl.
  - intros c0 ph0 [[<- _]|[_ ?]]%lookup_insert_Some; eauto.
  - eauto.
  - intros c0 r [?|Hin]%elem_of_app; [eauto|].
    apply list_elem_of_fmap in Hin as (? & [= -> _] & _). eauto.
  - intros c0 ph0 [[<- _]|[_ ?]]%lookup_insert_Some ?; eauto.
  - intros c0 c' ph0 ph1 [[<- _]|[_ ?]]%lookup_insert_Some ?
      [[<- _]|[_ ?]]%lookup_insert_Some ?; eauto.
  - intros Hh. destruct (wf_health0 Hh) as [_ Hall]. destruct Hph. eauto.
  - done.
  - eauto.
Qed.

Lemma wellFormed_call isBrowser forceCheck now s :
  wellFormed s → wellFormed (checkSupabaseConnection isBrowser forceCheck now s).
Proof.
  intros Hwf. unfold checkSupabaseConnection.
  set (s0 := {| connectionStatus := connectionStatus s; callers := callers s;
                nextCaller := S (nextCaller s); results := results s;
                requestLog := requestLog s; healthCheck := healthCheck s |}).
  assert (Hwf0 : wellFormed s0).
  { destruct Hwf. split; simpl; eauto using Nat.lt_lt_succ_r. }
  destruct isBrowser; simpl.
  2: { apply wellFormed_resolve; [done|simpl; lia|apply trueOrFalsy_bool]. }
  destruct (checkInProgress (connectionStatus s)) eqn:Hflag.
  { destruct Hwf0. split; simpl in *.
    - intros c ph [[<- _]|[_ ?]]%lookup_insert_Some; eauto.
    - eauto.
    - intros c r. rewrite app_nil_r. eauto.
    - intros c ph [[_ <-]|[_ ?]]%lookup_insert_Some Hp; [by destruct Hp|eauto].
    - intros c c' ph ph' [[_ <-]|[_ ?]]%lookup_insert_Some Hp;
        [by destruct Hp|].
      intros [[_ <-]|[_ ?]]%lookup_insert_Some Hp'; [by destruct Hp'|eauto].
    - intros Hh. destruct (wf_health0 Hh) as [_ Hall]. split; [done|].
      intros c ph [[_ <-]|[_ ?]]%lookup_insert_Some; eauto.
    - done.
    - eauto. }
  destruct (negb forceCheck && _ && notNull (isConnected (connectionStatus s)))
    eqn:Hcached.
  { apply wellFormed_resolve; [done|simpl; lia|]. apply (wf_status s Hwf). }
  assert (Hpoll : ∀ c ph, callers s !! c = Some ph → ph = Polling).
  { intros c ph Hc. destruct ph; [done| | |];
      (rewrite (wf_flag s Hwf c _ Hc) in Hflag; [discriminate|done]). }
  destruct Hwf0. split; simpl in *.
  - intros c ph [[<- _]|[_ ?]]%lookup_insert_Some; eauto.
  - eauto.
  - intros c r [?|Hin]%elem_of_app; [eauto|].
    apply list_elem_of_singleton in Hin as [= -> _]. lia.
  - done.
  - intros c c' ph ph' [[<- _]|[_ Hc]]%lookup_insert_Some Hp
      [[<- _]|[_ Hc']]%lookup_insert_Some Hp'; try done.
    + apply Hpoll in Hc'. by destruct Hp'.
    + apply Hpoll in Hc. by destruct Hp.
    + apply Hpoll in Hc. by destruct Hp.
  - intros Hh. destruct (wf_health0 Hh) as [Hf _]. congruence.
  - done.
  - eauto.
Qed.


Lemma wellFormed_healthRequest now s :
  wellFormed s → wellFormed (healthRequestArrives now s).
Proof.
  intros Hwf. unfold healthRequestArrives, healthRequest.
  destruct (bool_decide _ && notNull _).
  { destruct Hwf. split; simpl; eauto. }
  destruct (checkInProgress (connectionStatus s)) eqn:Hflag.
  { destruct Hwf. split; simpl; eauto. }
  assert (Hpoll : ∀ c ph, callers s !! c = Some ph → ph = Polling).
  { intros c ph Hc. destruct ph; [done| | |];
      (rewrite (wf_flag s Hwf c _ Hc) in Hflag; [discriminate|done]). }
  destruct Hwf. split; simpl; eauto.
Qed.

Lemma wellFormed_healthCheck supabaseUrl net now s :
  wellFormed s → wellFormed (healthCheckReturns supabaseUrl net now s).
Proof.
  intros Hwf. unfold healthCheckReturns.
  destruct (healthCheck s) eqn:Hh; [|done].
  destruct (wf_health s Hwf Hh) as [_ Hall].
  destruct Hwf. split; simpl; eauto.
  apply trueOrFalsy_returned.
Qed.

Lemma wellFormed_step e s : wellFormed s → wellFormed (step e s).
Proof.
  intros Hwf. destruct e as [isBrowser forceCheck now|c|c r|c r|c ok|now|url net now];
    simpl.
  - by apply wellFormed_call.
  - unfold tick. destruct (callers s !! c) as [[]|] eqn:Hc; try done.
    destruct (checkInProgress (connectionStatus s)) eqn:Hflag; [done|].
    apply wellFormed_resolve; [done|by eapply wf_callers|apply (wf_status s Hwf)].
  - unfold resourcesResult. destruct (callers s !! c) as [[]|] eqn:Hc; try done.
    destruct r as [|[e|]].
    + by eapply wellFormed_suspend_next.
    + destruct (isRelationMissing e).
      * by eapply wellFormed_conclude.
      * by eapply wellFormed_suspend_next.
    + by eapply wellFormed_conclude.
  - unfold dummyResult. destruct (callers s !! c) as [[]|] eqn:Hc; try done.
    destruct r as [|[e|]].
    + by eapply wellFormed_conclude.
    + destruct (isRelationMissing e); [by eapply wellFormed_conclude|].
      destruct (isNotFound e).
      * by eapply wellFormed_suspend_next.
      * by eapply wellFormed_conclude.
    + by eapply wellFormed_conclude.
  - unfold authResult. destruct (callers s !! c) as [[]|] eqn:Hc; try done.
    by eapply wellFormed_conclude.
  - by apply wellFormed_healthRequest.
  - by apply wellFormed_healthCheck.
Qed.

Lemma reachable_wellFormed s : reachable s → wellFormed s.
Proof.
  induction 1; [apply wellFormed_initial|by apply wellFormed_step].
Qed.

(** *** Without health requests *)

Lemma proberOnly_initial : proberOnly initialState.
Proof.
  split; simpl; [done|by left| |]; intros *; rewrite lookup_empty; discriminate.
Qed.

Lemma proberOnly_resolve c (b : bool) s :
  proberOnly s → proberOnly (resolve c (JBool b) s).
Proof.
  intros [H1 H2 H3 H4]. split; simpl; [done|done| |].
  - intros c0 v0 [[_ <-]|[_ ?]]%lookup_insert_Some; eauto.
  - intros c0 [_ ?]%lookup_delete_Some. eauto.
Qed.

Lemma proberOnly_conclude c now b s :
  proberOnly s → proberOnly (conclude c now b s).
Proof.
  intros [H1 H2 H3 H4]. split; simpl; [done|right; by exists b| |].
  - intros c0 v0 [[_ <-]|[_ ?]]%lookup_insert_Some; eauto.
  - intros c0 _. by right.
Qed.

Lemma proberOnly_suspend_next c ph sent s :
  proberOnly s → probing ph → proberOnly (suspend c ph sent s).
Proof.
  intros [H1 H2 H3 H4] Hph. split; simpl; [done|done|done|].
  intros c0 [[_ ?]|[_ ?]]%lookup_insert_Some; [by destruct Hph|eauto].
Qed.

Lemma proberOnly_step e s :
  isHealthRequest e = false → proberOnly s → proberOnly (step e s).
Proof.
  intros He Hpo.
  destruct e as [isBrowser forceCheck now|c|c r|c r|c ok|now|url net now];
    [| | | | |done|]; simpl.
  - unfold checkSupabaseConnection.
    set (s0 := {| connectionStatus := connectionStatus s; callers := callers s;
                  nextCaller := S (nextCaller s); results := results s;
                  requestLog := requestLog s; healthCheck := healthCheck s |}).
    assert (Hpo0 : proberOnly s0) by (by destruct Hpo).
    destruct isBrowser; simpl; [|by apply proberOnly_resolve].
    destruct (checkInProgress (connectionStatus s)) eqn:Hflag.
    { destruct Hpo0 as [H1 H2 H3 H4]. split; simpl in *; [done|done|done|].
      intros c _. by left. }
    destruct (negb forceCheck && _ && notNull (isConnected (connectionStatus s)))
      eqn:Hcached.
    { apply andb_prop in Hcached as [_ Hnn].
      destruct (po_status s Hpo) as [Hnull|[b Hb]].
      - rewrite Hnull in Hnn. discriminate.
      - rewrite Hb. by apply proberOnly_resolve. }
    destruct Hpo0 as [H1 H2 H3 H4]. split; simpl in *; [done|done|done|].
    intros c _. by left.
  - unfold tick. destruct (callers s !! c) as [[]|] eqn:Hc; try done.
    destruct (checkInProgress (connectionStatus s)) eqn:Hflag; [done|].
    destruct (po_status s Hpo) as [Hnull|[b Hb]].
    + destruct (po_waiting s Hpo c Hc); congruence.
    + rewrite Hb. by apply proberOnly_resolve.
  - unfold resourcesResult. destruct (callers s !! c) as [[]|] eqn:Hc; try done.
    destruct r as [|[e|]].
    + by apply proberOnly_suspend_next.
    + destruct (isRelationMissing e);
        [by apply proberOnly_conclude|by apply proberOnly_suspend_next].
    + by apply proberOnly_conclude.
  - unfold dummyResult. destruct (callers s !! c) as [[]|] eqn:Hc; try done.
    destruct r as [|[e|]].
    + by apply proberOnly_conclude.
    + destruct (isRelationMissing e); [by apply proberOnly_conclude|].
      destruct (isNotFound e);
        [by apply proberOnly_suspend_next|by apply proberOnly_conclude].
    + by apply proberOnly_conclude.
  - unfold authResult. destruct (callers s !! c) as [[]|] eqn:Hc; try done.
    by apply proberOnly_conclude.
  - unfold healthCheckReturns. by rewrite (po_health s Hpo).
Qed.

Lemma run_probe_cons e evs s : run (e :: evs) s = run evs (step e s).
Proof. reflexivity. Qed.

Lemma proberOnly_run evs s :
  Forall (λ e, isHealthRequest e = false) evs → proberOnly s → proberOnly (run evs s).
Proof.
  intros Hevs. revert s. induction Hevs as [|e evs He _ IH]; intros s Hpo; [done|].
  rewrite run_probe_cons. apply IH. by apply proberOnly_step.
Qed.

(** *** The verdict of a probe *)

Lemma conclude_facts c now b s :
  results (conclude c now b s) !! c = Some (JBool b)
  ∧ connectionStatus (conclude c now b s)
    = {| lastChecked := now; isConnected := JBool b; checkInProgress := false |}
  ∧ callers (conclude c now b s) !! c = None.
Proof.
  unfold conclude, resolve. cbn [results connectionStatus callers].
  by rewrite lookup_insert_eq, lookup_delete_eq.
Qed.

Lemma suspend_caller c ph sent s : callers (suspend c ph sent s) !! c = Some ph.
Proof. unfold suspend. cbn [callers]. by rewrite lookup_insert_eq. Qed.

(** The answers that come for a call that has returned change nothing. *)
Lemma answers_after_return c s :
  callers s !! c = None →
  (∀ r, dummyResult c r s = s) ∧ (∀ ok, authResult c ok s = s).
Proof. intros Hc. unfold dummyResult, authResult. by rewrite Hc. Qed.

(** The fallback query and what follows it. *)
Lemma fallback_concludes c now r2 auth s :
  callers s !! c = Some (AwaitDummy now) →
  let s' := authResult c auth (dummyResult c r2 s) in
  results s' !! c = Some (JBool (connects r2 || (notFound r2 && auth))) ∧
  connectionStatus s' =
    {| lastChecked := now;
       isConnected := JBool (connects r2 || (notFound r2 && auth));
       checkInProgress := false |}.
Proof.
  intros Hc. cbv zeta. unfold dummyResult. rewrite Hc.
  assert (Hdone : ∀ b s0, s0 = conclude c now b s →
            results (authResult c auth s0) !! c = Some (JBool b) ∧
            connectionStatus (authResult c auth s0)
            = {| lastChecked := now; isConnected := JBool b; checkInProgress := false |}).
  { intros b s0 ->. destruct (conclude_facts c now b s) as (Hr & Hs & Hcs).
    destruct (answers_after_return c _ Hcs) as [_ ->]. done. }
  destruct r2 as [|[e2|]]; cbn [connects notFound].
  - by apply Hdone.
  - destruct (isRelationMissing e2); [by apply Hdone|]. cbn [orb].
    destruct (isNotFound e2); cbn [andb]; [|by apply Hdone].
    unfold authResult. rewrite suspend_caller.
    destruct (conclude_facts c now auth (suspend c (AwaitAuth now) [GetSession] s))
      as (Hr & Hs & _). done.
  - by apply Hdone.
Qed.

Lemma probe_concludes (s : State) (forceCheck : bool) (now : Z)
    (r1 r2 : QueryResult) (auth : bool) :
  checkInProgress (connectionStatus s) = false →
  forceCheck = true ∨ (5 * 60 * 1000 ≤ now - lastChecked (connectionStatus s))%Z
    ∨ isConnected (connectionStatus s) = JNull →
  let c := nextCaller s in
  let s' := run [CallCheck true forceCheck now; ResourcesResult c r1;
                 DummyResult c r2; AuthResult c auth] s in
  results s' !! c = Some (JBool (verdict r1 r2 auth)) ∧
  connectionStatus s' =
    {| lastChecked := now; isConnected := JBool (verdict r1 r2 auth);
       checkInProgress := false |}.
Proof.
  intros Hflag Hprobe. cbv zeta.
  change (run [CallCheck true forceCheck now; ResourcesResult (nextCaller s) r1;
               DummyResult (nextCaller s) r2; AuthResult (nextCaller s) auth] s)
    with (authResult (nextCaller s) auth
            (dummyResult (nextCaller s) r2
               (resourcesResult (nextCaller s) r1
                  (checkSupabaseConnection true forceCheck now s)))).
  set (c := nextCaller s).
  assert (Hstart : ∃ s1, checkSupabaseConnection true forceCheck now s
                         = suspend c (AwaitResources now) [SelectResources] s1).
  { unfold checkSupabaseConnection. cbn [negb]. rewrite Hflag.
    assert (negb forceCheck
            && bool_decide (now - lastChecked (connectionStatus s) < 5 * 60 * 1000)
            && notNull (isConnected (connectionStatus s)) = false) as ->.
    { destruct Hprobe as [->|[Hold|Hnone]]; [done| |].
      - rewrite (bool_decide_eq_false_2 (now - _ < _)) by lia. by rewrite andb_false_r.
      - rewrite Hnone. by rewrite andb_false_r. }
    eexists. reflexivity. }
  destruct Hstart as [s1 ->].
  unfold resourcesResult. rewrite suspend_caller.
  set (s2 := suspend c (AwaitResources now) [SelectResources] s1).
  assert (Hdone : ∀ s0, s0 = conclude c now true s2 →
            results (authResult c auth (dummyResult c r2 s0)) !! c = Some (JBool true) ∧
            connectionStatus (authResult c auth (dummyResult c r2 s0))
            = {| lastChecked := now; isConnected := JBool true;
                 checkInProgress := false |}).
  { intros s0 ->. destruct (conclude_facts c now true s2) as (Hr & Hs & Hcs).
    destruct (answers_after_return c _ Hcs) as [-> ->]. done. }
  unfold verdict.
  destruct r1 as [|[e1|]]; cbn [connects].
  - cbn [orb]. apply fallback_concludes, suspend_caller.
  - destruct (isRelationMissing e1); cbn [orb]; [by apply Hdone|].
    apply fallback_concludes, suspend_caller.
  - by apply Hdone.
Qed.

(** C8, as the code has it. A call of [checkSupabaseConnection] that has
    returned has returned [true] or a falsy value, and it has returned a
    boolean as long as no health request has gone through the client, whose
    health branch stores in [connectionStatus.isConnected] whatever
    [checkConnectionStatus] returns. A probe concludes [true] when the query
    on [resources] succeeds or fails with code 42P01; after any other
    answer to that query, and also after an exception in it, the fallback
    query decides: [true] when it succeeds or fails with 42P01, [true] when
    it fails with a 404 and the session request then succeeds, and [false]
    when it fails otherwise or throws. Every branch records that verdict in
    [isConnected], sets [lastChecked] and clears [checkInProgress]. *)
Theorem probe_resolves_to_boolean :
  (∀ s c v, reachable s → results s !! c = Some v → v = JBool true ∨ truthy v = false)
  ∧ (∀ evs c v,
       Forall (λ e, isHealthRequest e = false) evs →
       results (run evs initialState) !! c = Some v → ∃ b : bool, v = JBool b)
  ∧ ∀ (s : State) (forceCheck : bool) (now : Z) (r1 r2 : QueryResult) (auth : bool),
      checkInProgress (connectionStatus s) = false →
      forceCheck = true ∨ (5 * 60 * 1000 ≤ now - lastChecked (connectionStatus s))%Z
        ∨ isConnected (connectionStatus s) = JNull →
      let c := nextCaller s in
      let s' := run [CallCheck true forceCheck now; ResourcesResult c r1;
                     DummyResult c r2; AuthResult c auth] s in
      results s' !! c = Some (JBool (verdict r1 r2 auth)) ∧
      connectionStatus s' =
        {| lastChecked := now; isConnected := JBool (verdict r1 r2 auth);
           checkInProgress := false |}.
Proof.
  split; [|split].
  - intros s c v Hs Hv. apply reachable_wellFormed in Hs.
    apply (wf_value s Hs c v Hv).
  - intros evs c v Hevs Hv.
    apply (po_results _ (proberOnly_run evs initialState Hevs proberOnly_initial) c v Hv).
  - apply probe_concludes.
Qed.

Lemma probe_resolves_to_boolean_witness :
  results (run [CallCheck true true 7000;
                ResourcesResult 0 (QueryReturned (Some permissionDenied));
                DummyResult 0 (QueryReturned (Some permissionDenied));
                AuthResult 0 true] initialState) !! 0%nat = Some (JBool false).
Proof.
  destruct probe_resolves_to_boolean as (_ & _ & H).
  apply (H initialState true 7000 (QueryReturned (Some permissionDenied))
           (QueryReturned (Some permissionDenied)) true).
  - reflexivity.
  - left. reflexivity.
Defined.

(** C8, as stated, fails. A probe whose two queries both fail with errors
    other than 42P01 resolves [true] when the second error is a 404 and the
    session request succeeds; a probe whose first query throws resolves
    [true] when the fallback query answers with 42P01; and a call made while
    a health request through the client is being checked sends nothing and
    resolves what [checkConnectionStatus] has returned, which is [null] when
    the body of the health answer is. *)
Lemma probe_true_after_other_error_or_exception :
  results (run [CallCheck true true 7000;
                ResourcesResult 0 (QueryReturned (Some permissionDenied));
                DummyResult 0 (QueryReturned (Some missingRoute));
                AuthResult 0 true] initialState) !! 0%nat = Some (JBool true)
  ∧ results (run [CallCheck true true 7000;
                  ResourcesResult 0 QueryThrew;
                  DummyResult 0 (QueryReturned (Some relationMissing))] initialState)
      !! 0%nat = Some (JBool true)
  ∧ (let s := run [HealthRequest 7000; CallCheck true true 7010;
                   HealthChecked (Some "https://project.supabase.co")
                     (FetchResponded answersNull) 7200;
                   Tick 0] initialState in
     results s !! 0%nat = Some JNull ∧ requestLog s = []).
Proof. vm_compute. repeat split. Qed.

(** *** Single flight *)







Lemma nextCaller_step e s :
  isCall e = false → nextCaller (step e s) = nextCaller s.
Proof.
  intros He. destruct e as [? ? ?|c|c r|c r|c ok|now|url net now]; [done|..]; simpl;
    unfold tick, resourcesResult, dummyResult, authResult, healthRequestArrives,
      healthCheckReturns, healthRequest;
    repeat (match goal with
            | |- context [match ?x with _ => _ end] => destruct x
            end; simpl); reflexivity.
Qed.









End ProberFacts.

(** ** Retries *)

Module RetryFacts.
Import Json RequestManager RequestNotions RequestScenarios RequestMore RequestMoreNotions.

Lemma run_app evs1 evs2 s :
  (run (evs1 ++ evs2)%list s).1 = (run evs2 (run evs1 s).1).1.
Proof.
  revert s. induction evs1 as [|[now e] evs1 IH]; intros s; [done|].
  simpl. destruct (step now e s) as [s1 out]. specialize (IH s1).
  destruct (run (evs1 ++ evs2)%list s1) as [s2 outs].
  destruct (run evs1 s1) as [s3 outs3]. simpl in *. exact IH.
Qed.

(** One failed attempt that has a retry left, and the start of the retry. *)
Lemma fail_and_retry p t message tf now s :
  tasks s !! p = Some t →
  awaiting t = AwaitFetch →
  retryAttempt t < retryCount (taskOptions t) →
  (tf + setTimeoutDelay (retryDelay (taskOptions t) * (retryAttempt t + 1)) ≤ now)%Z →
  let s' := retryTimer p now (fetchDone p (RFail message) tf s) in
  tasks s' !! p = Some (atAttempt t (retryAttempt t + 1)) ∧
  fetchLog s' =
    (fetchLog s ++ retryFetches p (taskEndpoint t) (taskOptions t) (retryAttempt t) 1)%list ∧
  settled s' = settled s ∧
  requestCache s' = requestCache s.
Proof.
  intros Ht Hw Hlt Hdue. cbv zeta. unfold fetchDone. rewrite Ht, Hw.
  destruct (decide (retryAttempt t < retryCount (taskOptions t))); [|done].
  unfold retryTimer. simpl. rewrite lookup_insert_eq. simpl.
  destruct (decide (_ ≤ _)%Z); [|lia]. unfold finallyBlock. simpl.
  destruct (decide _); simpl; rewrite insert_insert_eq, lookup_insert_eq; done.
Qed.

Lemma retries_run p fails : ∀ s t,
  tasks s !! p = Some t →
  awaiting t = AwaitFetch →
  (retryAttempt t + Z.of_nat (length fails) ≤ retryCount (taskOptions t))%Z →
  let s' := (run (retrySchedule p (retryDelay (taskOptions t)) (retryAttempt t) fails) s).1 in
  tasks s' !! p = Some (atAttempt t (retryAttempt t + Z.of_nat (length fails))) ∧
  fetchLog s' =
    (fetchLog s ++ retryFetches p (taskEndpoint t) (taskOptions t) (retryAttempt t)
                     (length fails))%list ∧
  settled s' = settled s ∧
  requestCache s' = requestCache s.
Proof.
  induction fails as [|[message tf] fails IH]; intros s t Ht Hw Hle.
  { simpl. rewrite Z.add_0_r, app_nil_r. split; [|done].
    rewrite Ht. f_equal. destruct t. unfold atAttempt. simpl in *. by rewrite Hw. }
  simpl length in *. cbv zeta.
  change (retrySchedule p (retryDelay (taskOptions t)) (retryAttempt t) ((message, tf) :: fails))
    with ((tf, FetchDone p (RFail message))
            :: (tf + setTimeoutDelay (retryDelay (taskOptions t) * (retryAttempt t + 1)),
                RetryTimer p)
            :: retrySchedule p (retryDelay (taskOptions t)) (retryAttempt t + 1) fails).
  rewrite !ThrottleFacts.run_event_cons. simpl step. simpl fst.
  destruct (fail_and_retry p t message tf
              (tf + setTimeoutDelay (retryDelay (taskOptions t) * (retryAttempt t + 1)))
              s Ht Hw) as (Ht' & Hlog & Hset & Hcache); [lia|lia|].
  set (s1 := retryTimer p _ _) in *.
  destruct (IH s1 (atAttempt t (retryAttempt t + 1)) Ht' eq_refl) as (Ht2 & Hlog2 & Hset2 & Hcache2).
  { simpl. lia. }
  simpl in Ht2, Hlog2, Hset2, Hcache2.
  rewrite Ht2, Hlog2, Hlog, Hset2, Hset, Hcache2, Hcache.
  split; [|split; [|done]].
  - f_equal. unfold atAttempt. simpl. f_equal. lia.
  - rewrite <- app_assoc. reflexivity.
Qed.

(** X1. A request whose running attempt and the following ones fail, with a
    retry left each time, and whose next attempt succeeds, resolves with the
    answer of that attempt; it has invoked the transport once per retry and
    no more, and the answer to a GET is in the cache. *)
Theorem retry_then_success (s : State) (p : nat) (t : Task)
    (fails : list (string * Z)) (d : json) (now : Z) :
  tasks s !! p = Some t →
  awaiting t = AwaitFetch →
  (retryAttempt t + Z.of_nat (length fails) ≤ retryCount (taskOptions t))%Z →
  let s' := (run (retrySchedule p (retryDelay (taskOptions t)) (retryAttempt t) fails
                    ++ [(now, FetchDone p (ROk d))])%list s).1 in
  settled s' !! p = Some (Resolved d) ∧
  tasks s' !! p = None ∧
  fetchLog s' =
    (fetchLog s ++ retryFetches p (taskEndpoint t) (taskOptions t) (retryAttempt t)
                     (length fails))%list ∧
  (method (taskOptions t) = "GET" →
   requestCache s' !! taskKey t = Some {| data := d; timestamp := now |}).
Proof.
  intros Ht Hw Hle. cbv zeta. rewrite run_app.
  destruct (retries_run p fails s t Ht Hw Hle) as (Ht' & Hlog & Hset & Hcache).
  set (s1 := (run _ s).1) in *. simpl. unfold fetchDone. rewrite Ht'. simpl.
  unfold finallyBlock, settle. simpl.
  destruct (bool_decide (method (taskOptions t) = "GET")) eqn:Hm;
    destruct (decide _); simpl;
    rewrite ?lookup_insert_eq, ?lookup_delete_eq;
    (split; [done|]); (split; [done|]); (split; [done|]); intros Hget;
    try (apply bool_decide_eq_false in Hm; done); done.
Qed.

(** X2. A request whose running attempt and all following ones fail, until
    no retry is left, rejects with the message of the last failure; it has
    invoked the transport once per retry and no more, nothing is cached on
    the way, and no pending entry is left under its key. *)
Theorem retry_exhausted (s : State) (p : nat) (t : Task)
    (fails : list (string * Z)) (message : string) (now : Z) :
  tasks s !! p = Some t →
  awaiting t = AwaitFetch →
  retryAttempt t + Z.of_nat (length fails) = retryCount (taskOptions t) →
  let s' := (run (retrySchedule p (retryDelay (taskOptions t)) (retryAttempt t) fails
                    ++ [(now, FetchDone p (RFail message))])%list s).1 in
  settled s' !! p = Some (Rejected message) ∧
  tasks s' !! p = None ∧
  fetchLog s' =
    (fetchLog s ++ retryFetches p (taskEndpoint t) (taskOptions t) (retryAttempt t)
                     (length fails))%list ∧
  requestCache s' = requestCache s ∧
  pendingRequests s' !! taskKey t = None.
Proof.
  intros Ht Hw Heq. cbv zeta. rewrite run_app.
  destruct (retries_run p fails s t Ht Hw) as (Ht' & Hlog & Hset & Hcache); [lia|].
  set (s1 := (run _ s).1) in *. simpl. unfold fetchDone. rewrite Ht'. simpl.
  destruct (decide (_ < _)); [lia|].
  unfold finallyBlock, settle. simpl.
  destruct (decide _) as [_|Hno]; [|destruct Hno; left; lia]. simpl.
  rewrite lookup_insert_eq, !lookup_delete_eq. done.
Qed.

Lemma retry_then_success_witness :
  let s' := (run (retrySchedule 0 1000 0 [("Failed to fetch", 10050); ("HTTP 500", 11100)]
                    ++ [(13200, FetchDone 0 (ROk (JStr "items")))])%list oneInFlight).1 in
  settled s' !! 0%nat = Some (Resolved (JStr "items")) ∧
  length (fetchLog s') = 3%nat.
Proof.
  destruct (retry_then_success oneInFlight 0
              {| taskEndpoint := "/items"; taskOptions := defaultOptions;
                 taskKey := cacheKeyOf "/items" defaultOptions;
                 retryAttempt := 0; awaiting := AwaitFetch |}
              [("Failed to fetch", 10050); ("HTTP 500", 11100)] (JStr "items") 13200)
    as (Hset & _ & Hlog & _).
  - vm_compute. reflexivity.
  - reflexivity.
  - vm_compute. discriminate.
  - split; [exact Hset|]. simpl in Hlog. simpl. rewrite Hlog. vm_compute. reflexivity.
Defined.

Lemma retry_exhausted_witness :
  let s' := (run (retrySchedule 0 1000 0 [("Failed to fetch", 10050); ("HTTP 500", 11100)]
                    ++ [(13200, FetchDone 0 (RFail "HTTP 502"))])%list oneInFlight).1 in
  settled s' !! 0%nat = Some (Rejected "HTTP 502") ∧
  length (fetchLog s') = 3%nat.
Proof.
  destruct (retry_exhausted oneInFlight 0
              {| taskEndpoint := "/items"; taskOptions := defaultOptions;
                 taskKey := cacheKeyOf "/items" defaultOptions;
                 retryAttempt := 0; awaiting := AwaitFetch |}
              [("Failed to fetch", 10050); ("HTTP 500", 11100)] "HTTP 502" 13200)
    as (Hset & _ & Hlog & _).
  - vm_compute. reflexivity.
  - reflexivity.
  - reflexivity.
  - split; [exact Hset|]. simpl in Hlog. simpl. rewrite Hlog. vm_compute. reflexivity.
Defined.

End RetryFacts.

(** ** More on throttling and the cache *)

Module ThrottleMoreFacts.
Import Json RequestManager RequestNotions RequestScenarios RequestMore RequestMoreNotions.
Import ThrottleFacts.

(** What one task of the event loop does to the tracker. *)
Lemma step_tracker now e s :
  tracker (step now e s).1 = tracker s ∨
  (∃ endpoint, tracker (step now e s).1
                 = (requestTracker.track endpoint now (tracker s)).1) ∨
  (∃ endpoint, e = Unthrottle endpoint ∧
               tracker (step now e s).1 = tracker (unthrottle endpoint now s)) ∨
  tracker (step now e s).1 = requestTracker.trackInherited now (tracker s).
Proof.
  destruct e as [e' o|w|p r|p|e'|e']; [rewrite step_call|simpl..].
  - destruct (inherited e') eqn:Hinh.
    { right. right. right. by rewrite callOptimizedRequest_inherited. }
    rewrite callOptimizedRequest_own by done.
    destruct (requestTracker.isThrottled e' (tracker s)) eqn:Hthr;
      [destruct (decide (priority o = "high")) as [Hhigh|Hlow]|].
    + right. left. exists e'. rewrite optimizedRequest_past_gate by (by right).
      apply proceed_tracker.
    + left. by apply optimizedRequest_in_gate.
    + right. left. exists e'. rewrite optimizedRequest_past_gate by (by left).
      apply proceed_tracker.
  - unfold resumeRequest. destruct (paused s !! w) as [[[due e'] o]|]; [|by left].
    destruct (decide (due ≤ now)%Z); [|by left].
    pose proof (proceed_tracker e' o now (set_paused (delete w) s)) as Htr.
    destruct (proceed e' o now (set_paused (delete w) s)) as [s' out].
    right. left. exists e'. exact Htr.
  - left. unfold fetchDone. destruct (tasks s !! p) as [t|]; [|done].
    destruct (awaiting t); [|done].
    destruct r; [destruct (bool_decide _)|destruct (decide _)];
      unfold finallyBlock; try destruct (decide _); done.
  - left. unfold retryTimer. destruct (tasks s !! p) as [t|]; [|done].
    destruct (awaiting t); [done|]. destruct (decide _); [|done].
    unfold finallyBlock. destruct (decide _); done.
  - right. right. left. by exists e'.
  - left. unfold clearRequestCache. destruct e' as [e'|]; [|done].
    destruct (decide _); done.
Qed.

Lemma resetPending_cleanup now tr :
  resetPending tr → resetPending (requestTracker.cleanup now tr).
Proof.
  intros Hinv endpoint r. unfold requestTracker.cleanup. simpl.
  rewrite lookup_fmap. destruct (endpoints tr !! endpoint) as [r0|] eqn:Hr; [|done].
  simpl. intros [= <-] Hthr. simpl in *. by apply Hinv.
Qed.

Lemma resetPending_track endpoint now tr :
  resetPending tr → resetPending (requestTracker.track endpoint now tr).1.
Proof.
  intros Hinv. unfold requestTracker.track.
  set (tr1 := if decide (now - lastCleanup tr > 60000)
              then requestTracker.cleanup now tr else tr).
  assert (H1 : resetPending tr1).
  { unfold tr1. destruct (decide _); [by apply resetPending_cleanup|done]. }
  clearbody tr1. clear Hinv.
  match goal with |- context [decide (_ ∧ _)] => destruct (decide (_ ∧ _)) end;
    intros e r; simpl; intros Hr Hthr.
  - apply elem_of_app. destruct (decide (e = endpoint)) as [->|Hne].
    + rewrite lookup_insert_eq in Hr. injection Hr as <-. simpl.
      right. by apply list_elem_of_singleton.
    + rewrite lookup_insert_ne in Hr by done. left. by apply H1.
  - destruct (decide (e = endpoint)) as [->|Hne].
    + rewrite lookup_insert_eq in Hr. injection Hr as <-. simpl in *.
      destruct (endpoints tr1 !! endpoint) as [r0|] eqn:Hr0; [|done].
      simpl in *. by apply H1.
    + rewrite lookup_insert_ne in Hr by done. by apply H1.
Qed.

Lemma elem_of_delete_other {A} (x y : A) (l : list A) i :
  x ∈ l → l !! i = Some y → x ≠ y → x ∈ delete i l.
Proof.
  intros [j Hj]%list_elem_of_lookup Hi Hne.
  assert (j ≠ i) by (intros ->; congruence).
  apply list_elem_of_lookup. destruct (decide (j < i)%nat).
  - exists j. by rewrite list_lookup_delete_lt.
  - exists (pred j). rewrite list_lookup_delete_ge by lia.
    replace (S (pred j)) with j by lia. done.
Qed.

Lemma resetPending_unthrottle endpoint now s :
  resetPending (tracker s) → resetPending (tracker (unthrottle endpoint now s)).
Proof.
  intros Hinv. unfold unthrottle.
  destruct (list_find _ _) as [[i [due e']]|] eqn:Hfind; [|done].
  apply list_find_Some in Hfind as (Hi & [_ He'] & _). simpl in He'. subst e'.
  intros e r. simpl. intros Hr Hthr.
  destruct (decide (e = endpoint)) as [->|Hne].
  - rewrite lookup_alter_eq in Hr.
    destruct (endpoints (tracker s) !! endpoint); [|done].
    simpl in Hr. injection Hr as <-. done.
  - rewrite lookup_alter_ne in Hr by done.
    eapply elem_of_delete_other; [by apply Hinv|exact Hi|]. congruence.
Qed.

Lemma reachable_resetPending s : reachable s → resetPending (tracker s).
Proof.
  induction 1 as [t0|now e s _ IH].
  { intros e r. simpl. rewrite lookup_empty. done. }
  destruct (step_tracker now e s) as [->|[[e' ->]|[(e' & -> & ->)| ->]]].
  - done.
  - by apply resetPending_track.
  - by apply resetPending_unthrottle.
  - unfold requestTracker.trackInherited.
    destruct (decide _); [by apply resetPending_cleanup|done].
Qed.

(** X4. Throttling always clears: in every state the request manager can
    reach, a throttled endpoint has its un-throttle callback pending, due
    10 s after the endpoint's last warning, and when the callback runs, at
    that time or later, the endpoint is no longer throttled. *)
Theorem throttle_auto_clears (s : State) (endpoint : string) (r : EndpointRecord)
    (now : Z) :
  reachable s →
  endpoints (tracker s) !! endpoint = Some r →
  isThrottled r = true →
  (lastWarning r + 10000 ≤ now)%Z →
  (lastWarning r + 10000, endpoint) ∈ resetTimers (tracker s) ∧
  requestTracker.isThrottled endpoint (tracker (unthrottle endpoint now s)) = false.
Proof.
  intros Hreach Hr Hthr Hdue.
  pose proof (reachable_resetPending s Hreach endpoint r Hr Hthr) as Hin.
  split; [exact Hin|].
  unfold unthrottle.
  destruct (list_find _ _) as [[i x]|] eqn:Hfind.
  - unfold requestTracker.isThrottled. simpl. rewrite lookup_alter_eq, Hr. done.
  - apply list_find_None in Hfind. rewrite Forall_forall in Hfind.
    destruct (Hfind _ Hin). simpl. split; [lia|done].
Qed.

Lemma afterBurst_reachable : reachable afterBurst.
Proof.
  unfold afterBurst.
  generalize (burst "/items" ((10000, defaultOptions) :: tenMore 10000 defaultOptions)).
  intros evs. generalize (reachable_loaded 9000). generalize (initialState 9000).
  induction evs as [|[now e] evs IH]; intros s Hs; [done|].
  rewrite run_event_cons. apply IH. by apply reachable_task.
Qed.

Lemma throttle_auto_clears_witness :
  requestTracker.isThrottled "/items" (tracker afterBurst) = true ∧
  requestTracker.isThrottled "/items" (tracker (unthrottle "/items" 20010 afterBurst))
    = false.
Proof.
  split; [vm_compute; reflexivity|].
  apply (throttle_auto_clears afterBurst "/items"
           {| count := 11;
              timestamps := (λ i, 10000 + Z.of_nat i) <$> seq 0 11;
              isThrottled := true; lastWarning := 10010 |} 20010).
  - exact afterBurst_reachable.
  - vm_compute. reflexivity.
  - reflexivity.
  - vm_compute. discriminate.
Defined.

End ThrottleMoreFacts.

(** ** Round trips through the cache *)

Module CacheMoreFacts.
Import Json RequestManager RequestNotions RequestScenarios RequestMore RequestMoreNotions.
Import ThrottleFacts DedupFacts.





Lemma prefix_append (a b c : string) :
  String.prefix (a ++ b) (a ++ c) = String.prefix b c.
Proof.
  induction a as [|x a IH]; [done|]. simpl.
  destruct (ascii_dec x x); [exact IH|done].
Qed.

(** The key of every call for [endpoint] begins with the endpoint and a
    colon. *)
Lemma cacheKey_startsWith endpoint o :
  startsWith (cacheKeyOf endpoint o) (endpoint ++ ":") = true.
Proof.
  unfold startsWith, cacheKeyOf, generateCacheKey. rewrite prefix_append. reflexivity.
Qed.

(** Without an entry under its key a call is not answered with a value. *)
Lemma no_entry_not_returned endpoint o now s v :
  requestCache s !! cacheKeyOf endpoint o = None →
  (optimizedRequest endpoint o now s).2 ≠ Returned v.
Proof.
  intros Hnone. unfold optimizedRequest.
  match goal with |- context [if ?b then _ else _] => destruct b end.
  - rewrite Hnone. destruct (bool_decide _); discriminate.
  - unfold proceed, checkCache.
    destruct (negb (bypassCache o) && bool_decide (method o = "GET")); simpl;
      rewrite ?Hnone; unfold joinOrStart, startRequest; simpl;
      match goal with
      | |- context [match ?x with Some _ => _ | None => _ end] => destruct x
      end; simpl; discriminate.
Qed.

(** X6. Invalidation reaches every variant of an endpoint.
    [clearRequestCache(endpoint)] with a non-empty endpoint leaves no entry
    under the key of any call for that endpoint, whatever its method, params
    and body, so the next such call is not answered from the cache; the
    requests in flight are left alone. *)
Theorem clear_invalidates_endpoint (s : State) (endpoint : string) (o : Options)
    (now : Z) :
  endpoint ≠ EmptyString →
  let cleared := clearRequestCache (Some endpoint) s in
  requestCache cleared !! cacheKeyOf endpoint o = None ∧
  (∀ v, (optimizedRequest endpoint o now cleared).2 ≠ Returned v) ∧
  pendingRequests cleared = pendingRequests s ∧
  tasks cleared = tasks s.
Proof.
  intros Hne. cbv zeta.
  assert (Hnone : requestCache (clearRequestCache (Some endpoint) s)
                    !! cacheKeyOf endpoint o = None).
  { unfold clearRequestCache. destruct (decide (endpoint = EmptyString)); [done|].
    simpl. unfold deleteKeysWithPrefix.
    rewrite ClearCacheFacts.deleteKeys_lookup, cacheKey_startsWith.
    destruct (decide _) as [|Hnot]; [done|].
    destruct (requestCache s !! cacheKeyOf endpoint o) as [x|] eqn:Hk; [|done].
    destruct Hnot. apply list_elem_of_fmap. exists (cacheKeyOf endpoint o, x).
    split; [done|]. by apply elem_of_map_to_list. }
  split; [exact Hnone|]. split.
  - intros v. by apply no_entry_not_returned.
  - unfold clearRequestCache. destruct (decide _); done.
Qed.

Lemma clear_invalidates_endpoint_witness :
  requestCache cachedDetail !! cacheKeyOf "/resources/1" defaultOptions
    = Some {| data := JStr "detail"; timestamp := 1040 |} ∧
  requestCache (clearRequestCache (Some "/resources/1") cachedDetail)
    !! cacheKeyOf "/resources/1" (withPriority "low" defaultOptions) = None.
Proof.
  split; [vm_compute; reflexivity|].
  apply (clear_invalidates_endpoint cachedDetail "/resources/1"
           (withPriority "low" defaultOptions) 2000).
  discriminate.
Defined.

End CacheMoreFacts.

(** ** Batches *)

Module BatchFacts.
Import Json RequestManager RequestNotions RequestScenarios RequestMore RequestMoreNotions.
Import ThrottleFacts DedupFacts.

Lemma run_outcomes_cons now e evs s :
  (run ((now, e) :: evs) s).2
    = (match (step now e s).2 with Some o => [o] | None => [] end
       ++ (run evs (step now e s).1).2)%list.
Proof.
  simpl. destruct (step now e s) as [s1 out]. simpl.
  destruct (run evs s1) as [s2 outs]. simpl. by destruct out.
Qed.

Lemma run_outcomes_app evs1 evs2 s :
  (run (evs1 ++ evs2)%list s).2
    = ((run evs1 s).2 ++ (run evs2 (run evs1 s).1).2)%list.
Proof.
  revert s. induction evs1 as [|[now e] evs1 IH]; intros s; [done|].
  change (((now, e) :: evs1) ++ evs2)%list with ((now, e) :: (evs1 ++ evs2))%list.
  rewrite !run_outcomes_cons, !run_event_cons, IH, app_assoc. done.
Qed.

Lemma batch_cons endpoint o requests now s :
  batchRequests ((endpoint, o) :: requests) now s
    = ((batchRequests requests now (callOptimizedRequest endpoint o now s).1).1,
       (callOptimizedRequest endpoint o now s).2
         :: (batchRequests requests now (callOptimizedRequest endpoint o now s).1).2).
Proof.
  unfold batchRequests. simpl.
  destruct (callOptimizedRequest endpoint o now s) as [s1 out]. simpl.
  destruct (run _ s1) as [s2 outs]. reflexivity.
Qed.

Lemma checkCache_miss endpoint o now s :
  missesCache endpoint o s → checkCache endpoint o now s = inl s.
Proof.
  intros [Hb|[Hm|Hnone]]; unfold checkCache.
  - by rewrite Hb.
  - by rewrite (bool_decide_eq_false_2 _ Hm), andb_false_r.
  - rewrite Hnone. by destruct (negb (bypassCache o) && _).
Qed.

Lemma checkCache_cases endpoint o now s :
  (∃ v, checkCache endpoint o now s = inr v) ∨
  (∃ s2, checkCache endpoint o now s = inl s2 ∧ missesCache endpoint o s2 ∧
         pendingRequests s2 = pendingRequests s ∧ tracker s2 = tracker s ∧
         nextPromise s2 = nextPromise s ∧ fetchLog s2 = fetchLog s).
Proof.
  unfold checkCache.
  destruct (bypassCache o) eqn:Hb; simpl.
  { right. exists s. split; [done|]. split; [by left|done]. }
  destruct (decide (method o = "GET")) as [Hm|Hm].
  2: { rewrite (bool_decide_eq_false_2 _ Hm). right. exists s.
       split; [done|]. split; [by right; left|done]. }
  rewrite (bool_decide_eq_true_2 _ Hm).
  destruct (requestCache s !! cacheKeyOf endpoint o) as [entry|] eqn:He.
  - destruct (decide _); [left; by eexists|].
    right. eexists. split; [done|]. split; [|done].
    right. right. simpl. apply lookup_delete_eq.
  - right. exists s. split; [done|]. split; [by right; right|done].
Qed.

Lemma checkCache_set_tracker endpoint o now f s v :
  checkCache endpoint o now s = inr v →
  checkCache endpoint o now (set_tracker f s) = inr v.
Proof.
  unfold checkCache. simpl. destruct (negb (bypassCache o) && _); [|done].
  destruct (requestCache s !! cacheKeyOf endpoint o); [|done].
  destruct (decide _); done.
Qed.

(** A call past the throttle block: its outcome repeats, and it invokes the
    transport at most once. *)
Lemma proceed_repeats endpoint o now s :
  repeats endpoint o now (proceed endpoint o now s).2 (proceed endpoint o now s).1 ∧
  (length (fetchLog (proceed endpoint o now s).1) ≤ S (length (fetchLog s)))%nat.
Proof.
  unfold proceed. set (s1 := set_tracker _ s).
  destruct (checkCache_cases endpoint o now s1) as [[v Hv]|(s2 & Hc & Hmiss & Hp & _ & _ & Hlog)].
  - rewrite Hv. simpl. split; [|lia]. left. exists v. split; [done|].
    intros f. by apply checkCache_set_tracker.
  - rewrite Hc. unfold joinOrStart.
    destruct (pendingRequests s2 !! cacheKeyOf endpoint o) as [p|] eqn:Hpend; simpl.
    + split; [|rewrite Hlog; simpl; lia]. right. exists p. done.
    + split; [|rewrite Hlog, length_app; simpl; lia].
      right. exists (nextPromise s2). split; [done|]. split.
      * destruct Hmiss as [?|[?|?]]; [by left|by right; left|by right; right].
      * apply lookup_insert_eq.
Qed.

(** A settled call, made once more past the throttle block. *)
Lemma proceed_again endpoint o now out s :
  repeats endpoint o now out s →
  (proceed endpoint o now s).2 = out ∧
  repeats endpoint o now out (proceed endpoint o now s).1 ∧
  fetchLog (proceed endpoint o now s).1 = fetchLog s.
Proof.
  intros [(v & -> & Hv)|(p & -> & Hmiss & Hp)]; unfold proceed.
  - rewrite Hv. simpl. split; [done|]. split; [|done].
    left. exists v. split; [done|]. intros f.
    specialize (Hv (λ tr, f (requestTracker.track endpoint now tr).1)). exact Hv.
  - rewrite checkCache_miss by exact Hmiss. unfold joinOrStart. simpl. rewrite Hp.
    simpl. split; [done|]. split; [|done]. right. exists p. done.
Qed.

(** A tracked request on an endpoint that is not throttled and has counted
    fewer than ten requests in the last second. *)
Lemma track_below_threshold endpoint now tr :
  requestTracker.isThrottled endpoint tr = false →
  (recent now (recordOf endpoint tr) < 10)%nat →
  requestTracker.isThrottled endpoint (requestTracker.track endpoint now tr).1 = false ∧
  recent now (recordOf endpoint (requestTracker.track endpoint now tr).1)
    = S (recent now (recordOf endpoint tr)).
Proof.
  intros Hthr Hlt. rewrite !isThrottled_recordOf in *. unfold requestTracker.track.
  set (tr1 := if decide (now - lastCleanup tr > 60000)
              then requestTracker.cleanup now tr else tr).
  assert (H1 : isThrottled (recordOf endpoint tr1) = false ∧
               recent now (recordOf endpoint tr1) = recent now (recordOf endpoint tr)).
  { unfold tr1. destruct (decide (now - lastCleanup tr > 60000)); [|done].
    rewrite recordOf_cleanup. split; [done|]. unfold recent. simpl.
    rewrite filter_filter_weaker; [done|]. intros x Hx. simpl. lia. }
  destruct H1 as [Hthr1 Hrec1]. fold (recordOf endpoint tr1).
  assert (Hcount : length (filter (λ time, now - time < 1000)
                             (timestamps (recordOf endpoint tr1) ++ [now])%list)
                   = S (recent now (recordOf endpoint tr))).
  { rewrite filter_app, length_app, filter_cons.
    destruct (decide (now - now < 1000)); [|lia]. simpl.
    fold (recent now (recordOf endpoint tr1)). lia. }
  simpl. rewrite Hcount.
  match goal with |- context [decide (?A ∧ ?B)] =>
    destruct (decide (A ∧ B)) as [[Hgt _]|_] end; [lia|].
  unfold recordOf in *. simpl. rewrite lookup_insert_eq. simpl.
  split; [done|]. unfold recent in *. simpl. exact Hcount.
Qed.

Lemma batch_identical endpoint o now n : ∀ s out,
  inherited endpoint = false →
  requestTracker.isThrottled endpoint (tracker s) = false →
  (recent now (recordOf endpoint (tracker s)) + n ≤ 10)%nat →
  repeats endpoint o now out s →
  (batchRequests (replicate n (endpoint, o)) now s).2 = replicate n out ∧
  fetchLog (batchRequests (replicate n (endpoint, o)) now s).1 = fetchLog s.
Proof.
  induction n as [|n IH]; intros s out Hown Hthr Hrec Hrep; [done|].
  simpl replicate. rewrite batch_cons. simpl.
  rewrite callOptimizedRequest_own by done.
  rewrite optimizedRequest_past_gate by (by left).
  destruct (proceed_again endpoint o now out s Hrep) as (Hout & Hrep' & Hlog).
  destruct (track_below_threshold endpoint now (tracker s) Hthr) as [Hthr' Hrec']; [lia|].
  rewrite <- proceed_tracker with (o := o) in Hthr', Hrec'.
  destruct (IH _ out Hown Hthr') as [Houts Hlogs]; [lia|exact Hrep'|].
  rewrite Houts, Hlogs, Hout, Hlog. done.
Qed.

(** A batch for an inherited name: every call rejects. *)
Lemma batch_inherited endpoint o now n : ∀ s,
  inherited endpoint = true →
  (batchRequests (replicate n (endpoint, o)) now s).2
    = replicate n (Threw typeErrorOfTrack) ∧
  fetchLog (batchRequests (replicate n (endpoint, o)) now s).1 = fetchLog s ∧
  pendingRequests (batchRequests (replicate n (endpoint, o)) now s).1
    = pendingRequests s.
Proof.
  induction n as [|n IH]; intros s Hinh; [done|].
  simpl replicate. rewrite batch_cons. simpl.
  rewrite callOptimizedRequest_inherited by done. simpl.
  destruct (IH (set_tracker (requestTracker.trackInherited now) s) Hinh)
    as (-> & -> & ->). done.
Qed.

(** X7. A batch of identical requests shares one request. When
    [batchRequests] is given [n] copies of one request for an endpoint that
    is not named like a member of [Object.prototype] and is not throttled,
    and with them the endpoint has counted at most ten requests in the last
    second, every copy gets the same outcome, a cached value or the promise
    of one request, and the transport is invoked at most once for the whole
    batch. For an endpoint that is named like a member of
    [Object.prototype], every copy rejects with the [TypeError] of the
    tracking step, and nothing is put on the network or made pending. *)
Theorem batch_of_identical_requests (s : State) (endpoint : string) (o : Options)
    (now : Z) (n : nat) :
  let batch := batchRequests (replicate n (endpoint, o)) now s in
  (inherited endpoint = false →
   requestTracker.isThrottled endpoint (tracker s) = false →
   (recent now (recordOf endpoint (tracker s)) + n ≤ 10)%nat →
   (∃ out, batch.2 = replicate n out ∧ ((∃ v, out = Returned v) ∨ (∃ p, out = Follows p)))
   ∧ (length (fetchLog batch.1) ≤ S (length (fetchLog s)))%nat)
  ∧ (inherited endpoint = true →
     batch.2 = replicate n (Threw typeErrorOfTrack)
     ∧ fetchLog batch.1 = fetchLog s
     ∧ pendingRequests batch.1 = pendingRequests s).
Proof.
  cbv zeta. split; [|by apply batch_inherited].
  intros Hown Hthr Hrec. destruct n as [|n].
  { split; [|simpl; lia]. exists (Returned JNull). split; [done|]. left. by eexists. }
  simpl replicate. rewrite batch_cons. simpl.
  rewrite callOptimizedRequest_own by done.
  rewrite optimizedRequest_past_gate by (by left).
  destruct (proceed_repeats endpoint o now s) as [Hrep Hlen].
  destruct (track_below_threshold endpoint now (tracker s) Hthr) as [Hthr' Hrec']; [lia|].
  rewrite <- proceed_tracker with (o := o) in Hthr', Hrec'.
  destruct (batch_identical endpoint o now n _ (proceed endpoint o now s).2 Hown Hthr')
    as [Houts Hlogs]; [lia|exact Hrep|].
  rewrite Houts, Hlogs. split; [|exact Hlen].
  exists (proceed endpoint o now s).2. split; [done|].
  destruct Hrep as [(v & -> & _)|(p & -> & _)]; [left|right]; by eexists.
Qed.

Lemma batch_of_identical_requests_witness :
  let batch := batchRequests (replicate 10 ("/items", defaultOptions)) 10000
                 (initialState 9000) in
  (length (fetchLog batch.1) ≤ 1)%nat.
Proof.
  destruct (batch_of_identical_requests (initialState 9000) "/items" defaultOptions
              10000 10) as [H _].
  apply H.
  - vm_compute. reflexivity.
  - reflexivity.
  - vm_compute. lia.
Defined.

(** The requests of a batch for one endpoint. *)
Lemma batch_throttled_rest endpoint now (rest : list Options) : ∀ s,
  inherited endpoint = false →
  requestTracker.isThrottled endpoint (tracker s) = true →
  requestTracker.isThrottled endpoint
    (tracker (batchRequests ((λ o, (endpoint, o)) <$> rest) now s).1) = true ∧
  Forall2 (λ o out, priority o ≠ "high" → onNetwork out = false) rest
    (batchRequests ((λ o, (endpoint, o)) <$> rest) now s).2.
Proof.
  induction rest as [|o rest IH]; intros s Hown Hthr; [by split|].
  rewrite fmap_cons, batch_cons. simpl.
  rewrite callOptimizedRequest_own by done.
  pose proof (optimizedRequest_keeps_throttled endpoint endpoint o now s Hthr) as Hthr'.
  destruct (IH _ Hown Hthr') as [Hend Hall]. split; [exact Hend|].
  constructor; [|exact Hall].
  intros Hprio. unfold optimizedRequest.
  rewrite Hthr, (bool_decide_eq_false_2 _ Hprio). simpl.
  destruct (requestCache s !! cacheKeyOf endpoint o); [done|].
  destruct (bool_decide (priority o = "low")); done.
Qed.

Lemma batch_app requests1 requests2 now s :
  (batchRequests (requests1 ++ requests2)%list now s).1
    = (batchRequests requests2 now (batchRequests requests1 now s).1).1 ∧
  (batchRequests (requests1 ++ requests2)%list now s).2
    = ((batchRequests requests1 now s).2
       ++ (batchRequests requests2 now (batchRequests requests1 now s).1).2)%list.
Proof.
  unfold batchRequests. rewrite fmap_app. split.
  - apply RetryFacts.run_app.
  - apply run_outcomes_app.
Qed.

Lemma batch_length requests now : ∀ s,
  length (batchRequests requests now s).2 = length requests.
Proof.
  induction requests as [|[e o] requests IH]; intros s; [done|].
  rewrite batch_cons. simpl. by rewrite IH.
Qed.

(** X8. A large batch throttles itself. When [batchRequests] is given more
    than eleven requests for one endpoint that is not named like a member of
    [Object.prototype] (and that is throttled already or has not warned in
    the last 5 s), the endpoint is throttled once the first eleven have been
    called, and none of the later requests whose priority is not high is put
    on the network by its call: each gets the stale cached value, the
    throttled error, or the 2 s pause. *)
Theorem batch_throttles_itself (s : State) (endpoint : string)
    (first11 rest : list Options) (now : Z) :
  inherited endpoint = false →
  requestTracker.isThrottled endpoint (tracker s) = true
    ∨ lastWarning (recordOf endpoint (tracker s)) + 5000 < now →
  length first11 = 11%nat →
  let batch := batchRequests ((λ o, (endpoint, o)) <$> (first11 ++ rest)%list) now s in
  requestTracker.isThrottled endpoint (tracker batch.1) = true ∧
  ∃ outs1 outs2,
    batch.2 = (outs1 ++ outs2)%list ∧ length outs1 = 11%nat ∧
    Forall2 (λ o out, priority o ≠ "high" → onNetwork out = false) rest outs2.
Proof.
  intros Hown Hquiet Hlen. cbv zeta. rewrite fmap_app.
  destruct (batch_app ((λ o, (endpoint, o)) <$> first11) ((λ o, (endpoint, o)) <$> rest)
              now s) as [-> ->].
  assert (Hthr : requestTracker.isThrottled endpoint
            (tracker (batchRequests ((λ o, (endpoint, o)) <$> first11) now s).1) = true).
  { unfold batchRequests.
    assert (Hinv : burstInv endpoint now 0 (tracker s)).
    { destruct Hquiet as [?|?]; [by left|right]. split; [done|]. split; [lia|by left]. }
    set (evs := _ <$> (_ <$> first11)).
    assert (Hwin : Forall (λ te, (now ≤ te.1 < now + 1000)%Z
                                 ∧ isResetOf endpoint te.2 = false) evs).
    { unfold evs. rewrite <- list_fmap_compose. apply Forall_fmap, Forall_forall.
      intros o _. simpl. split; [lia|done]. }
    assert (Hcalls : callsTo endpoint evs = 11%nat).
    { unfold evs, callsTo. rewrite <- list_fmap_compose, <- Hlen.
      clear. induction first11 as [|o l IH]; [done|].
      rewrite fmap_cons, filter_cons. simpl.
      rewrite bool_decide_eq_true_2 by done. rewrite decide_True by done.
      simpl. by rewrite IH. }
    destruct (burstInv_run endpoint now evs 0 s Hown Hwin Hinv) as [Hthr|(_ & Hk & Hle)];
      [exact Hthr|].
    exfalso. rewrite Hcalls in Hk, Hle. simpl in Hk, Hle. destruct Hle; lia. }
  destruct (batch_throttled_rest endpoint now rest _ Hown Hthr) as [Hend Hall].
  split; [exact Hend|].
  eexists _, _. split; [reflexivity|]. split; [|exact Hall].
  rewrite batch_length, length_fmap. exact Hlen.
Qed.

Lemma batch_throttles_itself_witness :
  let batch := batchRequests (replicate 12 ("/items", defaultOptions)) 10000
                 (initialState 9000) in
  requestTracker.isThrottled "/items" (tracker batch.1) = true ∧
  batch.2 !! 11%nat = Some (Paused 0).
Proof.
  destruct (batch_throttles_itself (initialState 9000) "/items"
              (replicate 11 defaultOptions) [defaultOptions] 10000) as [Hthr _].
  - vm_compute. reflexivity.
  - right. vm_compute. reflexivity.
  - reflexivity.
  - split; [exact Hthr|]. vm_compute. reflexivity.
Defined.

End BatchFacts.

(** ** Cache keys keep methods apart *)

Module KeyFacts.
Import Json RequestManager RequestNotions RequestScenarios RequestMore.

Lemma allAscii_complete (c : ascii) : In c allAscii.
Proof.
  unfold allAscii. rewrite <- (ascii_nat_embedding c).
  apply in_map, in_seq. pose proof (nat_ascii_bounded c). lia.
Qed.

Lemma escapes_checked : escapesArePrefixFree = true.
Proof. vm_compute. reflexivity. Qed.

Lemma escapeChar_head (c : ascii) :
  ∃ x r, escapeChar c = String x r ∧ x ≠ dquote.
Proof.
  pose proof escapes_checked as H. unfold escapesArePrefixFree in H.
  rewrite forallb_forall in H. specialize (H c (allAscii_complete c)).
  apply andb_prop in H as [H _].
  destruct (escapeChar c) as [|x r]; [done|].
  exists x, r. split; [done|]. apply negb_true_iff, Ascii.eqb_neq in H. exact H.
Qed.

Lemma escapeChar_comparable (c1 c2 : ascii) :
  comparable (escapeChar c1) (escapeChar c2) = true → c1 = c2.
Proof.
  intros Hc. pose proof escapes_checked as H. unfold escapesArePrefixFree in H.
  rewrite forallb_forall in H. specialize (H c1 (allAscii_complete c1)).
  apply andb_prop in H as [_ H]. rewrite forallb_forall in H.
  specialize (H c2 (allAscii_complete c2)). rewrite Hc in H. simpl in H.
  by apply Ascii.eqb_eq.
Qed.

Lemma append_assoc (a b c : string) : (a ++ b) ++ c = a ++ (b ++ c).
Proof.
  induction a as [|x a IH]; [done|].
  change (String x ((a ++ b) ++ c) = String x (a ++ (b ++ c))). by rewrite IH.
Qed.

Lemma append_cancel (a x y : string) : a ++ x = a ++ y → x = y.
Proof.
  induction a as [|c a IH]; [done|].
  change (String c (a ++ x) = String c (a ++ y) → x = y). intros [= H]. by apply IH.
Qed.

Lemma append_comparable (a b x y : string) :
  a ++ x = b ++ y → comparable a b = true.
Proof.
  unfold comparable. revert b. induction a as [|c a IH]; intros b H.
  { by destruct b. }
  destruct b as [|c' b]; [reflexivity|].
  change (String c (a ++ x) = String c' (b ++ y)) in H.
  injection H as -> H. simpl.
  destruct (ascii_dec c' c') as [_|Hne]; [by apply IH|done].
Qed.

(** The end of an escaped string can be told: escaped strings followed by a
    double quote are equal only for equal strings. *)
Lemma escape_until_quote (a b x y : string) :
  escape a ++ String dquote x = escape b ++ String dquote y → a = b.
Proof.
  revert b. induction a as [|c a IH]; intros b H.
  - destruct b as [|c' b]; [done|]. simpl in H.
    destruct (escapeChar_head c') as (h & r & Hh & Hne). rewrite Hh in H.
    simpl in H. injection H as H _. congruence.
  - destruct b as [|c' b].
    + simpl in H. destruct (escapeChar_head c) as (h & r & Hh & Hne). rewrite Hh in H.
      simpl in H. injection H as H _. congruence.
    + change (escape (String c a)) with (escapeChar c ++ escape a) in H.
      change (escape (String c' b)) with (escapeChar c' ++ escape b) in H.
      rewrite !append_assoc in H.
      pose proof (escapeChar_comparable c c' (append_comparable _ _ _ _ H)) as ->.
      apply append_cancel in H. f_equal. by apply IH.
Qed.

(** The key object is written with its method first: after a fixed opening
    come the escaped method and the double quote that closes it. *)
Lemma stringify_keyObject (o : Options) :
  ∃ rest, stringify (keyObject o)
          = ("{" ++ quote "method" ++ ":" ++ String dquote EmptyString)
              ++ escape (method o) ++ String dquote rest.
Proof.
  assert (Hlist : ∃ y l, stringify (keyObject o)
            = "{" ++ String.concat ","
                ((quote "method" ++ ":" ++ quote (method o)) :: y :: l) ++ "}").
  { unfold keyObject. destruct (body o); eexists _, _; reflexivity. }
  destruct Hlist as (y & l & ->).
  exists ("," ++ String.concat "," (y :: l) ++ "}").
  change (String.concat "," ((quote "method" ++ ":" ++ quote (method o)) :: y :: l))
    with ((quote "method" ++ ":" ++ quote (method o)) ++ "," ++ String.concat "," (y :: l)).
  unfold quote at 2.
  change (String dquote (escape (method o) ++ String dquote EmptyString))
    with (String dquote EmptyString ++ escape (method o) ++ String dquote EmptyString).
  rewrite !append_assoc. reflexivity.
Qed.

(** X9. Cache keys keep methods apart: two calls whose methods differ never
    get the same cache key for one endpoint, whatever their params and
    bodies. *)
Theorem cacheKey_separates_methods (endpoint : string) (o1 o2 : Options) :
  method o1 ≠ method o2 →
  cacheKeyOf endpoint o1 ≠ cacheKeyOf endpoint o2.
Proof.
  intros Hne Hkey. apply Hne. clear Hne.
  unfold cacheKeyOf, generateCacheKey in Hkey.
  apply append_cancel in Hkey. apply append_cancel in Hkey.
  destruct (stringify_keyObject o1) as [r1 H1].
  destruct (stringify_keyObject o2) as [r2 H2].
  rewrite H1, H2 in Hkey. apply append_cancel in Hkey.
  by apply escape_until_quote in Hkey.
Qed.

Lemma cacheKey_separates_methods_witness :
  cacheKeyOf "/notes" postOptions ≠ cacheKeyOf "/notes" (withParams [] defaultOptions).
Proof.
  apply cacheKey_separates_methods. vm_compute. discriminate.
Defined.

End KeyFacts.

(** ** [executeWithRetry] and [handleSupabaseError] *)

Module HelperFacts.
Import RequestManager SupabaseHelpers HelperNotions.

Lemma backoff_snoc delay n :
  backoff delay (S n) = (backoff delay n ++ [delay * (Z.of_nat n + 1)])%list.
Proof. unfold backoff. by rewrite seq_S, fmap_app. Qed.

Lemma retriable_more {A} (queryFn : nat → Attempt A) first n :
  retriable queryFn first (S n) →
  (∃ e, queryFn first = Throws e ∧ shouldRetry e = true) ∧
  retriable queryFn (S first) n.
Proof.
  intros H. split.
  - destruct (H 0%nat) as (e & He & Hr); [lia|]. rewrite Nat.add_0_r in He. eauto.
  - intros i Hi. destruct (H (S i)) as (e & He & Hr); [lia|].
    replace (S first + i)%nat with (first + S i)%nat by lia. eauto.
Qed.

(** [n] retriable failures take the loop [n] iterations further, one wait
    after each. *)
Lemma retryLoop_retries {A} (queryFn : nat → Attempt A) delay n :
  ∀ fuel first lastError waits,
    retriable queryFn first n →
    retryLoop queryFn delay (n + fuel) first lastError waits
    = retryLoop queryFn delay fuel (first + n)
        (lastThrown queryFn first n lastError)
        (waits ++ ((λ i, delay * (Z.of_nat i + 1)) <$> seq first n))%list.
Proof.
  induction n as [|n IH]; intros fuel first lastError waits Hn.
  - simpl. by rewrite Nat.add_0_r, app_nil_r.
  - apply retriable_more in Hn as [(e & He & Hr) Hn].
    change (S n + fuel)%nat with (S (n + fuel)).
    change (retryLoop queryFn delay (S (n + fuel)) first lastError waits)
      with (match queryFn first with
            | Returns v => {| ended := inl v; invocations := S first; waited := waits |}
            | Throws e =>
                if shouldRetry e then
                  retryLoop queryFn delay (n + fuel) (S first) (Some e)
                    (waits ++ [delay * (Z.of_nat first + 1)])
                else {| ended := inr (Some e); invocations := S first; waited := waits |}
            end).
    rewrite He, Hr, IH by exact Hn.
    replace (S first + n)%nat with (first + S n)%nat by lia.
    replace (lastThrown queryFn (S first) n (Some e))
      with (lastThrown queryFn first (S n) lastError).
    + rewrite <- app_assoc. reflexivity.
    + destruct n as [|m]; simpl.
      * by rewrite Nat.add_0_r, He.
      * destruct (Hn m) as (e' & He' & _); [lia|].
        replace (first + S m)%nat with (S first + m)%nat by lia.
        change (S (first + m)) with (S first + m)%nat.
        by rewrite He'.
Qed.

Lemma executeWithRetry_retries {A} (queryFn : nat → Attempt A) maxRetries delay n fuel :
  Z.to_nat maxRetries = (n + fuel)%nat →
  retriable queryFn 0 n →
  executeWithRetry queryFn maxRetries delay
  = retryLoop queryFn delay fuel n (lastThrown queryFn 0 n None) (backoff delay n).
Proof.
  intros Hmax Hn. unfold executeWithRetry. rewrite Hmax.
  by rewrite retryLoop_retries.
Qed.

(** X10. [executeWithRetry] returns the value of the first invocation of the
    query that returns, when the invocations before it have thrown errors it
    retries and [maxRetries] allows one more: the query has then been invoked
    [k + 1] times, and the waits have been [delay], [2 * delay], ...,
    [k * delay]. *)
Theorem executeWithRetry_returns_first_success {A} (queryFn : nat → Attempt A)
    (maxRetries delay : Z) (k : nat) (v : A) :
  retriable queryFn 0 k →
  queryFn k = Returns v →
  Z.of_nat k < maxRetries →
  executeWithRetry queryFn maxRetries delay
  = {| ended := inl v; invocations := S k; waited := backoff delay k |}.
Proof.
  intros Hk Hv Hmax.
  rewrite (executeWithRetry_retries _ _ _ k (S (Z.to_nat maxRetries - S k)))
    by (done || lia).
  simpl. by rewrite Hv.
Qed.

Lemma executeWithRetry_returns_first_success_witness :
  executeWithRetry (flaky 2) 3 1000
  = {| ended := inl 42; invocations := 3; waited := [1000; 2000] |}.
Proof.
  apply (executeWithRetry_returns_first_success (flaky 2) 3 1000 2 42).
  - intros i Hi. unfold flaky. simpl. destruct (decide (i < 2)%nat); [|lia].
    eexists. split; reflexivity.
  - reflexivity.
  - lia.
Defined.

(** X11. An error that is not among those [executeWithRetry] retries is
    thrown again at once: after [k] retried failures, such an error of
    invocation [k] ends the call with that error, without a further wait or
    invocation. *)
Theorem executeWithRetry_rethrows_other_errors {A} (queryFn : nat → Attempt A)
    (maxRetries delay : Z) (k : nat) (e : QueryError) :
  retriable queryFn 0 k →
  queryFn k = Throws e →
  shouldRetry e = false →
  Z.of_nat k < maxRetries →
  executeWithRetry (A := A) queryFn maxRetries delay
  = {| ended := inr (Some e); invocations := S k; waited := backoff delay k |}.
Proof.
  intros Hk He Hr Hmax.
  rewrite (executeWithRetry_retries _ _ _ k (S (Z.to_nat maxRetries - S k)))
    by (done || lia).
  simpl. by rewrite He, Hr.
Qed.

Lemma executeWithRetry_rethrows_other_errors_witness :
  executeWithRetry refused 3 1000
  = {| ended := inr (Some {| errorCode := Some "42501";
                             errorMessage := Some "permission denied";
                             errorDetails := None |});
       invocations := 1; waited := [] |}.
Proof.
  apply (executeWithRetry_rethrows_other_errors refused 3 1000 0).
  - intros i Hi. lia.
  - reflexivity.
  - vm_compute. reflexivity.
  - lia.
Defined.

Lemma backoff_sum delay n :
  2 * foldr Z.add 0 (backoff delay n) = delay * Z.of_nat n * (Z.of_nat n + 1).
Proof.
  induction n as [|n IH]; [simpl; lia|].
  rewrite backoff_snoc, foldr_app. simpl foldr at 2.
  assert (Hshift : ∀ l x, foldr Z.add x l = foldr Z.add 0 l + x).
  { induction l as [|y l IHl]; intros x; simpl; [lia|]. rewrite IHl. lia. }
  rewrite Hshift. lia.
Qed.

(** X12. When every invocation throws an error that is retried,
    [executeWithRetry] invokes the query [maxRetries] times and then throws
    the last error; it has waited after every failure, the last one
    included, which is [delay * maxRetries * (maxRetries + 1) / 2] in all.
    With [maxRetries] zero or negative the query is never invoked and the
    value thrown is [null]. *)
Theorem executeWithRetry_gives_up {A} (queryFn : nat → Attempt A)
    (maxRetries delay : Z) :
  let n := Z.to_nat maxRetries in
  let result := executeWithRetry queryFn maxRetries delay in
  retriable queryFn 0 n →
  invocations result = n
  ∧ waited result = backoff delay n
  ∧ 2 * foldr Z.add 0 (waited result) = delay * Z.of_nat n * (Z.of_nat n + 1)
  ∧ (maxRetries ≤ 0 → ended result = inr None)%Z
  ∧ ∀ e, (0 < maxRetries)%Z → queryFn (n - 1)%nat = Throws e →
         ended result = inr (Some e).
Proof.
  intros n result Hn. unfold result.
  rewrite (executeWithRetry_retries _ _ _ n 0) by (done || lia).
  assert (Hmax : n = Z.to_nat maxRetries) by done. clearbody n. simpl.
  split; [done|]. split; [done|]. split; [apply backoff_sum|]. split.
  - intros Hle. replace n with 0%nat by lia. reflexivity.
  - intros e Hlt He. destruct n as [|m]; [lia|].
    replace (S m - 1)%nat with m in He by lia. simpl. by rewrite He.
Qed.

Lemma executeWithRetry_gives_up_witness :
  invocations (executeWithRetry (flaky 5) 3 1000) = 3%nat
  ∧ waited (executeWithRetry (flaky 5) 3 1000) = [1000; 2000; 3000].
Proof.
  destruct (executeWithRetry_gives_up (flaky 5) 3 1000) as (H1 & H2 & _).
  - intros i Hi. unfold flaky. simpl in *. destruct (decide (i < 5)%nat); [|lia].
    eexists. split; reflexivity.
  - split; [exact H1|exact H2].
Defined.

Lemma orDefault_nonempty x d : d ≠ EmptyString → orDefault x d ≠ EmptyString.
Proof.
  intros Hd. unfold orDefault. destruct x as [s|]; [|done].
  by destruct (decide (s = EmptyString)).
Qed.

(** X13. [handleSupabaseError] never returns an empty code or message, and
    its details are [null] rather than an empty string. The errors it
    reports with the network message are errors that [executeWithRetry]
    retries. *)
Theorem handleSupabaseError_fills_fields (e : QueryError) (context : string) (now : Z) :
  let info := handleSupabaseError e context now in
  infoCode info ≠ EmptyString
  ∧ infoMessage info ≠ EmptyString
  ∧ infoDetails info ≠ Some EmptyString
  ∧ (isNetworkError e = true → infoMessage info = networkMessage ∧ shouldRetry e = true).
Proof.
  cbv zeta. unfold handleSupabaseError. simpl. split; [|split; [|split]].
  - by apply orDefault_nonempty.
  - destruct (isNetworkError e); [done|]. by apply orDefault_nonempty.
  - destruct (errorDetails e) as [d|]; [|done].
    destruct (decide (d = EmptyString)); [done|]. by intros [= ?].
  - intros Hnet. rewrite Hnet. split; [reflexivity|].
    unfold isNetworkError in Hnet. unfold shouldRetry.
    apply orb_true_iff in Hnet as [-> | ->]; [done|].
    by rewrite orb_true_r.
Qed.

Lemma handleSupabaseError_fills_fields_witness :
  infoMessage (handleSupabaseError lostConnection "favorites" 0) = networkMessage
  ∧ shouldRetry lostConnection = true.
Proof.
  destruct (handleSupabaseError_fills_fields lostConnection "favorites" 0)
    as (_ & _ & _ & H).
  apply H. reflexivity.
Defined.

End HelperFacts.

(** ** [resourceCache] *)

Module ResourceCacheFacts.
Import Json HealthCheck ResourceCache.

(** X16. What [resourceCache.set] stores, [resourceCache.get] gives back for
    less than [ttl] after the [set], and [null] from then on; a falsy
    resource is never given back. Other ids are not affected by the [set]. *)
Theorem resourceCache_set_then_get (c : Cache) (id id' : string) (resource : json)
    (now later : Z) :
  get id later (set id resource now c)
    = (if truthy resource && bool_decide (later - now < cacheTtl c)
       then resource else JNull)
  ∧ (id' ≠ id → get id' later (set id resource now c) = get id' later c).
Proof.
  unfold get, set. simpl. split.
  - rewrite !lookup_insert_eq. destruct (truthy resource); [|done]. simpl.
    destruct (decide (later - now < cacheTtl c)) as [H|H].
    + by rewrite bool_decide_eq_true_2.
    + by rewrite bool_decide_eq_false_2.
  - intros Hne. by rewrite !lookup_insert_ne.
Qed.

Lemma resourceCache_set_then_get_witness :
  get "b" 10 (set "a" (JStr "x") 0 emptyCache) = get "b" 10 emptyCache.
Proof.
  destruct (resourceCache_set_then_get emptyCache "a" "b" (JStr "x") 0 10) as [_ H].
  apply H. discriminate.
Defined.

(** X17. [invalidateResourceCache(id)] with a non-empty id makes [get] miss
    for that id and leaves the other ids and the list cache alone; called
    without an id, with [null] or with the empty string it makes [get] miss
    for every id and empties the list cache. *)
Theorem invalidateResourceCache_scope (resourceId : option string)
    (caches : Cache * gmap string json) (id : string) (now : Z) :
  let after := invalidateResourceCache resourceId caches in
  (∀ target, resourceId = Some target → target ≠ EmptyString →
     get target now after.1 = JNull
     ∧ (id ≠ target → get id now after.1 = get id now caches.1)
     ∧ after.2 = caches.2)
  ∧ (resourceId = None ∨ resourceId = Some EmptyString →
     get id now after.1 = JNull ∧ after.2 = ∅).
Proof.
  cbv zeta. split.
  - intros target -> Hne. unfold invalidateResourceCache.
    destruct (decide (target = EmptyString)); [done|]. simpl.
    unfold get, clear. simpl. split; [|split; [|done]].
    + by rewrite lookup_delete_eq.
    + intros Hid. by rewrite !lookup_delete_ne.
  - intros [->| ->]; simpl; unfold get; simpl; by rewrite lookup_empty.
Qed.

Lemma invalidateResourceCache_scope_witness :
  get "a" 10 (invalidateResourceCache (Some "a")
                (set "a" (JStr "x") 0 emptyCache, ∅)).1 = JNull.
Proof.
  destruct (invalidateResourceCache_scope (Some "a")
              (set "a" (JStr "x") 0 emptyCache, ∅) "b" 10) as [H _].
  destruct (H "a") as [Hget _]; [reflexivity|discriminate|exact Hget].
Defined.

End ResourceCacheFacts.

(** ** The bookkeeping of pending requests *)

Module PendingFacts.
Import Json RequestManager RequestNotions RequestScenarios RequestMore InvariantNotions.
Import ThrottleFacts.

Lemma run_reachable evs s : reachable s → reachable (run evs s).1.
Proof.
  revert s. induction evs as [|[now e] evs IH]; intros s Hs; [done|].
  rewrite run_event_cons. apply IH. by apply reachable_task.
Qed.

Lemma pendingInv_same s s' : sameRequests s s' → pendingInv s → pendingInv s'.
Proof.
  intros (Hp & Ht & Hs & Hn) [H1 H2 H3]. split.
  - intros key p. rewrite Hp, Ht. apply H1.
  - intros p t. rewrite Ht, Hn. apply H2.
  - intros p r. rewrite Hs, Ht, Hn. apply H3.
Qed.

Lemma pendingInv_initial t0 : pendingInv (initialState t0).
Proof. split; simpl; intros *; rewrite lookup_empty; discriminate. Qed.

Lemma checkCache_same endpoint o now s s' :
  checkCache endpoint o now s = inl s' → sameRequests s s'.
Proof.
  unfold checkCache. intros H.
  destruct (negb (bypassCache o) && bool_decide (method o = "GET")).
  - destruct (requestCache s !! cacheKeyOf endpoint o) as [entry|].
    + destruct (decide _); [done|]. by injection H as <-.
    + by injection H as <-.
  - by injection H as <-.
Qed.

Lemma pendingInv_startRequest endpoint o s :
  pendingInv s → pendingInv (startRequest endpoint o s).1.
Proof.
  intros [H1 H2 H3]. split; simpl.
  - intros key p [[<- <-]|[Hne Hp]]%lookup_insert_Some.
    + rewrite lookup_insert_eq. eexists. split; [reflexivity|done].
    + destruct (H1 key p Hp) as (t & Ht & Hk & Ha).
      exists t. split; [|done]. rewrite lookup_insert_ne; [done|].
      apply H2 in Ht. lia.
  - intros p t [[<- _]|[_ Hp]]%lookup_insert_Some; [lia|]. apply H2 in Hp. lia.
  - intros p r Hs. destruct (H3 p r Hs) as [Hlt Hnone]. split; [lia|].
    rewrite lookup_insert_ne; [done|lia].
Qed.

Lemma pendingInv_proceed endpoint o now s :
  pendingInv s → pendingInv (proceed endpoint o now s).1.
Proof.
  intros Hinv. unfold proceed.
  set (s1 := set_tracker _ s).
  assert (Hinv1 : pendingInv s1) by (by apply (pendingInv_same s)).
  destruct (checkCache endpoint o now s1) as [s2|v] eqn:Hcache; [|done].
  assert (Hinv2 : pendingInv s2).
  { eapply pendingInv_same; [by eapply checkCache_same|done]. }
  unfold joinOrStart. destruct (pendingRequests s2 !! _); [done|].
  by apply pendingInv_startRequest.
Qed.

Lemma pendingInv_optimizedRequest endpoint o now s :
  pendingInv s → pendingInv (optimizedRequest endpoint o now s).1.
Proof.
  intros Hinv. unfold optimizedRequest.
  destruct (_ && _); [|by apply pendingInv_proceed].
  destruct (requestCache s !! _); [done|].
  destruct (bool_decide _); [done|]. by apply (pendingInv_same s).
Qed.

(** The promise of [p] settles after its [finally] block, which deletes the
    entry of the key when the attempt is the first or the last one. *)
Lemma pendingInv_settle p t r s :
  pendingInv s → tasks s !! p = Some t →
  pendingInv (settle p r (finallyBlock t s)).
Proof.
  intros [H1 H2 H3] Ht.
  assert (Hsame : tasks (finallyBlock t s) = tasks s ∧
                  settled (finallyBlock t s) = settled s ∧
                  nextPromise (finallyBlock t s) = nextPromise s).
  { unfold finallyBlock. by destruct (decide _). }
  destruct Hsame as (Ht' & Hs' & Hn').
  split; simpl; rewrite ?Ht', ?Hs', ?Hn'.
  - intros key q Hq.
    assert (Hq0 : pendingRequests s !! key = Some q ∧
                  (retryAttempt t = 0 → key ≠ taskKey t)).
    { unfold finallyBlock in Hq. destruct (decide _) as [Hd|Hd].
      - simpl in Hq. apply lookup_delete_Some in Hq as [Hne Hq].
        split; [done|]. by intros _ ->.
      - split; [done|]. intros H0. destruct Hd. by right. }
    destruct Hq0 as [Hq0 Hkey].
    destruct (H1 key q Hq0) as (tq & Htq & Hk & Ha).
    exists tq. split; [|done]. rewrite lookup_delete_ne; [done|].
    intros <-. assert (tq = t) as -> by congruence. by apply Hkey.
  - intros q tq [_ Hq]%lookup_delete_Some. by eapply H2.
  - intros q rq [[<- _]|[Hne Hq]]%lookup_insert_Some.
    + split; [by eapply H2|by rewrite lookup_delete_eq].
    + destruct (H3 q rq Hq) as [Hlt Hnone]. split; [done|].
      by rewrite lookup_delete_ne.
Qed.

Lemma pendingInv_fetchDone p r now s :
  pendingInv s → pendingInv (fetchDone p r now s).
Proof.
  intros Hinv. unfold fetchDone.
  destruct (tasks s !! p) as [t|] eqn:Ht; [|done].
  destruct (awaiting t) eqn:Haw; [|done].
  destruct r as [d|message].
  - destruct (bool_decide _).
    + apply pendingInv_settle; [|done]. by apply (pendingInv_same s).
    + by apply pendingInv_settle.
  - destruct (decide (retryAttempt t < retryCount (taskOptions t))).
    + destruct Hinv as [H1 H2 H3]. split; simpl.
      * intros key q Hq. destruct (H1 key q Hq) as (tq & Htq & Hk & Ha).
        destruct (decide (q = p)) as [->|Hne].
        -- rewrite lookup_insert_eq. eexists. split; [reflexivity|].
           assert (tq = t) as -> by congruence. done.
        -- exists tq. by rewrite lookup_insert_ne.
      * intros q tq [[<- _]|[_ Hq]]%lookup_insert_Some; by eapply H2.
      * intros q rq Hq. destruct (H3 q rq Hq) as [Hlt Hnone]. split; [done|].
        rewrite lookup_insert_ne; [done|]. intros <-. congruence.
    + by apply pendingInv_settle.
Qed.

Lemma pendingInv_retryTimer p now s :
  pendingInv s → pendingInv (retryTimer p now s).
Proof.
  intros Hinv. unfold retryTimer.
  destruct (tasks s !! p) as [t|] eqn:Ht; [|done].
  destruct (awaiting t) as [|due] eqn:Haw; [done|].
  destruct (decide (due ≤ now)%Z); [|done].
  destruct Hinv as [H1 H2 H3].
  set (s1 := beginAttempt p _ _ _ _ s).
  assert (Hsame : tasks (finallyBlock t s1) = tasks s1 ∧
                  settled (finallyBlock t s1) = settled s ∧
                  nextPromise (finallyBlock t s1) = nextPromise s).
  { unfold finallyBlock. by destruct (decide _). }
  destruct Hsame as (Ht' & Hs' & Hn').
  split; rewrite ?Ht', ?Hs', ?Hn'.
  - intros key q Hq.
    assert (Hq0 : pendingRequests s !! key = Some q ∧
                  (retryAttempt t = 0 → key ≠ taskKey t)).
    { unfold finallyBlock in Hq. destruct (decide _) as [Hd|Hd].
      - simpl in Hq. apply lookup_delete_Some in Hq as [Hne Hq].
        split; [done|]. by intros _ ->.
      - split; [done|]. intros H0. destruct Hd. by right. }
    destruct Hq0 as [Hq0 Hkey].
    destruct (H1 key q Hq0) as (tq & Htq & Hk & Ha).
    exists tq. split; [|done]. subst s1. simpl. rewrite lookup_insert_ne; [done|].
    intros <-. assert (tq = t) as -> by congruence. by apply Hkey.
  - subst s1. simpl. intros q tq [[<- _]|[_ Hq]]%lookup_insert_Some; by eapply H2.
  - subst s1. simpl. intros q rq Hq. destruct (H3 q rq Hq) as [Hlt Hnone].
    split; [done|]. rewrite lookup_insert_ne; [done|]. intros <-. congruence.
Qed.

Lemma pendingInv_step now e s : pendingInv s → pendingInv (step now e s).1.
Proof.
  intros Hinv. destruct e as [endpoint o|w|p r|p|endpoint|endpoint];
    [rewrite step_call|simpl..].
  - unfold callOptimizedRequest. destruct (inherited endpoint).
    + by apply (pendingInv_same s).
    + by apply pendingInv_optimizedRequest.
  - unfold resumeRequest. destruct (paused s !! w) as [[[due endpoint] o]|]; [|done].
    destruct (decide _); [|done].
    pose proof (pendingInv_proceed endpoint o now (set_paused (delete w) s)) as H.
    destruct (proceed endpoint o now _). simpl in *. apply H.
    by apply (pendingInv_same s).
  - by apply pendingInv_fetchDone.
  - by apply pendingInv_retryTimer.
  - unfold unthrottle. destruct (list_find _ _) as [[i x]|]; [|done].
    by apply (pendingInv_same s).
  - unfold clearRequestCache. destruct endpoint as [e|].
    + destruct (decide _); by apply (pendingInv_same s).
    + by apply (pendingInv_same s).
Qed.

Lemma reachable_pendingInv s : reachable s → pendingInv s.
Proof.
  induction 1; [apply pendingInv_initial|by apply pendingInv_step].
Qed.

(** X18. In every state the request manager can reach, an entry of
    [pendingRequests] belongs to a request that has not settled and is still
    at its first attempt (waiting for its [fetch] or for its first retry
    delay), and was made for that key: a call that joins a pending request
    never gets a promise that has settled, and never joins a request that is
    past its first attempt. *)
Theorem pending_entry_is_first_attempt (s : State) (key : string) (p : nat) :
  reachable s →
  pendingRequests s !! key = Some p →
  settled s !! p = None
  ∧ ∃ t, tasks s !! p = Some t ∧ taskKey t = key ∧ retryAttempt t = 0.
Proof.
  intros Hreach Hp. apply reachable_pendingInv in Hreach as [H1 H2 H3].
  destruct (H1 key p Hp) as (t & Ht & Hk & Ha). split; [|by exists t].
  destruct (settled s !! p) as [r|] eqn:Hs; [|done].
  destruct (H3 p r Hs) as [_ Hnone]. congruence.
Qed.

Lemma pending_entry_is_first_attempt_witness :
  settled oneInFlight !! 0%nat = None
  ∧ ∃ t, tasks oneInFlight !! 0%nat = Some t ∧ taskKey t = itemsKey ∧ retryAttempt t = 0.
Proof.
  apply (pending_entry_is_first_attempt oneInFlight itemsKey 0).
  - apply (run_reachable [(10000, Call "/items" defaultOptions)] (initialState 9000)).
    apply reachable_loaded.
  - vm_compute. reflexivity.
Defined.

End PendingFacts.

(** ** The prober: the flag, and the cached verdict *)

Module ProberMoreFacts.
Import Json Supabase ProbeNotions ProbeScenarios InvariantNotions.
Import ProberFacts.

Lemma probeRunning_suspend c ph sent s :
  ph ≠ Polling → probeRunning (suspend c ph sent s).
Proof. intros Hph. exists c, ph. simpl. by rewrite lookup_insert_eq. Qed.

(** A running probe is still running after a call that does not probe. *)
Lemma probeRunning_other (s s' : State) c :
  (∀ c0, c0 ≠ c → callers s' !! c0 = callers s !! c0) →
  (∀ ph, callers s !! c = Some ph → ph = Polling) →
  probeRunning s → probeRunning s'.
Proof.
  intros Hsame Hc (c0 & ph & Hc0 & Hph). exists c0, ph. split; [|done].
  rewrite Hsame; [done|]. intros ->. by apply Hc in Hc0.
Qed.

Lemma flag_busy_call isBrowser forceCheck now s :
  wellFormed s →
  (checkInProgress (connectionStatus s) = true → probeRunning s ∨ healthCheck s = true) →
  checkInProgress (connectionStatus (checkSupabaseConnection isBrowser forceCheck now s))
    = true →
  probeRunning (checkSupabaseConnection isBrowser forceCheck now s)
    ∨ healthCheck (checkSupabaseConnection isBrowser forceCheck now s) = true.
Proof.
  intros Hwf Hinv. unfold checkSupabaseConnection.
  assert (Hfresh : ∀ ph, callers s !! nextCaller s = Some ph → ph = Polling).
  { intros ph Hc. apply (wf_callers s Hwf) in Hc. lia. }
  destruct (negb isBrowser).
  { simpl. intros Hflag. destruct (Hinv Hflag) as [Hrun|Hh]; [left|by right].
    eapply (probeRunning_other s _ (nextCaller s)); [|done|done].
    intros c0 Hne. simpl. by rewrite lookup_delete_ne. }
  destruct (checkInProgress (connectionStatus s)) eqn:Hflag0.
  { simpl. intros _. destruct (Hinv eq_refl) as [Hrun|Hh]; [left|by right].
    eapply (probeRunning_other s _ (nextCaller s)); [|done|done].
    intros c0 Hne. simpl. by rewrite lookup_insert_ne. }
  destruct (_ && _ && _).
  { simpl. intros Hflag. congruence. }
  intros _. left. by apply probeRunning_suspend.
Qed.

Lemma flag_busy_step e s :
  wellFormed s →
  (checkInProgress (connectionStatus s) = true → probeRunning s ∨ healthCheck s = true) →
  checkInProgress (connectionStatus (step e s)) = true →
  probeRunning (step e s) ∨ healthCheck (step e s) = true.
Proof.
  intros Hwf Hinv.
  destruct e as [isBrowser forceCheck now|c|c r|c r|c ok|now|url net now]; simpl.
  - by apply flag_busy_call.
  - unfold tick. destruct (callers s !! c) as [[]|] eqn:Hc; try exact Hinv.
    destruct (checkInProgress (connectionStatus s)) eqn:Hflag; [intros _; by apply Hinv|].
    simpl. congruence.
  - unfold resourcesResult. destruct (callers s !! c) as [[]|] eqn:Hc; try exact Hinv.
    destruct r as [|[e|]]; simpl; try done;
      try (intros _; left; by apply probeRunning_suspend).
    destruct (isRelationMissing e); simpl; [done|].
    intros _. left. by apply probeRunning_suspend.
  - unfold dummyResult. destruct (callers s !! c) as [[]|] eqn:Hc; try exact Hinv.
    destruct r as [|[e|]]; simpl; try done.
    destruct (isRelationMissing e); simpl; [done|].
    destruct (isNotFound e); simpl; [|done].
    intros _. left. by apply probeRunning_suspend.
  - unfold authResult. destruct (callers s !! c) as [[]|] eqn:Hc; try exact Hinv.
    simpl. done.
  - unfold healthRequestArrives, healthRequest.
    destruct (bool_decide _ && notNull _);
      [intros Hflag; destruct (Hinv Hflag) as [Hrun|Hh]; [left; exact Hrun|right; exact Hh]|].
    destruct (checkInProgress (connectionStatus s)) eqn:Hflag0;
      [intros _; destruct (Hinv eq_refl) as [Hrun|Hh]; [left; exact Hrun|right; exact Hh]|].
    intros _. by right.
  - unfold healthCheckReturns. destruct (healthCheck s) eqn:Hh; [done|].
    rewrite Hh. exact Hinv.
Qed.

Lemma reachable_flag_busy s :
  reachable s → checkInProgress (connectionStatus s) = true →
  probeRunning s ∨ healthCheck s = true.
Proof.
  induction 1 as [|e s Hs IH]; [done|].
  apply flag_busy_step; [by apply reachable_wellFormed|done].
Qed.

(** X19. In every state that calls of [checkSupabaseConnection], the backend
    and health requests through the client can lead to: [checkInProgress] is
    set exactly while a call is probing or the health branch of the client's
    [fetch] is awaiting [checkConnectionStatus], so the flag is never left
    set when the probe or the check has ended; the two never run at the same
    time, and at most one call is probing. *)
Theorem flag_marks_the_running_probe (s : State) :
  reachable s →
  (checkInProgress (connectionStatus s) = true ↔ probeRunning s ∨ healthCheck s = true)
  ∧ ¬ (probeRunning s ∧ healthCheck s = true)
  ∧ ∀ c c' ph ph',
      callers s !! c = Some ph → ph ≠ Polling →
      callers s !! c' = Some ph' → ph' ≠ Polling → c = c'.
Proof.
  intros Hreach. pose proof (reachable_wellFormed s Hreach) as Hwf. split; [|split].
  - split; [by apply reachable_flag_busy|].
    intros [(c & ph & Hc & Hph)|Hh].
    + by eapply (wf_flag s Hwf).
    + by apply (wf_health s Hwf).
  - intros [(c & ph & Hc & Hph) Hh].
    destruct (wf_health s Hwf Hh) as [_ Hall]. apply Hph. by eapply Hall.
  - intros c c' ph ph' Hc Hph Hc' Hph'. by eapply (wf_single s Hwf).
Qed.

Lemma flag_marks_the_running_probe_witness :
  probeRunning (run [CallCheck true true 7000; CallCheck true true 7010;
                     ResourcesResult 0 QueryThrew] initialState)
  ∨ healthCheck (run [CallCheck true true 7000; CallCheck true true 7010;
                      ResourcesResult 0 QueryThrew] initialState) = true.
Proof.
  apply (flag_marks_the_running_probe
           (run [CallCheck true true 7000; CallCheck true true 7010;
                 ResourcesResult 0 QueryThrew] initialState)).
  - apply reachable_step, reachable_step, reachable_step, reachable_initial.
  - vm_compute. reflexivity.
Defined.

Lemma nextCaller_call isBrowser forceCheck now s :
  nextCaller (checkSupabaseConnection isBrowser forceCheck now s) = S (nextCaller s).
Proof.
  unfold checkSupabaseConnection.
  destruct (negb isBrowser); [done|].
  destruct (checkInProgress _); [done|]. by destruct (_ && _ && _).
Qed.

Lemma run_reachable_probe evs s : reachable s → reachable (run evs s).
Proof.
  revert s. induction evs as [|e evs IH]; intros s Hs; [done|].
  rewrite run_probe_cons. apply IH. by apply reachable_step.
Qed.

(** X20. The verdict of a probe is served from [connectionStatus] for five
    minutes, counted from the time at which the probing call was made: a
    later call without [forceCheck] within that time returns the verdict at
    once, sends no request and leaves [connectionStatus] alone; at five
    minutes or later such a call starts a new probe. *)
Theorem verdict_served_for_five_minutes (s : State) (forceCheck : bool)
    (now later : Z) (r1 r2 : QueryResult) (auth : bool) :
  reachable s →
  checkInProgress (connectionStatus s) = false →
  forceCheck = true ∨ (5 * 60 * 1000 ≤ now - lastChecked (connectionStatus s))%Z
    ∨ isConnected (connectionStatus s) = JNull →
  let c := nextCaller s in
  let s1 := run [CallCheck true forceCheck now; ResourcesResult c r1;
                 DummyResult c r2; AuthResult c auth] s in
  let s2 := step (CallCheck true false later) s1 in
  (later - now < 5 * 60 * 1000 →
     results s2 !! S c = Some (JBool (verdict r1 r2 auth))
     ∧ requestLog s2 = requestLog s1
     ∧ connectionStatus s2 = connectionStatus s1)
  ∧ ((5 * 60 * 1000 ≤ later - now)%Z →
     results s2 !! S c = None
     ∧ callers s2 !! S c = Some (AwaitResources later)
     ∧ requestLog s2 = (requestLog s1 ++ [(S c, SelectResources)])%list
     ∧ checkInProgress (connectionStatus s2) = true).
Proof.
  intros Hreach Hflag Hprobe c s1 s2.
  destruct (probe_concludes s forceCheck now r1 r2 auth Hflag Hprobe) as [_ Hst].
  fold c s1 in Hst.
  assert (Hnext : nextCaller s1 = S c).
  { unfold s1.
    change (run [CallCheck true forceCheck now; ResourcesResult c r1;
                 DummyResult c r2; AuthResult c auth] s)
      with (step (AuthResult c auth) (step (DummyResult c r2)
              (step (ResourcesResult c r1)
                 (checkSupabaseConnection true forceCheck now s)))).
    rewrite !nextCaller_step by done. apply nextCaller_call. }
  assert (Hwf1 : wellFormed s1).
  { apply reachable_wellFormed. unfold s1. by apply run_reachable_probe. }
  unfold s2. simpl step. unfold checkSupabaseConnection. rewrite Hst, Hnext. simpl.
  split.
  - intros Hlater. rewrite bool_decide_eq_true_2 by lia. simpl.
    split; [by rewrite lookup_insert_eq|]. split; done.
  - intros Hlater. rewrite bool_decide_eq_false_2 by lia. simpl.
    split; [|split; [by rewrite lookup_insert_eq|done]].
    destruct (results s1 !! S c) as [v|] eqn:Hres; [|done].
    apply (wf_results s1 Hwf1) in Hres. lia.
Qed.

Lemma verdict_served_for_five_minutes_witness :
  let s1 := run [CallCheck true true 7000; ResourcesResult 0 (QueryReturned None);
                 DummyResult 0 QueryThrew; AuthResult 0 false] initialState in
  results (step (CallCheck true false 200000) s1) !! 1%nat = Some (JBool true)
  ∧ requestLog (step (CallCheck true false 200000) s1) = requestLog s1.
Proof.
  destruct (verdict_served_for_five_minutes initialState true 7000 200000
              (QueryReturned None) QueryThrew false) as [H _].
  - apply reachable_initial.
  - reflexivity.
  - left. reflexivity.
  - destruct H as (H1 & H2 & _); [lia|]. split; [exact H1|exact H2].
Defined.

End ProberMoreFacts.

(** ** The pause of a throttled call, and the cleanup of the tracker *)

Module PauseFacts.
Import Json RequestManager RequestNotions RequestScenarios RequestMore RequestMoreNotions.
Import InvariantNotions ThrottleFacts BatchFacts.

Lemma proceed_nextPaused endpoint o now s :
  nextPaused (proceed endpoint o now s).1 = nextPaused s.
Proof.
  unfold proceed, checkCache, joinOrStart, startRequest.
  repeat (match goal with
          | |- context [if ?b then _ else _] => destruct b
          | |- context [match ?x with Some _ => _ | None => _ end] => destruct x
          end; simpl); reflexivity.
Qed.

(** A paused call stays paused until its own timer resumes it. *)
Lemma waiting_step now e s w x :
  paused s !! w = Some x → (w < nextPaused s)%nat → e ≠ Resume w →
  paused (step now e s).1 !! w = Some x ∧ (w < nextPaused (step now e s).1)%nat.
Proof.
  intros Hw Hlt Hne.
  assert (Hsame : ∀ s', paused s' = paused s → nextPaused s' = nextPaused s →
                        paused s' !! w = Some x ∧ (w < nextPaused s')%nat).
  { intros s' -> ->. done. }
  destruct e as [endpoint o|w'|p r|p|endpoint|endpoint];
    [rewrite step_call|simpl..].
  - unfold callOptimizedRequest. destruct (inherited endpoint); [by apply Hsame|].
    unfold optimizedRequest.
    destruct (_ && _);
      [|apply Hsame; [apply proceed_paused|apply proceed_nextPaused]].
    destruct (requestCache s !! _); [by apply Hsame|].
    destruct (bool_decide _); [by apply Hsame|].
    simpl. split; [|lia]. rewrite lookup_insert_ne by lia. done.
  - assert (Hw' : w' ≠ w) by congruence.
    unfold resumeRequest.
    destruct (paused s !! w') as [[[due endpoint] o]|] eqn:Hp; [|done].
    destruct (decide _); [|done].
    pose proof (proceed_paused endpoint o now (set_paused (delete w') s)) as H1.
    pose proof (proceed_nextPaused endpoint o now (set_paused (delete w') s)) as H2.
    destruct (proceed endpoint o now _) as [s' out]. simpl in *.
    rewrite H1, H2. by rewrite lookup_delete_ne.
  - apply Hsame; unfold fetchDone;
      (destruct (tasks s !! p) as [t|]; [|done]);
      (destruct (awaiting t); [|done]);
      (destruct r; [destruct (bool_decide _)|destruct (decide _)]);
      unfold finallyBlock; try destruct (decide _); done.
  - apply Hsame; unfold retryTimer;
      (destruct (tasks s !! p) as [t|]; [|done]);
      (destruct (awaiting t); [done|]); (destruct (decide _); [|done]);
      unfold finallyBlock; destruct (decide _); done.
  - apply Hsame; unfold unthrottle; by destruct (list_find _ _) as [[i y]|].
  - apply Hsame; unfold clearRequestCache;
      (destruct endpoint as [e0|]; [|done]); by destruct (decide _).
Qed.

Lemma waiting_run evs s w x :
  paused s !! w = Some x → (w < nextPaused s)%nat →
  Forall (λ te, te.2 ≠ Resume w) evs →
  paused (run evs s).1 !! w = Some x.
Proof.
  revert s. induction evs as [|[now e] evs IH]; intros s Hw Hlt Hall; [done|].
  rewrite run_event_cons. apply Forall_cons in Hall as [He Hall].
  destruct (waiting_step now e s w x Hw Hlt He) as [Hw1 Hlt1]. by apply IH.
Qed.

(** A cache hit in [checkCache] is a fresh entry of a GET that does not
    bypass the cache. *)
Lemma checkCache_hit endpoint o now s v :
  checkCache endpoint o now s = inr v →
  ∃ entry, requestCache s !! cacheKeyOf endpoint o = Some entry
           ∧ data entry = v
           ∧ bypassCache o = false ∧ method o = "GET"
           ∧ now - timestamp entry < effectiveCacheTTL endpoint o.
Proof.
  unfold checkCache. destruct (bypassCache o); [done|]. simpl.
  destruct (decide (method o = "GET")) as [Hm|Hm];
    [rewrite (bool_decide_eq_true_2 _ Hm)|by rewrite (bool_decide_eq_false_2 _ Hm)].
  destruct (requestCache s !! cacheKeyOf endpoint o) as [entry|]; [|done].
  destruct (decide _) as [Hfresh|]; [|done].
  intros [= <-]. by exists entry.
Qed.

(** X21. Throttling delays a call of normal priority and never rejects it. A
    call that is neither of high nor of low priority, for a throttled
    endpoint that is not named like a member of [Object.prototype] and with
    no entry cached under its key, is paused for 2 s and puts nothing on the
    network before. Whatever else happens in the meantime (other calls,
    answers of the transport, timers, the cache cleared), the call stays
    paused until its own timer fires, which does nothing before the 2 s are
    over. Then the call goes on from the state it finds, without looking at
    the throttle flag again: it returns a fresh entry that was cached under
    its key in the meantime, or it joins the pending request of its key, or
    it starts a request; it neither rejects nor pauses again, and an endpoint
    that is still throttled stays throttled. *)
Theorem throttled_normal_call_is_delayed (s : State) (endpoint : string)
    (o : Options) (now : Z) :
  inherited endpoint = false →
  requestTracker.isThrottled endpoint (tracker s) = true →
  priority o ≠ "high" → priority o ≠ "low" →
  requestCache s !! cacheKeyOf endpoint o = None →
  let w := nextPaused s in
  let call := callOptimizedRequest endpoint o now s in
  call.2 = Paused w
  ∧ fetchLog call.1 = fetchLog s
  ∧ pendingRequests call.1 = pendingRequests s
  ∧ ∀ (evs : list (Z * Event)) (later : Z),
      Forall (λ te, te.2 ≠ Resume w) evs →
      let mid := (run evs call.1).1 in
      let resumed := resumeRequest w later mid in
      (later < now + 2000 → resumed = (mid, None))
      ∧ ((now + 2000 ≤ later)%Z →
         paused resumed.1 !! w = None
         ∧ (requestTracker.isThrottled endpoint (tracker mid) = true →
            requestTracker.isThrottled endpoint (tracker resumed.1) = true)
         ∧ ((∃ entry,
               requestCache mid !! cacheKeyOf endpoint o = Some entry
               ∧ bypassCache o = false ∧ method o = "GET"
               ∧ later - timestamp entry < effectiveCacheTTL endpoint o
               ∧ resumed.2 = Some (Returned (data entry))
               ∧ fetchLog resumed.1 = fetchLog mid)
            ∨ (∃ p,
                 resumed.2 = Some (Follows p)
                 ∧ pendingRequests resumed.1 !! cacheKeyOf endpoint o = Some p
                 ∧ (pendingRequests mid !! cacheKeyOf endpoint o = None →
                    p = nextPromise mid ∧
                    fetchLog resumed.1 =
                      (fetchLog mid ++ [{| fetchRequest := p; fetchAttempt := 0;
                                           fetchEndpoint := endpoint;
                                           fetchMethod := method o |}])%list)
                 ∧ (∀ q, pendingRequests mid !! cacheKeyOf endpoint o = Some q →
                         p = q ∧ fetchLog resumed.1 = fetchLog mid)))).
Proof.
  intros Hown Hthr Hhigh Hlow Hcache. cbv zeta.
  rewrite callOptimizedRequest_own by done.
  unfold optimizedRequest. rewrite Hthr, Hcache.
  rewrite (bool_decide_eq_false_2 _ Hhigh), (bool_decide_eq_false_2 _ Hlow). simpl.
  split; [done|]. split; [done|]. split; [done|].
  intros evs later Hevs.
  set (s0 := {| requestCache := requestCache s; pendingRequests := pendingRequests s;
                tracker := tracker s; tasks := tasks s; settled := settled s;
                nextPromise := nextPromise s;
                paused := <[nextPaused s := (now + 2000, endpoint, o)]> (paused s);
                nextPaused := S (nextPaused s); fetchLog := fetchLog s |}).
  assert (Hw : paused (run evs s0).1 !! nextPaused s = Some (now + 2000, endpoint, o)).
  { apply waiting_run; [|simpl; lia|done]. simpl. apply lookup_insert_eq. }
  set (mid := (run evs s0).1) in *. clearbody mid.
  unfold resumeRequest. rewrite Hw. split.
  - intros Hearly. destruct (decide (now + 2000 ≤ later)%Z); [lia|done].
  - intros Hdue. destruct (decide (now + 2000 ≤ later)%Z); [|lia].
    set (s1 := set_paused (delete (nextPaused s)) mid).
    pose proof (proceed_paused endpoint o later s1) as Hp.
    pose proof (proceed_tracker endpoint o later s1) as Ht.
    assert (Hshape :
      (∃ v, checkCache endpoint o later
              (set_tracker (λ tr, (requestTracker.track endpoint later tr).1) s1) = inr v)
      ∨ (∃ s2, checkCache endpoint o later
                 (set_tracker (λ tr, (requestTracker.track endpoint later tr).1) s1)
               = inl s2
               ∧ pendingRequests s2 = pendingRequests mid
               ∧ nextPromise s2 = nextPromise mid ∧ fetchLog s2 = fetchLog mid)).
    { destruct (checkCache_cases endpoint o later
                  (set_tracker (λ tr, (requestTracker.track endpoint later tr).1) s1))
        as [Hhit|(s2 & Hs2 & _ & H1 & _ & H2 & H3)]; [by left|].
      right. exists s2. done. }
    revert Hp Ht. unfold proceed.
    destruct Hshape as [[v Hv]|(s2 & Hs2 & Hpend & Hnext & Hlog)].
    + rewrite Hv. simpl. intros _ Ht.
      split; [apply lookup_delete_eq|].
      split; [intros Hmid; by apply track_keeps_throttled|].
      left. apply checkCache_hit in Hv as (entry & He & <- & Hb & Hm & Hfresh).
      exists entry. done.
    + rewrite Hs2. unfold joinOrStart. rewrite Hpend.
      destruct (pendingRequests mid !! cacheKeyOf endpoint o) as [q|] eqn:Hq; simpl.
      * intros Hp Ht. split; [rewrite Hp; apply lookup_delete_eq|].
        split; [intros Hmid; rewrite Ht; by apply track_keeps_throttled|].
        right. exists q. split; [done|]. split; [by rewrite Hpend|].
        split; [done|]. intros ? [= <-]. by rewrite Hlog.
      * intros Hp Ht. split; [rewrite Hp; apply lookup_delete_eq|].
        split; [intros Hmid; rewrite Ht; by apply track_keeps_throttled|].
        right. exists (nextPromise s2). split; [done|].
        split; [by rewrite lookup_insert_eq|].
        split; [|done]. intros _. by rewrite Hnext, Hlog.
Qed.

Lemma throttled_normal_call_is_delayed_witness :
  (callOptimizedRequest "/items" defaultOptions 10020 afterBurst).2 = Paused 0
  ∧ (resumeRequest 0 12020
       (run [(11000, FetchDone 0 (ROk (JStr "items")))]
          (callOptimizedRequest "/items" defaultOptions 10020 afterBurst).1).1).2
    = Some (Returned (JStr "items")).
Proof.
  destruct (throttled_normal_call_is_delayed afterBurst "/items" defaultOptions 10020)
    as (H1 & _ & _ & H4).
  - vm_compute. reflexivity.
  - vm_compute. reflexivity.
  - vm_compute. discriminate.
  - vm_compute. discriminate.
  - vm_compute. reflexivity.
  - split; [exact H1|].
    destruct (H4 [(11000, FetchDone 0 (ROk (JStr "items")))] 12020) as [_ H5];
      [repeat constructor; discriminate|].
    vm_compute. reflexivity.
Defined.

Lemma filter_recent_of_minute (now : Z) (l : list Z) :
  filter (λ time, now - time < 1000) (filter (λ time, now - time < 60000) l)
  = filter (λ time, now - time < 1000) l.
Proof. apply filter_filter_weaker. intros x. lia. Qed.

Lemma throttleView_cleanup endpoint now tr :
  throttleView now (recordOf endpoint (requestTracker.cleanup now tr))
  = throttleView now (recordOf endpoint tr).
Proof.
  rewrite recordOf_cleanup. unfold throttleView. simpl.
  by rewrite filter_recent_of_minute.
Qed.

(** X22. The cleanup of the tracker never changes a throttling decision:
    [track] returns the same value, and leaves the same flag, the same last
    warning and the same requests of the last second for every endpoint, and
    the same un-throttle callbacks, whatever the time of the last cleanup
    was, that is, whether it runs [cleanup] first or not. *)
Theorem cleanup_keeps_throttling (endpoint : string) (now t : Z) (tr : Tracker) :
  let a := requestTracker.track endpoint now tr in
  let b := requestTracker.track endpoint now (withLastCleanup t tr) in
  a.2 = b.2
  ∧ resetTimers a.1 = resetTimers b.1
  ∧ ∀ e, throttleView now (recordOf e a.1) = throttleView now (recordOf e b.1).
Proof.
  cbv zeta. unfold requestTracker.track. cbv zeta.
  set (tr1 := if decide (now - lastCleanup tr > 60000)
              then requestTracker.cleanup now tr else tr).
  set (tr1' := if decide (now - lastCleanup (withLastCleanup t tr) > 60000)
               then requestTracker.cleanup now (withLastCleanup t tr)
               else withLastCleanup t tr).
  assert (Hview : ∀ e, throttleView now (recordOf e tr1)
                       = throttleView now (recordOf e tr1')).
  { intros e. unfold tr1, tr1'.
    assert (Hw : ∀ x, recordOf e (withLastCleanup t x) = recordOf e x) by done.
    destruct (decide (now - lastCleanup tr > 60000));
      destruct (decide (now - lastCleanup (withLastCleanup t tr) > 60000));
      rewrite ?throttleView_cleanup, ?Hw; done. }
  assert (Htimers : resetTimers tr1 = resetTimers tr1').
  { unfold tr1, tr1'.
    destruct (decide (now - lastCleanup tr > 60000));
      destruct (decide (now - lastCleanup (withLastCleanup t tr) > 60000)); done. }
  clearbody tr1 tr1'.
  change (default requestTracker.newRecord (endpoints tr1 !! endpoint))
    with (recordOf endpoint tr1).
  change (default requestTracker.newRecord (endpoints tr1' !! endpoint))
    with (recordOf endpoint tr1').
  pose proof (Hview endpoint) as Hr. unfold throttleView in Hr.
  injection Hr as Hflag Hwarn Hrecent.
  simpl timestamps. simpl lastWarning. simpl isThrottled. simpl count.
  rewrite !filter_app, Hrecent, Hwarn, Hflag, Htimers.
  match goal with |- context [decide ?P] => destruct (decide P) as [Hd|Hd] end; simpl.
  - split; [done|]. split; [done|]. intros e. unfold recordOf in *. simpl.
    destruct (decide (e = endpoint)) as [->|Hne].
    + rewrite !lookup_insert_eq. unfold throttleView. simpl.
      by rewrite !filter_app, Hrecent.
    + rewrite !lookup_insert_ne by done. apply Hview.
  - split; [done|]. split; [done|]. intros e. unfold recordOf in *. simpl.
    destruct (decide (e = endpoint)) as [->|Hne].
    + rewrite !lookup_insert_eq. unfold throttleView. simpl.
      by rewrite !filter_app, Hrecent, ?Hflag, ?Hwarn.
    + rewrite !lookup_insert_ne by done. apply Hview.
Qed.

End PauseFacts.

(** ** The attempts of a request and its fetches *)

Module FetchFacts.
Import Json RequestManager RequestNotions RequestScenarios RequestMore InvariantNotions.
Import FetchNotions ThrottleFacts PendingFacts.

Lemma fetchesOf_app p log log' :
  fetchesOf p (log ++ log') = (fetchesOf p log ++ fetchesOf p log')%list.
Proof. unfold fetchesOf. by rewrite filter_app, fmap_app. Qed.

Lemma fetchesOf_other p q a endpoint m :
  q ≠ p →
  fetchesOf p [{| fetchRequest := q; fetchAttempt := a; fetchEndpoint := endpoint;
                  fetchMethod := m |}] = [].
Proof.
  intros Hne. unfold fetchesOf. rewrite filter_cons. simpl.
  by destruct (decide (q = p)).
Qed.

Lemma fetchesOf_same p a endpoint m :
  fetchesOf p [{| fetchRequest := p; fetchAttempt := a; fetchEndpoint := endpoint;
                  fetchMethod := m |}] = [a].
Proof.
  unfold fetchesOf. rewrite filter_cons. simpl.
  by destruct (decide (p = p)).
Qed.

Lemma fetchesOf_fresh p log :
  (∀ f, f ∈ log → (fetchRequest f < p)%nat) → fetchesOf p log = [].
Proof.
  intros Hlog. unfold fetchesOf.
  induction log as [|f log IH]; [done|].
  rewrite filter_cons. destruct (decide (fetchRequest f = p)) as [Heq|Hne].
  - assert (fetchRequest f < p)%nat by (apply Hlog; left). lia.
  - apply IH. intros g Hg. apply Hlog. by right.
Qed.

Lemma attemptsUpTo_next a :
  (0 ≤ a)%Z → attemptsUpTo (a + 1) = (attemptsUpTo a ++ [a + 1])%list.
Proof.
  intros Ha. unfold attemptsUpTo.
  replace (Z.to_nat (a + 1)) with (S (Z.to_nat a)) by lia.
  rewrite (seq_S (S (Z.to_nat a))), fmap_app. simpl. do 3 f_equal. lia.
Qed.

(** States with the same requests and the same log. *)
Lemma fetchInv_same s s' :
  tasks s' = tasks s → nextPromise s' = nextPromise s → fetchLog s' = fetchLog s →
  fetchInv s → fetchInv s'.
Proof.
  intros Ht Hn Hl [H1 H2 H3 H4 H5]. split; rewrite ?Ht, ?Hn, ?Hl; done.
Qed.

Lemma fetchInv_initial t0 : fetchInv (initialState t0).
Proof.
  split; simpl; intros *; try (rewrite lookup_empty; discriminate).
  by intros ?%elem_of_nil.
Qed.

Lemma fetchInv_startRequest endpoint o s :
  fetchInv s → fetchInv (startRequest endpoint o s).1.
Proof.
  intros [H1 H2 H3 H4 H5]. split; simpl.
  - intros p t [[<- <-]|[_ Hp]]%lookup_insert_Some; [simpl; lia|by eapply H1].
  - intros p t [[<- <-]|[Hne Hp]]%lookup_insert_Some; rewrite fetchesOf_app.
    + rewrite fetchesOf_same, fetchesOf_fresh; [done|]. apply H5.
    + rewrite fetchesOf_other by done. rewrite app_nil_r. by apply H2.
  - intros p t due [[<- <-]|[_ Hp]]%lookup_insert_Some; [done|by eapply H3].
  - intros p t [[<- _]|[_ Hp]]%lookup_insert_Some; [lia|]. apply H4 in Hp. lia.
  - intros f [Hf| ->%list_elem_of_singleton]%elem_of_app; [|simpl; lia].
    apply H5 in Hf. lia.
Qed.

Lemma checkCache_same_log endpoint o now s s' :
  checkCache endpoint o now s = inl s' →
  tasks s' = tasks s ∧ nextPromise s' = nextPromise s ∧ fetchLog s' = fetchLog s.
Proof.
  unfold checkCache. intros H.
  destruct (negb (bypassCache o) && bool_decide (method o = "GET")).
  - destruct (requestCache s !! cacheKeyOf endpoint o) as [entry|].
    + destruct (decide _); [done|]. by injection H as <-.
    + by injection H as <-.
  - by injection H as <-.
Qed.

Lemma fetchInv_proceed endpoint o now s :
  fetchInv s → fetchInv (proceed endpoint o now s).1.
Proof.
  intros Hinv. unfold proceed.
  set (s1 := set_tracker _ s).
  assert (Hinv1 : fetchInv s1) by (by apply (fetchInv_same s)).
  destruct (checkCache endpoint o now s1) as [s2|v] eqn:Hcache; [|done].
  assert (Hinv2 : fetchInv s2).
  { destruct (checkCache_same_log _ _ _ _ _ Hcache) as (? & ? & ?).
    by apply (fetchInv_same s1). }
  unfold joinOrStart. destruct (pendingRequests s2 !! _); [done|].
  by apply fetchInv_startRequest.
Qed.

Lemma fetchInv_optimizedRequest endpoint o now s :
  fetchInv s → fetchInv (optimizedRequest endpoint o now s).1.
Proof.
  intros Hinv. unfold optimizedRequest.
  destruct (_ && _); [|by apply fetchInv_proceed].
  destruct (requestCache s !! _); [done|].
  destruct (bool_decide _); [done|]. by apply (fetchInv_same s).
Qed.

Lemma fetchInv_settle p t r s :
  fetchInv s → fetchInv (settle p r (finallyBlock t s)).
Proof.
  intros [H1 H2 H3 H4 H5].
  assert (Hsame : tasks (finallyBlock t s) = tasks s ∧
                  fetchLog (finallyBlock t s) = fetchLog s ∧
                  nextPromise (finallyBlock t s) = nextPromise s).
  { unfold finallyBlock. by destruct (decide _). }
  destruct Hsame as (Ht' & Hl' & Hn').
  split; simpl; rewrite ?Ht', ?Hl', ?Hn'.
  - intros q tq [_ Hq]%lookup_delete_Some. by eapply H1.
  - intros q tq [_ Hq]%lookup_delete_Some. by eapply H2.
  - intros q tq due [_ Hq]%lookup_delete_Some. by eapply H3.
  - intros q tq [_ Hq]%lookup_delete_Some. by eapply H4.
  - done.
Qed.

Lemma fetchInv_fetchDone p r now s :
  fetchInv s → fetchInv (fetchDone p r now s).
Proof.
  intros Hinv. unfold fetchDone.
  destruct (tasks s !! p) as [t|] eqn:Ht; [|done].
  destruct (awaiting t) eqn:Haw; [|done].
  destruct r as [d|message].
  - destruct (bool_decide _).
    + apply fetchInv_settle. by apply (fetchInv_same s).
    + by apply fetchInv_settle.
  - destruct (decide (retryAttempt t < retryCount (taskOptions t))).
    + destruct Hinv as [H1 H2 H3 H4 H5]. split; simpl.
      * intros q tq [[<- <-]|[_ Hq]]%lookup_insert_Some; simpl; by eapply H1.
      * intros q tq [[<- <-]|[_ Hq]]%lookup_insert_Some; simpl; by eapply H2.
      * intros q tq due [[<- <-]|[_ Hq]]%lookup_insert_Some; simpl; [done|by eapply H3].
      * intros q tq [[<- _]|[_ Hq]]%lookup_insert_Some; by eapply H4.
      * done.
    + by apply fetchInv_settle.
Qed.

Lemma fetchInv_retryTimer p now s :
  fetchInv s → fetchInv (retryTimer p now s).
Proof.
  intros Hinv. unfold retryTimer.
  destruct (tasks s !! p) as [t|] eqn:Ht; [|done].
  destruct (awaiting t) as [|due] eqn:Haw; [done|].
  destruct (decide (due ≤ now)%Z); [|done].
  destruct Hinv as [H1 H2 H3 H4 H5].
  pose proof (H1 p t Ht) as Hrange. pose proof (H3 p t due Ht Haw) as Hleft.
  set (s1 := beginAttempt p _ _ _ _ s).
  assert (Hsame : tasks (finallyBlock t s1) = tasks s1 ∧
                  fetchLog (finallyBlock t s1) = fetchLog s1 ∧
                  nextPromise (finallyBlock t s1) = nextPromise s).
  { unfold finallyBlock. by destruct (decide _). }
  destruct Hsame as (Ht' & Hl' & Hn').
  split; rewrite ?Ht', ?Hl', ?Hn'; subst s1; simpl.
  - intros q tq [[<- <-]|[_ Hq]]%lookup_insert_Some; simpl; [lia|by eapply H1].
  - intros q tq [[<- <-]|[Hne Hq]]%lookup_insert_Some; simpl; rewrite fetchesOf_app.
    + rewrite fetchesOf_same, (H2 p t Ht). symmetry. apply attemptsUpTo_next. lia.
    + rewrite fetchesOf_other by done. rewrite app_nil_r. by apply H2.
  - intros q tq due' [[<- <-]|[_ Hq]]%lookup_insert_Some; simpl; [done|by eapply H3].
  - intros q tq [[<- _]|[_ Hq]]%lookup_insert_Some; by eapply H4.
  - intros f [Hf| ->%list_elem_of_singleton]%elem_of_app; [by apply H5|].
    simpl. by eapply H4.
Qed.

Lemma fetchInv_step now e s : fetchInv s → fetchInv (step now e s).1.
Proof.
  intros Hinv. destruct e as [endpoint o|w|p r|p|endpoint|endpoint];
    [rewrite step_call|simpl..].
  - unfold callOptimizedRequest. destruct (inherited endpoint).
    + by apply (fetchInv_same s).
    + by apply fetchInv_optimizedRequest.
  - unfold resumeRequest. destruct (paused s !! w) as [[[due endpoint] o]|]; [|done].
    destruct (decide _); [|done].
    pose proof (fetchInv_proceed endpoint o now (set_paused (delete w) s)) as H.
    destruct (proceed endpoint o now _). simpl in *. apply H.
    by apply (fetchInv_same s).
  - by apply fetchInv_fetchDone.
  - by apply fetchInv_retryTimer.
  - unfold unthrottle. destruct (list_find _ _) as [[i x]|]; [|done].
    by apply (fetchInv_same s).
  - unfold clearRequestCache. destruct endpoint as [e|].
    + destruct (decide _); by apply (fetchInv_same s).
    + by apply (fetchInv_same s).
Qed.

Lemma reachable_fetchInv s : reachable s → fetchInv s.
Proof.
  induction 1; [apply fetchInv_initial|by apply fetchInv_step].
Qed.

(** A step invokes [fetch] for a request only when the request is running or
    is started by the step. *)
Lemma step_fetches_of_running now e s p :
  fetchInv s → tasks s !! p = None → (p < nextPromise s)%nat →
  fetchesOf p (fetchLog (step now e s).1) = fetchesOf p (fetchLog s).
Proof.
  intros Hinv Hnone Hlt.
  assert (Hproceed : ∀ endpoint o s0,
            tasks s0 = tasks s → nextPromise s0 = nextPromise s →
            fetchLog s0 = fetchLog s →
            fetchesOf p (fetchLog (proceed endpoint o now s0).1) = fetchesOf p (fetchLog s)).
  { intros endpoint o s0 Ht Hn Hl. unfold proceed.
    set (s1 := set_tracker _ s0).
    destruct (checkCache endpoint o now s1) as [s2|v] eqn:Hcache; [|by rewrite <- Hl].
    destruct (checkCache_same_log _ _ _ _ _ Hcache) as (Ht2 & Hn2 & Hl2).
    unfold joinOrStart. destruct (pendingRequests s2 !! _).
    - simpl. by rewrite Hl2, <- Hl.
    - simpl. rewrite fetchesOf_app, fetchesOf_other, app_nil_r.
      + by rewrite Hl2, <- Hl.
      + rewrite Hn2. simpl. rewrite Hn. lia. }
  destruct e as [endpoint o|w|q r|q|endpoint|endpoint]; [rewrite step_call|simpl..].
  - unfold callOptimizedRequest. destruct (inherited endpoint); [done|].
    unfold optimizedRequest.
    destruct (_ && _); [|].
    + destruct (requestCache s !! _); [done|]. by destruct (bool_decide _).
    + pose proof (Hproceed endpoint o s eq_refl eq_refl eq_refl) as H.
      by destruct (proceed endpoint o now s).
  - unfold resumeRequest. destruct (paused s !! w) as [[[due endpoint] o]|]; [|done].
    destruct (decide _); [|done].
    pose proof (Hproceed endpoint o (set_paused (delete w) s) eq_refl eq_refl eq_refl) as H.
    by destruct (proceed endpoint o now _).
  - unfold fetchDone. destruct (tasks s !! q) as [t|]; [|done].
    destruct (awaiting t); [|done].
    destruct r as [d|message].
    + unfold finallyBlock. destruct (bool_decide _); by destruct (decide _).
    + destruct (decide (retryAttempt t < _)); [done|].
      unfold finallyBlock. by destruct (decide _).
  - unfold retryTimer. destruct (tasks s !! q) as [t|] eqn:Hq; [|done].
    destruct (awaiting t); [done|].
    destruct (decide _); [|done].
    assert (q ≠ p) by (intros ->; congruence).
    unfold finallyBlock. destruct (decide _); simpl;
      by rewrite fetchesOf_app, fetchesOf_other, app_nil_r.
  - unfold unthrottle. by destruct (list_find _ _) as [[i x]|].
  - unfold clearRequestCache. destruct endpoint as [e0|]; [|done].
    by destruct (decide _).
Qed.

(** X23. Every attempt of a request invokes [fetch] exactly once and the
    attempts are numbered from zero without a gap: in every state the
    request manager can reach, a running request is at an attempt between
    zero and its [retryCount] (zero when [retryCount] is negative) and the
    log holds one invocation for each of its attempts so far, in order; so a
    request makes at most [retryCount + 1] fetches. Once a request is no
    longer running, no task of the event loop adds a fetch for it. *)
Theorem one_fetch_per_attempt (s : State) (p : nat) :
  reachable s →
  (∀ t, tasks s !! p = Some t →
        (0 ≤ retryAttempt t ≤ Z.max 0 (retryCount (taskOptions t)))%Z
        ∧ fetchesOf p (fetchLog s) = attemptsUpTo (retryAttempt t)
        ∧ (Z.of_nat (length (fetchesOf p (fetchLog s)))
             ≤ Z.max 0 (retryCount (taskOptions t)) + 1)%Z)
  ∧ (∀ r now e, settled s !! p = Some r →
        fetchesOf p (fetchLog (step now e s).1) = fetchesOf p (fetchLog s)).
Proof.
  intros Hreach. pose proof (reachable_fetchInv s Hreach) as Hinv. split.
  - intros t Ht. pose proof (fi_attempt s Hinv p t Ht) as Hrange.
    rewrite (fi_fetches s Hinv p t Ht). split; [done|]. split; [done|].
    unfold attemptsUpTo. rewrite length_fmap, length_seq. lia.
  - intros r now e Hs.
    destruct (pi_settled s (reachable_pendingInv s Hreach) p r Hs) as [Hlt Hnone].
    by apply step_fetches_of_running.
Qed.

Lemma one_fetch_per_attempt_witness :
  fetchesOf 0 (fetchLog afterFirstRetry) = [0; 1].
Proof.
  destruct (one_fetch_per_attempt afterFirstRetry 0) as [H _].
  - apply (run_reachable [(10000, Call "/items" defaultOptions);
                          (10050, FetchDone 0 (RFail "Failed to fetch"));
                          (11050, RetryTimer 0)] (initialState 9000)).
    apply reachable_loaded.
  - destruct (H {| taskEndpoint := "/items"; taskOptions := defaultOptions;
                   taskKey := itemsKey; retryAttempt := 1; awaiting := AwaitFetch |})
      as (_ & Hlog & _); [vm_compute; reflexivity|exact Hlog].
Defined.

End FetchFacts.

(** ** The wait before a retry *)

Module BackoffFacts.
Import Json RequestManager RequestNotions RequestScenarios RequestMore InvariantNotions.
Import FetchNotions ThrottleFacts PendingFacts FetchFacts.

Lemma setTimeoutDelay_in_range d :
  (0 ≤ d ≤ 2147483647)%Z → setTimeoutDelay d = d.
Proof.
  intros Hd. unfold setTimeoutDelay, toInt32.
  rewrite Z.mod_small by lia. lia.
Qed.

Lemma setTimeoutDelay_overflow d :
  (2147483647 < d < 4294967296 ∨ -2147483648 ≤ d < 0)%Z → setTimeoutDelay d = 0.
Proof.
  intros Hd. unfold setTimeoutDelay, toInt32.
  destruct Hd as [Hd|Hd].
  - replace (d + 2147483648) with ((d - 2147483648) + 1 * 4294967296) by lia.
    rewrite Z.mod_add by lia. rewrite Z.mod_small by lia. lia.
  - rewrite Z.mod_small by lia. lia.
Qed.

Lemma proceed_settled endpoint o now s :
  settled (proceed endpoint o now s).1 = settled s.
Proof.
  unfold proceed, checkCache, joinOrStart, startRequest.
  repeat (match goal with
          | |- context [if ?b then _ else _] => destruct b
          | |- context [match ?x with Some _ => _ | None => _ end] => destruct x
          end; simpl); reflexivity.
Qed.

(** A call past the throttle block leaves the requests that exist as they
    are. *)
Lemma proceed_other p endpoint o now s :
  (p < nextPromise s)%nat →
  tasks (proceed endpoint o now s).1 !! p = tasks s !! p
  ∧ (p < nextPromise (proceed endpoint o now s).1)%nat
  ∧ fetchesOf p (fetchLog (proceed endpoint o now s).1) = fetchesOf p (fetchLog s).
Proof.
  intros Hlt. unfold proceed. set (s1 := set_tracker _ s).
  destruct (checkCache endpoint o now s1) as [s2|v] eqn:Hcache; [|done].
  destruct (checkCache_same_log _ _ _ _ _ Hcache) as (Ht2 & Hn2 & Hl2).
  unfold joinOrStart. destruct (pendingRequests s2 !! _); simpl.
  - rewrite Ht2, Hn2, Hl2. done.
  - rewrite Hn2. simpl. split; [|split; [lia|]].
    + rewrite lookup_insert_ne by lia. by rewrite Ht2.
    + rewrite fetchesOf_app, fetchesOf_other, app_nil_r by lia. by rewrite Hl2.
Qed.

(** While request [p] waits for a retry that is due at [due], a task of the
    event loop that runs before leaves its task as it is and invokes no
    [fetch] for it. *)
Lemma step_keeps_waiting now e s p t due :
  tasks s !! p = Some t → awaiting t = AwaitRetry due →
  settled s !! p = None → (p < nextPromise s)%nat →
  now < due →
  tasks (step now e s).1 !! p = Some t
  ∧ settled (step now e s).1 !! p = None
  ∧ (p < nextPromise (step now e s).1)%nat
  ∧ fetchesOf p (fetchLog (step now e s).1) = fetchesOf p (fetchLog s).
Proof.
  intros Ht Haw Hset Hlt Hearly.
  destruct e as [endpoint o|w|q r|q|endpoint|endpoint]; [rewrite step_call|simpl..].
  - unfold callOptimizedRequest. destruct (inherited endpoint); [done|].
    unfold optimizedRequest.
    destruct (_ && _).
    + destruct (requestCache s !! _); [done|]. by destruct (bool_decide _).
    + destruct (proceed_other p endpoint o now s Hlt) as (H1 & H2 & H3).
      rewrite H1, proceed_settled. done.
  - unfold resumeRequest. destruct (paused s !! w) as [[[due' endpoint] o]|]; [|done].
    destruct (decide _); [|done].
    pose proof (proceed_other p endpoint o now (set_paused (delete w) s) Hlt) as H.
    pose proof (proceed_settled endpoint o now (set_paused (delete w) s)) as H'.
    destruct (proceed endpoint o now _) as [s' out]. simpl in *.
    destruct H as (H1 & H2 & H3). rewrite H1, H'. done.
  - unfold fetchDone. destruct (decide (q = p)) as [->|Hne].
    { rewrite Ht, Haw. done. }
    destruct (tasks s !! q) as [tq|] eqn:Hq; [|done].
    destruct (awaiting tq); [|done].
    assert (Hfin : ∀ s0, tasks (finallyBlock tq s0) = tasks s0
                         ∧ settled (finallyBlock tq s0) = settled s0
                         ∧ nextPromise (finallyBlock tq s0) = nextPromise s0
                         ∧ fetchLog (finallyBlock tq s0) = fetchLog s0).
    { intros s0. unfold finallyBlock. by destruct (decide _). }
    destruct r as [d|message].
    + destruct (bool_decide _); simpl;
        match goal with |- context [finallyBlock tq ?s0] =>
          destruct (Hfin s0) as (-> & -> & -> & ->) end; simpl;
        rewrite lookup_delete_ne, lookup_insert_ne by done; done.
    + destruct (decide (retryAttempt tq < _)); simpl.
      * rewrite lookup_insert_ne by done. done.
      * destruct (Hfin s) as (-> & -> & -> & ->).
        rewrite lookup_delete_ne, lookup_insert_ne by done. done.
  - unfold retryTimer. destruct (decide (q = p)) as [->|Hne].
    { rewrite Ht, Haw. destruct (decide (due ≤ now)%Z); [lia|done]. }
    destruct (tasks s !! q) as [tq|] eqn:Hq; [|done].
    destruct (awaiting tq); [done|].
    destruct (decide _); [|done].
    unfold finallyBlock. destruct (decide _); simpl;
      rewrite lookup_insert_ne by done;
      rewrite fetchesOf_app, fetchesOf_other, app_nil_r by done; done.
  - unfold unthrottle. by destruct (list_find _ _) as [[i x]|].
  - unfold clearRequestCache. destruct endpoint as [e0|]; [|done].
    by destruct (decide _).
Qed.

Lemma run_keeps_waiting evs s p t due :
  tasks s !! p = Some t → awaiting t = AwaitRetry due →
  settled s !! p = None → (p < nextPromise s)%nat →
  Forall (λ te, te.1 < due) evs →
  tasks (run evs s).1 !! p = Some t
  ∧ settled (run evs s).1 !! p = None
  ∧ fetchesOf p (fetchLog (run evs s).1) = fetchesOf p (fetchLog s).
Proof.
  revert s. induction evs as [|[now e] evs IH]; intros s Ht Haw Hset Hlt Hall; [done|].
  apply Forall_cons in Hall as [Hnow Hall]. simpl in Hnow.
  destruct (step_keeps_waiting now e s p t due Ht Haw Hset Hlt Hnow)
    as (H1 & H2 & H3 & H4).
  rewrite run_event_cons. rewrite <- H4. by apply IH.
Qed.

(** The retry that the timer starts: the next attempt invokes [fetch]. *)
Lemma retryTimer_fetches p t due now s :
  tasks s !! p = Some t → awaiting t = AwaitRetry due → (due ≤ now)%Z →
  fetchesOf p (fetchLog (retryTimer p now s))
  = (fetchesOf p (fetchLog s) ++ [retryAttempt t + 1])%list.
Proof.
  intros Ht Haw Hdue. unfold retryTimer. rewrite Ht, Haw.
  destruct (decide (due ≤ now)%Z); [|lia].
  unfold finallyBlock. destruct (decide _); simpl;
    by rewrite fetchesOf_app, fetchesOf_same.
Qed.

(** X3. Linear backoff, within what [setTimeout] takes. Attempt [a] of a
    request fails while a retry is left, and [d] is the delay
    [retryDelay * (a + 1)] that the attempt hands to [setTimeout]. When [d] is
    a delay that [setTimeout] honours (from 0 to [2^31 - 1]): whatever the
    event loop runs before [d] has passed since the failure (calls, answers
    of the transport, timers, the timer of this retry included, the cache
    cleared), the request makes no transport invocation, stays unsettled,
    stays at attempt [a] and waits for the same timer; the timer that fires
    when [d] has passed makes the one invocation of attempt [a + 1]. When [d]
    is from [2^31] to [2^32 - 1], or negative down to [-2^31], there is no
    wait: the timer is due at the time of the failure and the invocation of
    attempt [a + 1] is made then. *)
Theorem retry_waits_for_backoff (s : State) (p : nat) (t : Task)
    (message : string) (tf : Z) :
  reachable s →
  tasks s !! p = Some t →
  awaiting t = AwaitFetch →
  retryAttempt t < retryCount (taskOptions t) →
  let d := retryDelay (taskOptions t) * (retryAttempt t + 1) in
  let failed := fetchDone p (RFail message) tf s in
  ((0 ≤ d ≤ 2147483647)%Z →
   ∀ evs : list (Z * Event),
     Forall (λ te, te.1 < tf + d) evs →
     let s' := (run evs failed).1 in
     fetchesOf p (fetchLog s') = fetchesOf p (fetchLog s)
     ∧ settled s' !! p = None
     ∧ (retryAttempt <$> tasks s' !! p) = Some (retryAttempt t)
     ∧ (awaiting <$> tasks s' !! p) = Some (AwaitRetry (tf + d))
     ∧ ∀ now, (tf + d ≤ now)%Z →
         fetchesOf p (fetchLog (retryTimer p now s'))
         = (fetchesOf p (fetchLog s) ++ [retryAttempt t + 1])%list)
  ∧ ((2147483647 < d < 4294967296 ∨ -2147483648 ≤ d < 0)%Z →
     fetchesOf p (fetchLog (retryTimer p tf failed))
     = (fetchesOf p (fetchLog s) ++ [retryAttempt t + 1])%list).
Proof.
  intros Hreach Ht Haw Hleft. cbv zeta.
  pose proof (reachable_fetchInv s Hreach) as Hinv.
  pose proof (reachable_pendingInv s Hreach) as Hpend.
  assert (Hlt : (p < nextPromise s)%nat) by (by eapply (fi_task s Hinv)).
  assert (Hset : settled s !! p = None).
  { destruct (settled s !! p) as [r|] eqn:Hr; [|done].
    destruct (pi_settled s Hpend p r Hr) as [_ Hnone]. congruence. }
  set (d := retryDelay (taskOptions t) * (retryAttempt t + 1)).
  set (t' := {| taskEndpoint := taskEndpoint t; taskOptions := taskOptions t;
                taskKey := taskKey t; retryAttempt := retryAttempt t;
                awaiting := AwaitRetry (tf + setTimeoutDelay d) |}).
  assert (Hfailed : fetchDone p (RFail message) tf s = set_tasks (<[p := t']>) s).
  { unfold fetchDone. rewrite Ht, Haw.
    by destruct (decide (retryAttempt t < retryCount (taskOptions t))). }
  rewrite Hfailed.
  assert (Ht' : tasks (set_tasks (<[p := t']>) s) !! p = Some t').
  { simpl. apply lookup_insert_eq. }
  split.
  - intros Hd evs Hevs.
    destruct (run_keeps_waiting evs (set_tasks (<[p := t']>) s) p t'
                (tf + setTimeoutDelay d)) as (H1 & H2 & H3); try done.
    { by rewrite setTimeoutDelay_in_range. }
    rewrite H1, H2, H3. simpl.
    rewrite setTimeoutDelay_in_range by done.
    split; [done|]. split; [done|]. split; [done|]. split; [done|].
    intros now Hnow.
    rewrite (retryTimer_fetches p t' (tf + setTimeoutDelay d) now) ; try done.
    + by rewrite H3.
    + rewrite setTimeoutDelay_in_range by done. lia.
  - intros Hd.
    rewrite (retryTimer_fetches p t' (tf + setTimeoutDelay d) tf); try done.
    rewrite setTimeoutDelay_overflow by done. lia.
Qed.

Lemma retry_waits_for_backoff_witness :
  let failed := fetchDone 0 (RFail "Failed to fetch") 10050 oneInFlight in
  let s' := (run [(10500, RetryTimer 0); (10600, Call "/items" defaultOptions);
                  (11049, RetryTimer 0)] failed).1 in
  fetchesOf 0 (fetchLog s') = [0]
  ∧ fetchesOf 0 (fetchLog (retryTimer 0 11050 s')) = [0; 1].
Proof.
  assert (Hone : oneInFlight
                 = (step 10000 (Call "/items" defaultOptions) (initialState 9000)).1)
    by (vm_compute; reflexivity).
  destruct (retry_waits_for_backoff oneInFlight 0
              {| taskEndpoint := "/items"; taskOptions := defaultOptions;
                 taskKey := cacheKeyOf "/items" defaultOptions;
                 retryAttempt := 0; awaiting := AwaitFetch |}
              "Failed to fetch" 10050) as [H _].
  - rewrite Hone. apply reachable_task, reachable_loaded.
  - vm_compute. reflexivity.
  - reflexivity.
  - vm_compute. reflexivity.
  - destruct (H ltac:(vm_compute; split; discriminate)
                [(10500, RetryTimer 0); (10600, Call "/items" defaultOptions);
                 (11049, RetryTimer 0)]) as (H1 & _ & _ & _ & H5).
    + repeat constructor; vm_compute; reflexivity.
    + split; [exact H1|]. apply (H5 11050). vm_compute. discriminate.
Defined.

End BackoffFacts.

(** ** The [cacheTTL] option *)

Module TtlFacts.
Import Json RequestManager RequestNotions RequestScenarios RequestMore RequestMoreNotions.
Import FetchNotions ThrottleFacts.

Lemma cacheKeyOf_withCacheTTL endpoint ttl o :
  cacheKeyOf endpoint (withCacheTTL ttl o) = cacheKeyOf endpoint o.
Proof. reflexivity. Qed.

(** X24. The [cacheTTL] option has no effect for an endpoint that contains
    [/health] or [/resources], and a [cacheTTL] of zero stands for the
    default of five minutes: two calls that differ in nothing but such
    [cacheTTL]s have the same outcome and leave the same cache, pending
    requests, tracker and fetches. *)
Theorem cacheTTL_without_effect (endpoint : string) (o : Options) (ttl ttl' : Z)
    (now : Z) (s : State) :
  includes endpoint "/health" = true ∨ includes endpoint "/resources" = true
    ∨ (ttl = 0 ∧ ttl' = DEFAULT_CACHE_TTL) →
  observed (optimizedRequest endpoint (withCacheTTL ttl o) now s)
  = observed (optimizedRequest endpoint (withCacheTTL ttl' o) now s).
Proof.
  intros Hcase.
  assert (Httl : effectiveCacheTTL endpoint (withCacheTTL ttl o)
                 = effectiveCacheTTL endpoint (withCacheTTL ttl' o)).
  { unfold effectiveCacheTTL. destruct Hcase as [->|[H|[-> ->]]]; [done| |].
    - rewrite H. by destruct (includes endpoint "/health").
    - simpl. destruct (includes endpoint "/health"); [done|].
      by destruct (includes endpoint "/resources"). }
  unfold optimizedRequest. rewrite !cacheKeyOf_withCacheTTL.
  change (priority (withCacheTTL ttl o)) with (priority o).
  change (priority (withCacheTTL ttl' o)) with (priority o).
  destruct (_ && _).
  - destruct (requestCache s !! cacheKeyOf endpoint o); [done|].
    by destruct (bool_decide (priority o = "low")).
  - unfold proceed, checkCache. rewrite !cacheKeyOf_withCacheTTL, Httl.
    change (bypassCache (withCacheTTL ttl o)) with (bypassCache o).
    change (bypassCache (withCacheTTL ttl' o)) with (bypassCache o).
    change (method (withCacheTTL ttl o)) with (method o).
    change (method (withCacheTTL ttl' o)) with (method o).
    set (s1 := set_tracker _ s).
    assert (Hjoin : ∀ s2, observed (joinOrStart endpoint (withCacheTTL ttl o) s2)
                          = observed (joinOrStart endpoint (withCacheTTL ttl' o) s2)).
    { intros s2. unfold joinOrStart. rewrite !cacheKeyOf_withCacheTTL.
      by destruct (pendingRequests s2 !! cacheKeyOf endpoint o). }
    destruct (negb (bypassCache o) && bool_decide (method o = "GET")); [|apply Hjoin].
    destruct (requestCache s1 !! cacheKeyOf endpoint o) as [entry|]; [|apply Hjoin].
    destruct (decide _); [done|apply Hjoin].
Qed.

Lemma cacheTTL_without_effect_witness :
  observed (optimizedRequest "/resources/1" (withCacheTTL 1000 defaultOptions)
              700000 cachedDetail)
  = observed (optimizedRequest "/resources/1" (withCacheTTL 60000 defaultOptions)
                700000 cachedDetail).
Proof.
  apply cacheTTL_without_effect. right. left. vm_compute. reflexivity.
Defined.

(** X25. The [fetch] of the Supabase client passes a [cacheTTL] of one
    minute, but for a URL that contains [/resources] (and not [/health],
    which the client handles before) the entry of the URL is served until it
    is ten minutes old: a GET through the client for an endpoint that is not
    throttled returns the cached answer without a fetch whenever the entry is
    younger than ten minutes. *)
Theorem client_serves_resources_for_ten_minutes (url : string)
    (requestHeaders : list (string * string)) (requestBody : json)
    (now : Z) (s : State) (entry : CacheEntry) :
  includes url "/resources" = true →
  includes url "/health" = false →
  requestTracker.isThrottled url (tracker s) = false →
  requestCache s !! cacheKeyOf url (clientOptions requestHeaders requestBody) = Some entry →
  now - timestamp entry < 10 * 60 * 1000 →
  let call := optimizedRequest url (clientOptions requestHeaders requestBody) now s in
  call.2 = Returned (data entry)
  ∧ fetchLog call.1 = fetchLog s
  ∧ requestCache call.1 = requestCache s.
Proof.
  intros Hres Hhealth Hthr Hentry Hage. cbv zeta.
  rewrite optimizedRequest_past_gate by (by left).
  unfold proceed, checkCache. simpl bypassCache. simpl method. simpl negb.
  rewrite bool_decide_eq_true_2 by done. simpl andb.
  change (requestCache (set_tracker _ s)) with (requestCache s). rewrite Hentry.
  unfold effectiveCacheTTL. rewrite Hhealth, Hres.
  destruct (decide (now - timestamp entry < 10 * 60 * 1000)); [done|lia].
Qed.

Lemma client_serves_resources_for_ten_minutes_witness :
  (optimizedRequest "/resources/1" (clientOptions [] JUndefined) 500000 cachedDetail).2
  = Returned (JStr "detail").
Proof.
  destruct (client_serves_resources_for_ten_minutes "/resources/1" [] JUndefined
              500000 cachedDetail {| data := JStr "detail"; timestamp := 1040 |})
    as (H & _).
  - vm_compute. reflexivity.
  - vm_compute. reflexivity.
  - vm_compute. reflexivity.
  - vm_compute. reflexivity.
  - simpl. lia.
  - exact H.
Defined.

End TtlFacts.
